(** * Offline-first sync engine and call lifecycle of the emergency alert client

    A shallow embedding of
    - [src/services/OfflineSyncService.ts] (the durable sync queue and its drain),
    - [src/services/CallService.ts] (the hotline call lifecycle),
    - [src/services/ResponseService.ts] and [src/services/LocationService.ts]
      (the response producer and its location capture),
    - [src/db/schema.ts] (the SQLite tables the three services write),
    - [src/store/useAppStore.ts] (the application store), the listener of
      [src/services/NotificationService.ts], and the handlers of
      [src/hooks/useNetworkStatus.ts] and [app/alert/[id].tsx] that call
      the services and the store,
    together with the two runtime built-ins the services lean on,
    [JSON.stringify] and [JSON.parse].

    The services are asynchronous, stateful and fallible.  They are embedded
    in a state-and-exception monad [M] over one machine state [St] that holds
    the store, the singleton services' fields, the environment and the trace
    of externally visible effects.  A call that the source does not [await]
    is split where JavaScript splits it: its synchronous prefix runs at the
    call, the remainder is parked in [detached] and runs later.

    What the embedding takes for granted:
    - an awaited call runs to its end before anything else happens. The
      source's only other writer of [sync_queue] during a drain is
      [enqueue]'s INSERT of a row the drain's SELECT has not seen;
    - the store is available: a statement fails only on a constraint of
      the schema (PRIMARY KEY, FOREIGN KEY), never for lack of a store;
    - [NetInfo.fetch] resolves;
    - strings are sequences of 8-bit code units;
    - the data of a push notification has the types that the casts of
      [parseAlertFromNotification] take it to have. *)

From Stdlib Require Import ZArith List String Ascii Bool Lia Arith.
From Stdlib Require Import DecimalString DecimalZ.
From Stdlib Require Import Permutation Sorted.
Import ListNotations.

Local Open Scope string_scope.
Local Open Scope Z_scope.

Set Warnings "-register-all".

(** ** JavaScript numbers

    Coordinates, accuracies and durations are IEEE doubles in the source.
    The embedding keeps the number type abstract: all the services do with a
    number is create it from an integer, print it and read it back. *)

Class JsNumber : Type := {
  number : Type;
  (** [Number::toString] applied to a finite number. *)
  number_to_string : number -> string;
  (** The numeric value of a JSON number token, when the token is one. *)
  number_of_string : string -> option number;
  (** An integer as a number (integer literals, [Math.round]). *)
  number_of_Z : Z -> number
}.

(** Decimal rendering of an integer, as template literals and
    [Number::toString] render integers of moderate size. *)
Definition Z_to_string (z : Z) : string := NilZero.string_of_int (Z.to_int z).

(** Reads back exactly the renderings of [Z_to_string]: no leading zeros,
    no fraction, no exponent, no negative zero. *)
Definition Z_of_string (s : string) : option Z :=
  match NilZero.int_of_string s with
  | Some d =>
      let z := Z.of_int d in
      if String.eqb (Z_to_string z) s then Some z else None
  | None => None
  end.

(** The integers as an instance: the numbers of a run in which every
    coordinate and duration is integral. *)
Definition Z_JsNumber : JsNumber :=
  {| number := Z;
     number_to_string := Z_to_string;
     number_of_string := Z_of_string;
     number_of_Z := fun z => z |}.

(** ** Enumerations of [src/types/index.ts] and of the schema's CHECKs *)

Module UserResponseType.
Inductive t : Type := safe | need_assistance | evacuating | sheltering.
Definition name (r : t) : string :=
  match r with
  | safe => "safe"
  | need_assistance => "need_assistance"
  | evacuating => "evacuating"
  | sheltering => "sheltering"
  end.
End UserResponseType.

Module SyncStatus.
Inductive t : Type := pending | syncing | synced | failed.
Definition eqb (a b : t) : bool :=
  match a, b with
  | pending, pending | syncing, syncing | synced, synced | failed, failed => true
  | _, _ => false
  end.
End SyncStatus.

Module SyncType.
Inductive t : Type := user_response | location_update | call_log.
Definition name (ty : t) : string :=
  match ty with
  | user_response => "user_response"
  | location_update => "location_update"
  | call_log => "call_log"
  end.
End SyncType.

Module CallStatus.
Inductive t : Type := connecting | connected | disconnected | failed.
End CallStatus.

(** A [Date]: the instant in milliseconds and its [toISOString] rendering. *)
Record JsDate : Type := mkDate { getTime : Z; toISOString : string }.

(** A value caught by [catch]: an [Error] with its message, or anything else. *)
Inductive JsThrown : Type :=
| JsError (message : string)
| JsNonError.

(** A settled promise of the platform. *)
Inductive Settled (A : Type) : Type :=
| Resolved (a : A)
| Rejected (e : JsThrown).
Arguments Resolved {A} a.
Arguments Rejected {A} e.

(** How a call of a service ends. *)
Inductive Outcome (A : Type) : Type :=
| Returned (a : A)
| Threw (e : JsThrown).
Arguments Returned {A} a.
Arguments Threw {A} e.

(** [NetInfoState], as far as the services read it. *)
Record NetInfoState : Type := mkNetInfoState {
  isConnected : option bool;
  isInternetReachable : option bool
}.

(** JavaScript truthiness of a [boolean | null]. *)
Definition truthy (b : option bool) : bool :=
  match b with Some true => true | _ => false end.

(** A [Response] of [fetch], as far as the services read it. *)
Record HttpResponse : Type := mkHttpResponse {
  resp_ok : bool;
  resp_status : Z;
  resp_statusText : string;
  resp_body : string
}.

(** ** JSON values *)

Section Json.
Context {JN : JsNumber}.

(** A JSON value. The members of an object are in the object's own
    property order. *)
Inductive json : Type :=
| JNull
| JBool (b : bool)
| JNumber (n : number)
| JString (s : string)
| JArray (elements : list json)
| JObject (members : list (string * json)).

(** *** [JSON.stringify] (no replacer, no indentation) *)

Definition dquote : ascii := "034"%char.

Definition hex_digit (n : N) : ascii :=
  if (n <? 10)%N then ascii_of_N (48 + n) else ascii_of_N (87 + n).

(** QuoteJSONString, one code unit at a time. Code units are the 8-bit
    characters of [string]. *)
Definition escape_char (c : ascii) : string :=
  let n := N_of_ascii c in
  if (n =? 8)%N then "\b"
  else if (n =? 9)%N then "\t"
  else if (n =? 10)%N then "\n"
  else if (n =? 12)%N then "\f"
  else if (n =? 13)%N then "\r"
  else if (n =? 34)%N then String "\" (String "034"%char "")
  else if (n =? 92)%N then "\\"
  else if (n <? 32)%N then
    "\u00" ++ String (hex_digit (n / 16)) (String (hex_digit (n mod 16)) "")
  else String c "".

Fixpoint escape_chars (s : string) : string :=
  match s with
  | EmptyString => ""
  | String c r => escape_char c ++ escape_chars r
  end.

Definition quote (s : string) : string :=
  String dquote (escape_chars s ++ String dquote "").

Fixpoint join_comma (parts : list string) : string :=
  match parts with
  | [] => ""
  | [p] => p
  | p :: rest => p ++ "," ++ join_comma rest
  end.

Fixpoint JSON_stringify (v : json) : string :=
  match v with
  | JNull => "null"
  | JBool true => "true"
  | JBool false => "false"
  | JNumber n => number_to_string n
  | JString s => quote s
  | JArray elements =>
      "[" ++ join_comma (map JSON_stringify elements) ++ "]"
  | JObject members =>
      "{" ++ join_comma
               (map (fun kv => quote (fst kv) ++ ":" ++ JSON_stringify (snd kv))
                    members) ++ "}"
  end.

(** *** [JSON.parse] (no reviver) *)

Definition is_ws (c : ascii) : bool :=
  let n := N_of_ascii c in
  ((n =? 32) || (n =? 9) || (n =? 10) || (n =? 13))%N.

Fixpoint skip_ws (s : string) : string :=
  match s with
  | String c r => if is_ws c then skip_ws r else s
  | EmptyString => s
  end.

Definition is_digit (c : ascii) : bool :=
  let n := N_of_ascii c in ((48 <=? n) && (n <=? 57))%N.

(** Characters a JSON number token is made of. *)
Definition is_number_char (c : ascii) : bool :=
  let n := N_of_ascii c in
  (is_digit c || (n =? 45) || (n =? 43) || (n =? 46) || (n =? 101) || (n =? 69))%N.

(** Can start a JSON number token: a minus sign or a digit. *)
Definition is_number_start (c : ascii) : bool :=
  is_digit c || (N_of_ascii c =? 45)%N.

Fixpoint span_number (s : string) : string * string :=
  match s with
  | String c r =>
      if is_number_char c
      then let (tok, rest) := span_number r in (String c tok, rest)
      else ("", s)
  | EmptyString => ("", "")
  end.

Definition hex_value (c : ascii) : option N :=
  let n := N_of_ascii c in
  if ((48 <=? n) && (n <=? 57))%N then Some (n - 48)%N
  else if ((97 <=? n) && (n <=? 102))%N then Some (n - 87)%N
  else if ((65 <=? n) && (n <=? 70))%N then Some (n - 55)%N
  else None.

(** The code unit of a [\uXXXX] escape. Code units above 0xFF have no
    counterpart in the 8-bit strings of the embedding and are rejected. *)
Definition unicode_escape (a b c d : ascii) : option ascii :=
  match hex_value a, hex_value b, hex_value c, hex_value d with
  | Some x, Some y, Some z, Some w =>
      let n := (((x * 16 + y) * 16 + z) * 16 + w)%N in
      if (n <? 256)%N then Some (ascii_of_N n) else None
  | _, _, _, _ => None
  end.

Definition simple_escape (c : ascii) : option ascii :=
  let n := N_of_ascii c in
  if (n =? 34)%N then Some dquote
  else if (n =? 92)%N then Some "\"%char
  else if (n =? 47)%N then Some "/"%char
  else if (n =? 98)%N then Some (ascii_of_N 8)
  else if (n =? 102)%N then Some (ascii_of_N 12)
  else if (n =? 110)%N then Some (ascii_of_N 10)
  else if (n =? 114)%N then Some (ascii_of_N 13)
  else if (n =? 116)%N then Some (ascii_of_N 9)
  else None.

(** The characters of a string literal after its opening quote, up to and
    including the closing quote. *)
Fixpoint parse_string_body (s : string) : option (string * string) :=
  match s with
  | EmptyString => None
  | String c r =>
      if (N_of_ascii c =? 34)%N then Some ("", r)
      else if (N_of_ascii c =? 92)%N then
        match r with
        | String e r1 =>
            if (N_of_ascii e =? 117)%N then
              match r1 with
              | String h1 (String h2 (String h3 (String h4 r2))) =>
                  match unicode_escape h1 h2 h3 h4, parse_string_body r2 with
                  | Some u, Some (str, rest) => Some (String u str, rest)
                  | _, _ => None
                  end
              | _ => None
              end
            else
              match simple_escape e, parse_string_body r1 with
              | Some u, Some (str, rest) => Some (String u str, rest)
              | _, _ => None
              end
        | EmptyString => None
        end
      else if (N_of_ascii c <? 32)%N then None
      else
        match parse_string_body r with
        | Some (str, rest) => Some (String c str, rest)
        | None => None
        end
  end.

(** CreateDataProperty on an object under construction: a repeated key
    overwrites the value in place, a new key is appended. (An engine moves
    integer-like keys to the front; in a text written by [JSON.stringify]
    they are in front already.) *)
Fixpoint obj_set (k : string) (v : json) (m : list (string * json))
  : list (string * json) :=
  match m with
  | [] => [(k, v)]
  | (k', v') :: rest =>
      if String.eqb k k' then (k', v) :: rest else (k', v') :: obj_set k v rest
  end.

(** The elements of an array after the first one has been announced, the
    loop of the grammar's ElementList. [n] bounds the number of elements. *)
Fixpoint parse_elements (pv : string -> option (json * string)) (n : nat)
  (acc : list json) (s : string) : option (list json * string) :=
  match n with
  | O => None
  | S n' =>
      match pv s with
      | Some (v, r) =>
          match skip_ws r with
          | String c r' =>
              if (N_of_ascii c =? 44)%N then parse_elements pv n' (acc ++ [v])%list r'
              else if (N_of_ascii c =? 93)%N then Some ((acc ++ [v])%list, r')
              else None
          | EmptyString => None
          end
      | None => None
      end
  end.

Fixpoint parse_members (pv : string -> option (json * string)) (n : nat)
  (acc : list (string * json)) (s : string)
  : option (list (string * json) * string) :=
  match n with
  | O => None
  | S n' =>
      match skip_ws s with
      | String q r0 =>
          if (N_of_ascii q =? 34)%N then
            match parse_string_body r0 with
            | Some (k, r1) =>
                match skip_ws r1 with
                | String colon r2 =>
                    if (N_of_ascii colon =? 58)%N then
                      match pv r2 with
                      | Some (v, r3) =>
                          match skip_ws r3 with
                          | String c r4 =>
                              if (N_of_ascii c =? 44)%N
                              then parse_members pv n' (obj_set k v acc) r4
                              else if (N_of_ascii c =? 125)%N
                              then Some (obj_set k v acc, r4)
                              else None
                          | EmptyString => None
                          end
                      | None => None
                      end
                    else None
                | EmptyString => None
                end
            | None => None
            end
          else None
      | EmptyString => None
      end
  end.

Fixpoint parse_value (fuel : nat) (s : string) : option (json * string) :=
  match fuel with
  | O => None
  | S fuel' =>
      match skip_ws s with
      | EmptyString => None
      | String c r =>
          let n := N_of_ascii c in
          if (n =? 110)%N then
            match r with
            | String "u" (String "l" (String "l" r')) => Some (JNull, r')
            | _ => None
            end
          else if (n =? 116)%N then
            match r with
            | String "r" (String "u" (String "e" r')) => Some (JBool true, r')
            | _ => None
            end
          else if (n =? 102)%N then
            match r with
            | String "a" (String "l" (String "s" (String "e" r'))) =>
                Some (JBool false, r')
            | _ => None
            end
          else if (n =? 34)%N then
            match parse_string_body r with
            | Some (str, rest) => Some (JString str, rest)
            | None => None
            end
          else if (n =? 91)%N then
            match skip_ws r with
            | String c' r' =>
                if (N_of_ascii c' =? 93)%N then Some (JArray [], r')
                else
                  match parse_elements (parse_value fuel') (String.length r) [] r with
                  | Some (l, rest) => Some (JArray l, rest)
                  | None => None
                  end
            | EmptyString => None
            end
          else if (n =? 123)%N then
            match skip_ws r with
            | String c' r' =>
                if (N_of_ascii c' =? 125)%N then Some (JObject [], r')
                else
                  match parse_members (parse_value fuel') (String.length r) [] r with
                  | Some (m, rest) => Some (JObject m, rest)
                  | None => None
                  end
            | EmptyString => None
            end
          else if is_number_start c then
            let (tok, rest) := span_number (String c r) in
            match number_of_string tok with
            | Some x => Some (JNumber x, rest)
            | None => None
            end
          else None
      end
  end.

(** [JSON.parse text]: one value, surrounded by optional white space.
    [None] stands for the SyntaxError the built-in throws. *)
Definition JSON_parse (text : string) : option json :=
  match parse_value (S (String.length text)) text with
  | Some (v, rest) =>
      match skip_ws rest with
      | EmptyString => Some v
      | String _ _ => None
      end
  | None => None
  end.

End Json.

(** ** The persistent store ([src/db/schema.ts]) *)

Section Model.
Context {JN : JsNumber}.

(** [interface UserResponse], also the shape of a [user_responses] row. *)
Record UserResponse : Type := mkUserResponse {
  ur_id : string;
  ur_alertId : string;
  ur_userId : string;
  ur_response : UserResponseType.t;
  ur_latitude : option number;
  ur_longitude : option number;
  ur_locationAccuracy : option number;
  ur_respondedAt : string;
  ur_syncedAt : option string
}.

(** [interface CallLog], also the shape of a [call_logs] row. *)
Record CallLog : Type := mkCallLog {
  cl_id : string;
  cl_alertId : option string;
  cl_userId : string;
  cl_hotlineNumber : string;
  cl_startedAt : string;
  cl_endedAt : option string;
  cl_durationSeconds : option Z;
  cl_recordingUrl : option string;
  cl_status : CallStatus.t;
  cl_syncedAt : option string
}.

(** A [sync_queue] row. [created_at] is [datetime('now')], a text of one
    second resolution whose text order is the order of time: it is kept as
    the number of seconds. *)
Record SyncQueueRow : Type := mkSyncQueueRow {
  sq_id : string;
  sq_type : SyncType.t;
  sq_payload : string;
  sq_created_at : Z;
  sq_status : SyncStatus.t;
  sq_retry_count : Z;
  sq_last_error : option string
}.

(** [interface LocationSnapshot]. *)
Record LocationSnapshot : Type := mkLocationSnapshot {
  ls_latitude : number;
  ls_longitude : number;
  ls_accuracy : number;
  ls_altitude : option number;
  ls_timestamp : string
}.

(** The four tables, each in rowid order. Of [alerts] only the primary key
    is kept: the modelled services reach the table through the foreign keys
    of [user_responses] and [call_logs] alone. *)
Record Db : Type := mkDb {
  alerts : list string;
  user_responses : list UserResponse;
  call_logs : list CallLog;
  sync_queue : list SyncQueueRow
}.

Definition mem_string (x : string) (l : list string) : bool :=
  existsb (String.eqb x) l.

(** *** The statements the services run *)

Inductive Stmt : Type :=
(** INSERT INTO sync_queue (id, type, payload, status) VALUES (?, ?, ?, 'pending') *)
| InsertSyncQueue (id : string) (type : SyncType.t) (payload : string)
(** UPDATE sync_queue SET status = 'syncing' WHERE id = ? *)
| MarkSyncing (id : string)
(** UPDATE sync_queue SET status = 'synced', last_error = NULL WHERE id = ? *)
| MarkSynced (id : string)
(** UPDATE sync_queue SET status = 'failed', retry_count = retry_count + 1,
    last_error = ? WHERE id = ? *)
| MarkFailed (errorMessage : string) (id : string)
(** DELETE FROM sync_queue WHERE status = 'synced' AND id NOT IN (SELECT id
    FROM sync_queue WHERE status = 'synced' ORDER BY created_at DESC LIMIT 100) *)
| DeleteOldSynced
(** INSERT INTO user_responses (...) VALUES (?, ?, ?, ?, ?, ?, ?, ?, ?) *)
| InsertUserResponse (r : UserResponse)
(** INSERT INTO call_logs (...) VALUES (?, ?, ?, ?, ?, ?, ?, ?, ?, ?) *)
| InsertCallLog (c : CallLog)
(** UPDATE call_logs SET status = 'disconnected', ended_at = ?,
    duration_seconds = ? WHERE id = ? *)
| EndCallLog (endedAt : string) (durationSeconds : option Z) (id : string)
(** UPDATE call_logs SET status = ? WHERE id = ? *)
| SetCallStatus (status : CallStatus.t) (id : string)
(** INSERT OR REPLACE INTO alerts (...) VALUES (?, ?, ?, ?, ?, ?, ?, ?, ?, ?, ?) *)
| InsertOrReplaceAlert (id : string).

Definition update_where {A} (p : A -> bool) (f : A -> A) (rows : list A) : list A :=
  map (fun r => if p r then f r else r) rows.

Definition set_sync_status (s : SyncStatus.t) (r : SyncQueueRow) : SyncQueueRow :=
  mkSyncQueueRow (sq_id r) (sq_type r) (sq_payload r) (sq_created_at r)
                 s (sq_retry_count r) (sq_last_error r).

Definition set_synced (r : SyncQueueRow) : SyncQueueRow :=
  mkSyncQueueRow (sq_id r) (sq_type r) (sq_payload r) (sq_created_at r)
                 SyncStatus.synced (sq_retry_count r) None.

Definition set_failed (msg : string) (r : SyncQueueRow) : SyncQueueRow :=
  mkSyncQueueRow (sq_id r) (sq_type r) (sq_payload r) (sq_created_at r)
                 SyncStatus.failed (sq_retry_count r + 1) (Some msg).

Definition set_call_ended (endedAt : string) (d : option Z) (c : CallLog) : CallLog :=
  mkCallLog (cl_id c) (cl_alertId c) (cl_userId c) (cl_hotlineNumber c)
            (cl_startedAt c) (Some endedAt) d (cl_recordingUrl c)
            CallStatus.disconnected (cl_syncedAt c).

Definition set_call_status (s : CallStatus.t) (c : CallLog) : CallLog :=
  mkCallLog (cl_id c) (cl_alertId c) (cl_userId c) (cl_hotlineNumber c)
            (cl_startedAt c) (cl_endedAt c) (cl_durationSeconds c)
            (cl_recordingUrl c) s (cl_syncedAt c).

Definition has_id (id : string) (r : SyncQueueRow) : bool := String.eqb (sq_id r) id.
Definition call_has_id (id : string) (c : CallLog) : bool := String.eqb (cl_id c) id.

Definition is_synced (r : SyncQueueRow) : bool :=
  SyncStatus.eqb (sq_status r) SyncStatus.synced.

(** ORDER BY: a stable insertion sort over the rows in rowid order. SQL
    leaves the order of rows with equal keys open; the properties proved
    below do not depend on how ties fall. *)
Fixpoint insert_by {A} (le : A -> A -> bool) (x : A) (l : list A) : list A :=
  match l with
  | [] => [x]
  | y :: r => if le x y then x :: y :: r else y :: insert_by le x r
  end.

Fixpoint sort_by {A} (le : A -> A -> bool) (l : list A) : list A :=
  match l with
  | [] => []
  | x :: r => insert_by le x (sort_by le r)
  end.

Definition created_asc (a b : SyncQueueRow) : bool :=
  sq_created_at a <=? sq_created_at b.

Definition created_desc (a b : SyncQueueRow) : bool :=
  sq_created_at b <=? sq_created_at a.

(** SELECT id FROM sync_queue WHERE status = 'synced'
    ORDER BY created_at DESC LIMIT 100 *)
Definition newest_synced (q : list SyncQueueRow) : list SyncQueueRow :=
  firstn 100 (sort_by created_desc (filter is_synced q)).

Definition delete_old_synced (q : list SyncQueueRow) : list SyncQueueRow :=
  let keep := map sq_id (newest_synced q) in
  filter (fun r => negb (is_synced r && negb (mem_string (sq_id r) keep))) q.

Definition with_sync_queue (d : Db) (q : list SyncQueueRow) : Db :=
  mkDb (alerts d) (user_responses d) (call_logs d) q.

Definition with_call_logs (d : Db) (c : list CallLog) : Db :=
  mkDb (alerts d) (user_responses d) c (sync_queue d).

Definition with_user_responses (d : Db) (u : list UserResponse) : Db :=
  mkDb (alerts d) u (call_logs d) (sync_queue d).

(** FOREIGN KEY (alert_id) REFERENCES alerts(id), with foreign_keys = ON. *)
Definition alert_exists (d : Db) (alertId : string) : bool :=
  mem_string alertId (alerts d).

(** One statement against the store. [now] is the store's clock in
    seconds, read by the DEFAULT of [created_at]. [None] is a constraint
    failure (PRIMARY KEY, FOREIGN KEY): the statement changes nothing and
    [runAsync] rejects. The CHECK and NOT NULL constraints hold by typing. *)
Definition exec_stmt (now : Z) (s : Stmt) (d : Db) : option Db :=
  match s with
  | InsertSyncQueue id type payload =>
      if mem_string id (map sq_id (sync_queue d)) then None
      else Some (with_sync_queue d
                   (sync_queue d ++
                    [mkSyncQueueRow id type payload now SyncStatus.pending 0 None])%list)
  | MarkSyncing id =>
      Some (with_sync_queue d
              (update_where (has_id id) (set_sync_status SyncStatus.syncing)
                            (sync_queue d)))
  | MarkSynced id =>
      Some (with_sync_queue d (update_where (has_id id) set_synced (sync_queue d)))
  | MarkFailed msg id =>
      Some (with_sync_queue d
              (update_where (has_id id) (set_failed msg) (sync_queue d)))
  | DeleteOldSynced =>
      Some (with_sync_queue d (delete_old_synced (sync_queue d)))
  | InsertUserResponse r =>
      if mem_string (ur_id r) (map ur_id (user_responses d)) then None
      else if negb (alert_exists d (ur_alertId r)) then None
      else Some (with_user_responses d (user_responses d ++ [r])%list)
  | InsertCallLog c =>
      if mem_string (cl_id c) (map cl_id (call_logs d)) then None
      else
        match cl_alertId c with
        | Some a =>
            if alert_exists d a
            then Some (with_call_logs d (call_logs d ++ [c])%list)
            else None
        | None => Some (with_call_logs d (call_logs d ++ [c])%list)
        end
  | EndCallLog endedAt dur id =>
      Some (with_call_logs d
              (update_where (call_has_id id) (set_call_ended endedAt dur)
                            (call_logs d)))
  | SetCallStatus st id =>
      Some (with_call_logs d
              (update_where (call_has_id id) (set_call_status st) (call_logs d)))
  | InsertOrReplaceAlert id =>
      if alert_exists d id then Some d
      else Some (mkDb (alerts d ++ [id])%list (user_responses d) (call_logs d)
                      (sync_queue d))
  end.

(** [interface PendingItem]: the four columns the drain selects. *)
Record PendingItem : Type := mkPendingItem {
  item_id : string;
  item_type : string;
  item_payload : string;
  item_retry_count : Z
}.

Definition is_candidate (maxRetries : Z) (r : SyncQueueRow) : bool :=
  (SyncStatus.eqb (sq_status r) SyncStatus.pending
   || SyncStatus.eqb (sq_status r) SyncStatus.failed)
  && (sq_retry_count r <? maxRetries).

Definition project_item (r : SyncQueueRow) : PendingItem :=
  mkPendingItem (sq_id r) (SyncType.name (sq_type r)) (sq_payload r)
                (sq_retry_count r).

(** SELECT id, type, payload, retry_count FROM sync_queue
    WHERE status IN ('pending', 'failed') AND retry_count < ?
    ORDER BY created_at ASC *)
Definition select_candidates (maxRetries : Z) (q : list SyncQueueRow)
  : list SyncQueueRow :=
  sort_by created_asc (filter (is_candidate maxRetries) q).

Definition select_pending (maxRetries : Z) (d : Db) : list PendingItem :=
  map project_item (select_candidates maxRetries (sync_queue d)).

(** SELECT COUNT( * ) as count FROM sync_queue WHERE status IN ('pending', 'failed') *)
Definition count_pending (d : Db) : Z :=
  Z.of_nat (List.length
    (filter (fun r => SyncStatus.eqb (sq_status r) SyncStatus.pending
                      || SyncStatus.eqb (sq_status r) SyncStatus.failed)
            (sync_queue d))).

(** ** The environment

    Everything the services ask of the platform: the clock, the random
    source, connectivity, HTTP, geolocation, the voice SDK. The environment
    is a script of answers; each external call consumes the next one and
    reads the field that concerns it, so a theorem over all scripts is a
    theorem over all behaviours of the platform. *)

(** expo-location's [LocationObject]. *)
Record LocationObject : Type := mkLocationObject {
  coords_latitude : number;
  coords_longitude : number;
  coords_accuracy : option number;
  coords_altitude : option number;
  loc_timestamp : JsDate
}.

Record Answer : Type := mkAnswer {
  (** [Date.now()], [new Date()], the store's [datetime('now')] *)
  ans_now : JsDate;
  (** [Math.random().toString(36).substring(2, 9)] *)
  ans_random : string;
  (** [NetInfo.fetch()] *)
  ans_net : NetInfoState;
  (** [fetch(url, init)] *)
  ans_http : Settled HttpResponse;
  (** [Location.getCurrentPositionAsync(options)] *)
  ans_position : Settled LocationObject;
  (** [Location.getLastKnownPositionAsync()] *)
  ans_lastKnown : Settled (option LocationObject);
  (** [TwilioVoice.voice().connect(token, options)], then [call.getSid()] *)
  ans_connect : Settled (option string);
  (** [Linking.openURL(url)] *)
  ans_openURL : Settled unit;
  (** whether [TwilioVoice.voice().getActiveCall()] is non-null *)
  ans_activeCall : bool
}.

Record World : Type := mkWorld {
  oracle : nat -> Answer;
  cursor : nat;
  (** the lazily required native modules, [null] when missing *)
  TwilioVoice : bool;
  RNCallKeep : bool
}.

(** Externally visible effects, in the order they happen. *)
Inductive Event : Type :=
| EvSql (s : Stmt)
| EvFetch (url : string) (body : option string)
| EvNetInfo (s : NetInfoState)
| EvStatusChange (status : CallStatus.t) (callId : string)
| EvOpenURL (url : string)
| EvVoiceConnect (to alertId callId : string)
| EvVoiceDisconnect
| EvCallKeepStart (callId number : string)
| EvCallKeepActive (callId : string)
| EvCallKeepEnd (callId : string).

(** The remainder of a call that was made without [await]. *)
Inductive Task : Type :=
(** [processSyncQueue], past its guard *)
| TProcessSyncQueue
(** [updateCallStatus(callId, status)] *)
| TUpdateCallStatus (callId : string) (status : CallStatus.t)
(** [handleCallEnd(callId)], past the reading of the clock *)
| THandleCallEnd (callId : string) (endTime : JsDate) (durationSeconds : option Z).

(** ** The machine state *)

Record St : Type := mkSt {
  db : Db;
  world : World;
  trace : list Event;
  (** OfflineSyncService *)
  isSyncing : bool;
  (** CallService *)
  activeCallId : option string;
  activeCallSid : option string;
  callStartTime : option JsDate;
  eventCallback : bool;
  (** parked remainders, oldest first *)
  detached : list Task
}.

Definition with_db (d : Db) (s : St) : St :=
  mkSt d (world s) (trace s) (isSyncing s) (activeCallId s) (activeCallSid s)
       (callStartTime s) (eventCallback s) (detached s).
Definition with_world (w : World) (s : St) : St :=
  mkSt (db s) w (trace s) (isSyncing s) (activeCallId s) (activeCallSid s)
       (callStartTime s) (eventCallback s) (detached s).
Definition with_trace (t : list Event) (s : St) : St :=
  mkSt (db s) (world s) t (isSyncing s) (activeCallId s) (activeCallSid s)
       (callStartTime s) (eventCallback s) (detached s).
Definition with_isSyncing (b : bool) (s : St) : St :=
  mkSt (db s) (world s) (trace s) b (activeCallId s) (activeCallSid s)
       (callStartTime s) (eventCallback s) (detached s).
Definition with_activeCallId (c : option string) (s : St) : St :=
  mkSt (db s) (world s) (trace s) (isSyncing s) c (activeCallSid s)
       (callStartTime s) (eventCallback s) (detached s).
Definition with_activeCallSid (c : option string) (s : St) : St :=
  mkSt (db s) (world s) (trace s) (isSyncing s) (activeCallId s) c
       (callStartTime s) (eventCallback s) (detached s).
Definition with_callStartTime (t : option JsDate) (s : St) : St :=
  mkSt (db s) (world s) (trace s) (isSyncing s) (activeCallId s) (activeCallSid s)
       t (eventCallback s) (detached s).
Definition with_eventCallback (b : bool) (s : St) : St :=
  mkSt (db s) (world s) (trace s) (isSyncing s) (activeCallId s) (activeCallSid s)
       (callStartTime s) b (detached s).
Definition with_detached (l : list Task) (s : St) : St :=
  mkSt (db s) (world s) (trace s) (isSyncing s) (activeCallId s) (activeCallSid s)
       (callStartTime s) (eventCallback s) l.

(** ** The monad of the services: state and exceptions *)

Definition M (A : Type) : Type := St -> Outcome A * St.

Definition ret {A} (a : A) : M A := fun s => (Returned a, s).

Definition bind {A B} (c : M A) (k : A -> M B) : M B :=
  fun s =>
    match c s with
    | (Returned a, s') => k a s'
    | (Threw e, s') => (Threw e, s')
    end.

Definition throw {A} (e : JsThrown) : M A := fun s => (Threw e, s).

(** [try { c } catch (error) { h error }] *)
Definition try_catch {A} (c : M A) (h : JsThrown -> M A) : M A :=
  fun s =>
    match c s with
    | (Returned a, s') => (Returned a, s')
    | (Threw e, s') => h e s'
    end.

(** [try { c } finally { f }] *)
Definition try_finally {A} (c : M A) (f : M unit) : M A :=
  fun s =>
    match c s with
    | (r, s') =>
        match f s' with
        | (Returned _, s'') => (r, s'')
        | (Threw e, s'') => (Threw e, s'')
        end
    end.

Definition gets {A} (f : St -> A) : M A := fun s => (Returned (f s), s).
Definition modify (f : St -> St) : M unit := fun s => (Returned tt, f s).

Notation "x <- c ;; k" := (bind c (fun x => k))
  (at level 61, c at next level, right associativity).
Notation "c ;;; k" := (bind c (fun _ => k))
  (at level 61, right associativity).

(** The next answer of the environment. *)
Definition ask : M Answer :=
  fun s =>
    let w := world s in
    (Returned (oracle w (cursor w)),
     with_world (mkWorld (oracle w) (S (cursor w)) (TwilioVoice w) (RNCallKeep w)) s).

Definition emit (e : Event) : M unit :=
  modify (fun s => with_trace (trace s ++ [e])%list s).

(** [db.runAsync(sql, params)]: the statement is handed to the store and
    either takes effect or is rejected by a constraint. *)
Definition runAsync (stmt : Stmt) : M unit :=
  now <- match stmt with
         | InsertSyncQueue _ _ _ => a <- ask ;; ret (getTime (ans_now a) / 1000)
         | _ => ret 0
         end ;;
  emit (EvSql stmt) ;;;
  d <- gets db ;;
  match exec_stmt now stmt d with
  | Some d' => modify (with_db d')
  | None => throw (JsError "constraint failed")
  end.

(** [fetch(url, { method: 'POST', headers, body })] *)
Definition fetch (url : string) (body : option string) : M HttpResponse :=
  a <- ask ;;
  emit (EvFetch url body) ;;;
  match ans_http a with
  | Resolved r => ret r
  | Rejected e => throw e
  end.

(** [NetInfo.fetch()] *)
Definition NetInfo_fetch : M NetInfoState :=
  a <- ask ;;
  emit (EvNetInfo (ans_net a)) ;;;
  ret (ans_net a).

(** [JSON.parse(text)], throwing its SyntaxError (an [Error]; the wording
    of its message is the engine's). *)
Definition JSON_parse_throwing (text : string) : M json :=
  match JSON_parse text with
  | Some v => ret v
  | None => throw (JsError "JSON Parse error")
  end.

Definition park (t : Task) : M unit :=
  modify (fun s => with_detached (detached s ++ [t])%list s).

(** ** OfflineSyncService ([src/services/OfflineSyncService.ts]) *)

Definition MAX_RETRIES : Z := 5.
Definition RETRY_BACKOFF_BASE_MS : Z := 2000.

Fixpoint lookup (k : string) (table : list (string * string)) : option string :=
  match table with
  | [] => None
  | (k', v) :: rest => if String.eqb k k' then Some v else lookup k rest
  end.

Definition endpoints : list (string * string) :=
  [("user_response", "/api/responses");
   ("location_update", "/api/locations");
   ("call_log", "/api/calls")].

Definition baseUrl : string := "https://api.yourcompany.com".

Definition sendToBackend (type : string) (payload : json) : M unit :=
  match lookup type endpoints with
  | None | Some EmptyString => throw (JsError ("Unknown sync type: " ++ type))
  | Some endpoint =>
      response <- fetch (baseUrl ++ endpoint) (Some (JSON_stringify payload)) ;;
      if negb (resp_ok response)
      then throw (JsError ("Sync failed: " ++ Z_to_string (resp_status response)
                           ++ " " ++ resp_statusText response))
      else ret tt
  end.

(** [`${prefix}${Date.now()}-${Math.random().toString(36).substring(2, 9)}`]:
    the [generateId] of the three services, which differ in the prefix
    (none, ["resp-"], ["call-"]). *)
Definition generateId (prefix : string) : M string :=
  a <- ask ;;
  b <- ask ;;
  ret (prefix ++ Z_to_string (getTime (ans_now a)) ++ "-" ++ ans_random b).

Definition error_message (error : JsThrown) : string :=
  match error with
  | JsError m => m
  | JsNonError => "Unknown error"
  end.

(** One turn of the [for] loop of [processSyncQueue]: [true] to go on to
    the next item, [false] for [break], with the running count. *)
Definition drain_item (item : PendingItem) (syncedCount : Z) : M (bool * Z) :=
  try_catch
    (runAsync (MarkSyncing (item_id item)) ;;;
     payload <- JSON_parse_throwing (item_payload item) ;;
     sendToBackend (item_type item) payload ;;;
     runAsync (MarkSynced (item_id item)) ;;;
     ret (true, syncedCount + 1))
    (fun error =>
       runAsync (MarkFailed (error_message error) (item_id item)) ;;;
       netState <- NetInfo_fetch ;;
       if negb (truthy (isConnected netState))
       then ret (false, syncedCount)
       else ret (true, syncedCount)).

Fixpoint drain_items (items : list PendingItem) (syncedCount : Z) : M Z :=
  match items with
  | [] => ret syncedCount
  | item :: rest =>
      r <- drain_item item syncedCount ;;
      if fst r then drain_items rest (snd r) else ret (snd r)
  end.

(** [processSyncQueue] from its first [await] on: the [try ... finally]. *)
Definition processSyncQueue_pass : M Z :=
  try_finally
    (pendingItems <- gets (fun s => select_pending MAX_RETRIES (db s)) ;;
     syncedCount <- drain_items pendingItems 0 ;;
     runAsync DeleteOldSynced ;;;
     ret syncedCount)
    (modify (with_isSyncing false)).

(** The synchronous head of [processSyncQueue]: the guard. [true] when
    the caller now holds it. *)
Definition processSyncQueue_enter : M bool :=
  syncing <- gets isSyncing ;;
  if syncing then ret false
  else modify (with_isSyncing true) ;;; ret true.

(** [await this.processSyncQueue()] *)
Definition processSyncQueue : M Z :=
  entered <- processSyncQueue_enter ;;
  if entered then processSyncQueue_pass else ret 0.

(** [this.processSyncQueue()] without [await]: the guard is taken at the
    call, the pass is parked. *)
Definition processSyncQueue_detached : M unit :=
  entered <- processSyncQueue_enter ;;
  if entered then park TProcessSyncQueue else ret tt.

Definition enqueue (type : SyncType.t) (payload : list (string * json)) : M string :=
  id <- generateId "" ;;
  runAsync (InsertSyncQueue id type (JSON_stringify (JObject payload))) ;;;
  netState <- NetInfo_fetch ;;
  (if truthy (isConnected netState) && truthy (isInternetReachable netState)
   then processSyncQueue_detached
   else ret tt) ;;;
  ret id.

Definition getPendingCount : M Z := gets (fun s => count_pending (db s)).

(** The NetInfo listener registered by [initialize]. *)
Definition onNetInfoChange (state : NetInfoState) : M unit :=
  if truthy (isConnected state) && truthy (isInternetReachable state)
  then processSyncQueue_detached
  else ret tt.

(** ** LocationService ([src/services/LocationService.ts]) *)

Definition snapshot_of (location : LocationObject) : LocationSnapshot :=
  mkLocationSnapshot
    (coords_latitude location)
    (coords_longitude location)
    (match coords_accuracy location with
     | Some a => a
     | None => number_of_Z (-1)
     end)
    (coords_altitude location)
    (toISOString (loc_timestamp location)).

Definition captureLocation (timeoutMs : Z) : M (option LocationSnapshot) :=
  try_catch
    (a <- ask ;;
     match ans_position a with
     | Resolved location => ret (Some (snapshot_of location))
     | Rejected e => throw e
     end)
    (fun error =>
       try_catch
         (a <- ask ;;
          match ans_lastKnown a with
          | Resolved (Some lastKnown) => ret (Some (snapshot_of lastKnown))
          | Resolved None => ret None
          | Rejected e => throw e
          end)
         (fun fallbackError => ret None)).

(** ** ResponseService ([src/services/ResponseService.ts]) *)

Definition json_of_string_opt (o : option string) : json :=
  match o with Some s => JString s | None => JNull end.

Definition json_of_number_opt (o : option number) : json :=
  match o with Some n => JNumber n | None => JNull end.

(** The object literal [{ ...response }]. *)
Definition response_payload (r : UserResponse) : list (string * json) :=
  [("id", JString (ur_id r));
   ("alertId", JString (ur_alertId r));
   ("userId", JString (ur_userId r));
   ("response", JString (UserResponseType.name (ur_response r)));
   ("latitude", json_of_number_opt (ur_latitude r));
   ("longitude", json_of_number_opt (ur_longitude r));
   ("locationAccuracy", json_of_number_opt (ur_locationAccuracy r));
   ("respondedAt", JString (ur_respondedAt r));
   ("syncedAt", json_of_string_opt (ur_syncedAt r))].

Definition persistResponse (response : UserResponse) : M unit :=
  runAsync (InsertUserResponse response).

Definition submitResponse (alertId userId : string)
  (responseType : UserResponseType.t) : M UserResponse :=
  location <- try_catch (captureLocation 8000) (fun error => ret None) ;;
  id <- generateId "resp-" ;;
  now <- ask ;;
  let response :=
    mkUserResponse id alertId userId responseType
      (option_map ls_latitude location)
      (option_map ls_longitude location)
      (option_map ls_accuracy location)
      (toISOString (ans_now now))
      None in
  persistResponse response ;;;
  enqueue SyncType.user_response (response_payload response) ;;;
  ret response.

(** ** CallService ([src/services/CallService.ts]) *)

(** Truthiness of a [string | null]. *)
Definition truthy_string (o : option string) : bool :=
  match o with
  | Some EmptyString | None => false
  | Some _ => true
  end.

(** [Math.round(ms / 1000)] for an integral [ms]: to the nearest integer,
    halves upwards. *)
Definition round_seconds (ms : Z) : Z := (ms + 500) / 1000.

Definition persistCallLog (callLog : CallLog) : M unit :=
  runAsync (InsertCallLog callLog).

Definition updateCallStatus (callId : string) (status : CallStatus.t) : M unit :=
  runAsync (SetCallStatus status callId).

(** [data.token] of the parsed body: [undefined] is [None]; reading a
    property of [null] throws. *)
Definition fetchTwilioToken : M (option json) :=
  response <- fetch "https://api.yourcompany.com/voice/token" None ;;
  if negb (resp_ok response)
  then throw (JsError ("Failed to fetch Twilio token: "
                       ++ Z_to_string (resp_status response)))
  else
    data <- JSON_parse_throwing (resp_body response) ;;
    match data with
    | JNull => throw (JsError "Cannot read property 'token' of null")
    | JObject members =>
        ret (option_map snd
               (find (fun kv => String.eqb (fst kv) "token") members))
    | _ => ret None
    end.

(** [handleCallEnd] from its first [await] on. *)
Definition handleCallEnd_rest (callId : string) (endTime : JsDate)
  (durationSeconds : option Z) : M unit :=
  runAsync (EndCallLog (toISOString endTime) durationSeconds callId) ;;;
  enqueue SyncType.call_log
    [("callId", JString callId);
     ("endedAt", JString (toISOString endTime));
     ("durationSeconds",
      match durationSeconds with
      | Some d => JNumber (number_of_Z d)
      | None => JNull
      end)] ;;;
  modify (with_activeCallId None) ;;;
  modify (with_activeCallSid None) ;;;
  modify (with_callStartTime None).

(** The synchronous head of [handleCallEnd]: the clock and the duration. *)
Definition handleCallEnd_head : M (JsDate * option Z) :=
  a <- ask ;;
  let endTime := ans_now a in
  start <- gets callStartTime ;;
  ret (endTime,
       match start with
       | Some t => Some (round_seconds (getTime endTime - getTime t))
       | None => None
       end).

(** [await this.handleCallEnd(callId)] *)
Definition handleCallEnd (callId : string) : M unit :=
  h <- handleCallEnd_head ;;
  handleCallEnd_rest callId (fst h) (snd h).

(** [this.handleCallEnd(callId)] without [await]. *)
Definition handleCallEnd_detached (callId : string) : M unit :=
  h <- handleCallEnd_head ;;
  park (THandleCallEnd callId (fst h) (snd h)).

(** [this.updateCallStatus(callId, status)] without [await]. *)
Definition updateCallStatus_detached (callId : string) (status : CallStatus.t)
  : M unit :=
  park (TUpdateCallStatus callId status).

Definition makeHotlineCall (hotlineNumber : string) (alertId : option string)
  : M string :=
  modify (with_eventCallback true) ;;;
  callId <- generateId "call-" ;;
  modify (with_activeCallId (Some callId)) ;;;
  start <- ask ;;
  modify (with_callStartTime (Some (ans_now start))) ;;;
  persistCallLog
    (mkCallLog callId alertId "" hotlineNumber (toISOString (ans_now start))
               None None None CallStatus.connecting None) ;;;
  emit (EvStatusChange CallStatus.connecting callId) ;;;
  twilio <- gets (fun s => TwilioVoice (world s)) ;;
  if negb twilio then
    a <- ask ;;
    emit (EvOpenURL ("tel:" ++ hotlineNumber)) ;;;
    match ans_openURL a with
    | Resolved _ => ret callId
    | Rejected e => throw e
    end
  else
    try_catch
      (token <- fetchTwilioToken ;;
       a <- ask ;;
       emit (EvVoiceConnect hotlineNumber
               (match alertId with Some x => x | None => "" end) callId) ;;;
       match ans_connect a with
       | Resolved sid => modify (with_activeCallSid sid)
       | Rejected e => throw e
       end)
      (fun error =>
         updateCallStatus_detached callId CallStatus.failed ;;;
         emit (EvStatusChange CallStatus.failed callId)) ;;;
    ret callId.

(** The listeners [makeHotlineCall] registers on the call object. *)
Definition on_connected (callId hotlineNumber : string) : M unit :=
  updateCallStatus_detached callId CallStatus.connected ;;;
  emit (EvStatusChange CallStatus.connected callId) ;;;
  callKeep <- gets (fun s => RNCallKeep (world s)) ;;
  if callKeep
  then emit (EvCallKeepStart callId hotlineNumber) ;;;
       emit (EvCallKeepActive callId)
  else ret tt.

Definition on_disconnected (callId : string) : M unit :=
  handleCallEnd_detached callId ;;;
  emit (EvStatusChange CallStatus.disconnected callId).

Definition on_connectFailure (callId : string) : M unit :=
  updateCallStatus_detached callId CallStatus.failed ;;;
  emit (EvStatusChange CallStatus.failed callId).

Definition endCall : M unit :=
  twilio <- gets (fun s => TwilioVoice (world s)) ;;
  sid <- gets activeCallSid ;;
  (if twilio && truthy_string sid then
     a <- ask ;;
     if ans_activeCall a then emit EvVoiceDisconnect else ret tt
   else ret tt) ;;;
  callKeep <- gets (fun s => RNCallKeep (world s)) ;;
  active <- gets activeCallId ;;
  (match active with
   | Some id =>
       if callKeep && truthy_string active then emit (EvCallKeepEnd id) else ret tt
   | None => ret tt
   end) ;;;
  match active with
  | Some id => if truthy_string active then handleCallEnd_detached id else ret tt
  | None => ret tt
  end.

Definition handleCallKeepEndCall : M unit := endCall.

Definition handleCallCancelled : M unit :=
  active <- gets activeCallId ;;
  callback <- gets eventCallback ;;
  match active with
  | Some id =>
      if truthy_string active && callback
      then emit (EvStatusChange CallStatus.disconnected id)
      else ret tt
  | None => ret tt
  end.

(** ** The parked remainders

    A promise nobody awaits: its rejection reaches no caller. *)

Definition unawaited {A} (c : M A) : M unit :=
  try_catch (c ;;; ret tt) (fun _ => ret tt).

Definition run_task (t : Task) : M unit :=
  match t with
  | TProcessSyncQueue => unawaited processSyncQueue_pass
  | TUpdateCallStatus callId status => unawaited (updateCallStatus callId status)
  | THandleCallEnd callId endTime durationSeconds =>
      unawaited (handleCallEnd_rest callId endTime durationSeconds)
  end.

(** Runs the oldest parked remainder, if there is one. *)
Definition run_next : M unit :=
  tasks <- gets detached ;;
  match tasks with
  | [] => ret tt
  | t :: rest => modify (with_detached rest) ;;; run_task t
  end.

(** Runs parked remainders, oldest first, until none is left. *)
Fixpoint settle (fuel : nat) : M unit :=
  match fuel with
  | O => ret tt
  | S fuel' =>
      tasks <- gets detached ;;
      match tasks with
      | [] => ret tt
      | _ :: _ => run_next ;;; settle fuel'
      end
  end.

(** ** The entry points of the client

    What can happen to the machine: a call of a public method, an event
    of the platform, or the scheduler resuming a parked remainder. An
    error that escapes an entry point reaches its caller's [catch] or
    nobody; either way the machine state stays as the failing call left
    it. *)

Inductive Op : Type :=
| OpEnqueue (type : SyncType.t) (payload : list (string * json))
| OpProcessSyncQueue
| OpGetPendingCount
| OpNetInfoChange (state : NetInfoState)
| OpSubmitResponse (alertId userId : string) (responseType : UserResponseType.t)
| OpPersistAlert (id : string)
| OpMakeHotlineCall (hotlineNumber : string) (alertId : option string)
| OpEndCall
| OpConnected (callId hotlineNumber : string)
| OpDisconnected (callId : string)
| OpConnectFailure (callId : string)
| OpCallCancelled
| OpRunNext.

Definition run_op (o : Op) : M unit :=
  match o with
  | OpEnqueue type payload => unawaited (enqueue type payload)
  | OpProcessSyncQueue => unawaited processSyncQueue
  | OpGetPendingCount => unawaited getPendingCount
  | OpNetInfoChange state => onNetInfoChange state
  | OpSubmitResponse alertId userId responseType =>
      unawaited (submitResponse alertId userId responseType)
  | OpPersistAlert id => unawaited (runAsync (InsertOrReplaceAlert id))
  | OpMakeHotlineCall hotlineNumber alertId =>
      unawaited (makeHotlineCall hotlineNumber alertId)
  | OpEndCall => endCall
  | OpConnected callId hotlineNumber => on_connected callId hotlineNumber
  | OpDisconnected callId => on_disconnected callId
  | OpConnectFailure callId => on_connectFailure callId
  | OpCallCancelled => handleCallCancelled
  | OpRunNext => run_next
  end.

(** The machine at process start: an empty store, idle services. *)
Definition initial (w : World) : St :=
  mkSt (mkDb [] [] [] []) w [] false None None None false [].

Fixpoint run_ops (ops : list Op) (s : St) : St :=
  match ops with
  | [] => s
  | o :: rest => run_ops rest (snd (run_op o s))
  end.

Inductive reachable : St -> Prop :=
| reachable_initial w : reachable (initial w)
| reachable_step s o : reachable s -> reachable (snd (run_op o s)).

(** ** One drain pass as a function of the environment's answers

    What one turn of the loop does to an item, read off the answers it
    consumes. [drain_item_eq] below shows that [drain_item] is this. *)

Inductive Attempt : Type :=
| Delivered (url body : string)
| NotDelivered (request : option (string * string)) (errorMessage : string)
    (netState : NetInfoState).

Definition attempt_row (a : Attempt) : SyncQueueRow -> SyncQueueRow :=
  match a with
  | Delivered _ _ => set_synced
  | NotDelivered _ m _ => set_failed m
  end.

Definition attempt_events (id : string) (a : Attempt) : list Event :=
  EvSql (MarkSyncing id) ::
  match a with
  | Delivered url body => [EvFetch url (Some body); EvSql (MarkSynced id)]
  | NotDelivered request m net =>
      match request with
      | Some (url, body) => [EvFetch url (Some body)]
      | None => []
      end ++ [EvSql (MarkFailed m id); EvNetInfo net]
  end%list.

Definition attempt_continues (a : Attempt) : bool :=
  match a with
  | Delivered _ _ => true
  | NotDelivered _ _ net => truthy (isConnected net)
  end.

Definition attempt_count (a : Attempt) : Z :=
  match a with Delivered _ _ => 1 | NotDelivered _ _ _ => 0 end.

Definition attempt (item : PendingItem) (o : nat -> Answer) (k : nat)
  : Attempt * nat :=
  match JSON_parse (item_payload item) with
  | None => (NotDelivered None "JSON Parse error" (ans_net (o k)), S k)
  | Some v =>
      match lookup (item_type item) endpoints with
      | None | Some EmptyString =>
          (NotDelivered None ("Unknown sync type: " ++ item_type item)
                        (ans_net (o k)), S k)
      | Some endpoint =>
          let url := baseUrl ++ endpoint in
          let body := JSON_stringify v in
          match ans_http (o k) with
          | Resolved response =>
              if resp_ok response then (Delivered url body, S k)
              else (NotDelivered (Some (url, body))
                      ("Sync failed: " ++ Z_to_string (resp_status response)
                       ++ " " ++ resp_statusText response)
                      (ans_net (o (S k))), S (S k))
          | Rejected e =>
              (NotDelivered (Some (url, body)) (error_message e)
                            (ans_net (o (S k))), S (S k))
          end
      end
  end.

(** The attempts of one pass over [items], in order, up to the [break]. *)
Fixpoint attempts (items : list PendingItem) (o : nat -> Answer) (k : nat)
  : list (string * Attempt) * nat :=
  match items with
  | [] => ([], k)
  | item :: rest =>
      let (a, k1) := attempt item o k in
      if attempt_continues a
      then let (l, k2) := attempts rest o k1 in ((item_id item, a) :: l, k2)
      else ([(item_id item, a)], k1)
  end.

Definition apply_attempt (q : list SyncQueueRow) (p : string * Attempt)
  : list SyncQueueRow :=
  update_where (has_id (fst p)) (attempt_row (snd p)) q.

Definition apply_attempts (l : list (string * Attempt)) (q : list SyncQueueRow)
  : list SyncQueueRow :=
  fold_left apply_attempt l q.

Definition attempts_events (l : list (string * Attempt)) : list Event :=
  flat_map (fun p => attempt_events (fst p) (snd p)) l.

Fixpoint count_delivered (l : list (string * Attempt)) : Z :=
  match l with
  | [] => 0
  | p :: rest => attempt_count (snd p) + count_delivered rest
  end.

Definition advance (k : nat) (w : World) : World :=
  mkWorld (oracle w) k (TwilioVoice w) (RNCallKeep w).

(** The machine after the loop has made the attempts [l]. *)
Definition after_attempts (l : list (string * Attempt)) (k : nat) (s : St) : St :=
  mkSt (with_sync_queue (db s) (apply_attempts l (sync_queue (db s))))
       (advance k (world s))
       (trace s ++ attempts_events l)%list
       (isSyncing s) (activeCallId s) (activeCallSid s) (callStartTime s)
       (eventCallback s) (detached s).

(** The machine after a whole pass: the attempts, the prune, the guard
    released. *)
Definition after_pass (l : list (string * Attempt)) (k : nat) (s : St) : St :=
  mkSt (with_sync_queue (db s)
          (delete_old_synced (apply_attempts l (sync_queue (db s)))))
       (advance k (world s))
       (trace s ++ attempts_events l ++ [EvSql DeleteOldSynced])%list
       false (activeCallId s) (activeCallSid s) (callStartTime s)
       (eventCallback s) (detached s).

(** The ids the pass marked [syncing], in order: the items it attempted. *)
Fixpoint attempted (evs : list Event) : list string :=
  match evs with
  | [] => []
  | EvSql (MarkSyncing id) :: rest => id :: attempted rest
  | _ :: rest => attempted rest
  end.

(** [c] maintains the property [P] of the queue, however it ends. *)
Definition keeps (P : list SyncQueueRow -> Prop) {A} (c : M A) : Prop :=
  forall s, P (sync_queue (db s)) -> P (sync_queue (db (snd (c s)))).

(** What the attempts [l] make of one row. *)
Definition row_after (l : list (string * Attempt)) (r : SyncQueueRow)
  : SyncQueueRow :=
  fold_left (fun r p => if has_id (fst p) r then attempt_row (snd p) r else r) l r.

(** Every attempt of [l] ended in a delivery. *)
Definition all_delivered (l : list (string * Attempt)) : Prop :=
  Forall (fun p => exists u b, snd p = Delivered u b) l.

(** The id [generateId prefix] makes of the next two answers. *)
Definition next_id (prefix : string) (w : World) (k : nat) : string :=
  prefix ++ Z_to_string (getTime (ans_now (oracle w k))) ++ "-"
         ++ ans_random (oracle w (S k)).

(** [netState.isConnected && netState.isInternetReachable] *)
Definition online (net : NetInfoState) : bool :=
  truthy (isConnected net) && truthy (isInternetReachable net).

(** The machine after [enqueue] wrote its row: [k] is the position of the
    environment when [enqueue] was called. *)
Definition after_enqueue (type : SyncType.t) (text : string) (k : nat) (s : St)
  : St :=
  let w := world s in
  let id := next_id "" w k in
  let net := ans_net (oracle w (3 + k)) in
  mkSt (with_sync_queue (db s)
          (sync_queue (db s) ++
           [mkSyncQueueRow id type text (getTime (ans_now (oracle w (2 + k))) / 1000)
                           SyncStatus.pending 0 None])%list)
       (advance (4 + k) w)
       (trace s ++ [EvSql (InsertSyncQueue id type text); EvNetInfo net])%list
       (isSyncing s || online net)
       (activeCallId s) (activeCallSid s) (callStartTime s) (eventCallback s)
       (if online net && negb (isSyncing s)
        then (detached s ++ [TProcessSyncQueue])%list
        else detached s).

(** The machine after the store refused [enqueue]'s row. *)
Definition after_refused_enqueue (type : SyncType.t) (text : string) (k : nat)
  (s : St) : St :=
  let w := world s in
  mkSt (db s) (advance (3 + k) w)
       (trace s ++ [EvSql (InsertSyncQueue (next_id "" w k) type text)])%list
       (isSyncing s) (activeCallId s) (activeCallSid s) (callStartTime s)
       (eventCallback s) (detached s).

(** The same environment with another connectivity. *)
Definition with_connectivity (net : nat -> NetInfoState) (s : St) : St :=
  let w := world s in
  with_world
    (mkWorld
       (fun k =>
          let a := oracle w k in
          mkAnswer (ans_now a) (ans_random a) (net k) (ans_http a)
                   (ans_position a) (ans_lastKnown a) (ans_connect a)
                   (ans_openURL a) (ans_activeCall a))
       (cursor w) (TwilioVoice w) (RNCallKeep w))
    s.

(** Location capture fails entirely at position [k] of the environment:
    the high-accuracy attempt rejects, and the last-known lookup rejects
    or has nothing. *)
Definition location_fails (w : World) (k : nat) : Prop :=
  (exists e, ans_position (oracle w k) = Rejected e) /\
  ((exists e, ans_lastKnown (oracle w (S k)) = Rejected e) \/
   ans_lastKnown (oracle w (S k)) = Resolved None).

(** The response [submitResponse] builds when it got no location. *)
Definition response_without_location (alertId userId : string)
  (responseType : UserResponseType.t) (w : World) (k : nat) : UserResponse :=
  mkUserResponse (next_id "resp-" w (2 + k)) alertId userId responseType
                 None None None (toISOString (ans_now (oracle w (4 + k)))) None.

(** The machine after [persistResponse] wrote [r]. *)
Definition after_persistResponse (r : UserResponse) (k : nat) (s : St) : St :=
  mkSt (with_user_responses (db s) (user_responses (db s) ++ [r])%list)
       (advance (5 + k) (world s))
       (trace s ++ [EvSql (InsertUserResponse r)])%list
       (isSyncing s) (activeCallId s) (activeCallSid s) (callStartTime s)
       (eventCallback s) (detached s).

(** The machine after the store refused [persistResponse]'s row. *)
Definition after_refused_response (r : UserResponse) (k : nat) (s : St) : St :=
  mkSt (db s) (advance (5 + k) (world s))
       (trace s ++ [EvSql (InsertUserResponse r)])%list
       (isSyncing s) (activeCallId s) (activeCallSid s) (callStartTime s)
       (eventCallback s) (detached s).

(** The completion record [handleCallEnd] enqueues. *)
Definition call_end_payload (callId : string) (endTime : JsDate)
  (durationSeconds : option Z) : list (string * json) :=
  [("callId", JString callId);
   ("endedAt", JString (toISOString endTime));
   ("durationSeconds",
    match durationSeconds with
    | Some d => JNumber (number_of_Z d)
    | None => JNull
    end)].

(** A statement other than the INSERT into [sync_queue], which alone
    reads the clock. *)
Definition reads_no_clock (stmt : Stmt) : Prop :=
  match stmt with InsertSyncQueue _ _ _ => False | _ => True end.

(** What may follow a value without being taken for part of it. *)
Definition delimits (rest : string) : Prop :=
  match rest with
  | EmptyString => True
  | String c _ => is_number_char c = false
  end.

(** The first character of a serialized value: never white space, never
    a closing bracket. *)
Definition value_start (c : ascii) : Prop :=
  is_ws c = false /\ (N_of_ascii c =? 93)%N = false /\ (N_of_ascii c =? 125)%N = false.

Definition member_text (kv : string * json) : string :=
  (quote (fst kv) ++ ":" ++ JSON_stringify (snd kv))%string.

(** The store's invariant on [sync_queue]: the primary key, and the
    bound on [retry_count]. *)
Definition queue_ok (q : list SyncQueueRow) : Prop :=
  NoDup (map sq_id q) /\
  Forall (fun r => 0 <= sq_retry_count r <= MAX_RETRIES) q.

Definition exhausted (r : SyncQueueRow) : Prop :=
  sq_retry_count r = MAX_RETRIES /\ sq_status r = SyncStatus.failed.

(** Unique keys in every object: what a JavaScript object is. *)
Fixpoint json_wf (v : json) : Prop :=
  match v with
  | JArray elements =>
      (fix all (l : list json) : Prop :=
         match l with
         | [] => True
         | x :: r => json_wf x /\ all r
         end) elements
  | JObject members =>
      NoDup (map fst members) /\
      (fix all (l : list (string * json)) : Prop :=
         match l with
         | [] => True
         | kv :: r => json_wf (snd kv) /\ all r
         end) members
  | _ => True
  end.

Fixpoint json_depth (v : json) : nat :=
  match v with
  | JArray elements =>
      S ((fix mx (l : list json) : nat :=
            match l with
            | [] => O
            | x :: r => Nat.max (json_depth x) (mx r)
            end) elements)
  | JObject members =>
      S ((fix mx (l : list (string * json)) : nat :=
            match l with
            | [] => O
            | kv :: r => Nat.max (json_depth (snd kv)) (mx r)
            end) members)
  | _ => 1%nat
  end.

End Model.

Notation "x <- c ;; k" := (bind c (fun x => k))
  (at level 61, c at next level, right associativity).
Notation "c ;;; k" := (bind c (fun _ => k))
  (at level 61, right associativity).

(** What is asked of the number type for payloads to survive the queue:
    a printed number reads back as itself, and looks like a JSON number
    token. Both hold of [Number::toString] on finite doubles. *)
Class JsNumberLaws (JN : JsNumber) : Prop := {
  number_roundtrip :
    forall n : number, number_of_string (number_to_string n) = Some n;
  number_token :
    forall n : number,
      exists c r, number_to_string n = String c r /\
                  is_number_start c = true /\
                  fst (span_number (String c r)) = String c r
}.

(** ** Scenarios

    Concrete environments and machine states, over the integers as
    numbers, on which the properties below are exercised. *)

Section Scenarios.
#[local] Existing Instance Z_JsNumber.

Definition offline : NetInfoState := mkNetInfoState (Some false) (Some false).
Definition connected_online : NetInfoState := mkNetInfoState (Some true) (Some true).

Definition http_ok : Settled HttpResponse :=
  Resolved (mkHttpResponse true 200 "OK" "{}").
Definition http_unavailable : Settled HttpResponse :=
  Resolved (mkHttpResponse false 503 "Service Unavailable" "").
Definition http_unreachable : Settled HttpResponse :=
  Rejected (JsError "Network request failed").

(** An environment whose clock advances by a second per question, that
    has no position to give, and answers connectivity and HTTP as told. *)
Definition script (net : NetInfoState) (http : Settled HttpResponse) (k : nat)
  : Answer :=
  mkAnswer (mkDate (1700000000000 + 1000 * Z.of_nat k)
                   ("2023-11-14T22:13:20Z+" ++ Z_to_string (Z.of_nat k)))
           "k3f9a2b" net http
           (Rejected (JsError "Location request timed out"))
           (Resolved None)
           (Resolved (Some "CA0123"))
           (Resolved tt)
           true.

Definition world_of (net : NetInfoState) (http : Settled HttpResponse) : World :=
  mkWorld (script net http) 0 true true.

Definition state_of (d : Db) (w : World) : St :=
  mkSt d w [] false None None None false [].

Definition pending_row (i : nat) : SyncQueueRow :=
  mkSyncQueueRow ("q" ++ Z_to_string (Z.of_nat i)) SyncType.call_log "{}"
                 (Z.of_nat i) SyncStatus.pending 0 None.

Definition pending_rows (n : nat) : list SyncQueueRow :=
  map pending_row (seq 1 n).

(** Three items created at times 1 < 2 < 3, the backend unreachable and
    the device offline. *)
Definition three_pending_offline : St :=
  state_of (mkDb [] [] [] (pending_rows 3)) (world_of offline http_unreachable).

(** 101 pending items, the backend accepting everything. *)
Definition hundred_and_one_pending : St :=
  state_of (mkDb [] [] [] (pending_rows 101)) (world_of connected_online http_ok).

Definition three_pending_online : St :=
  state_of (mkDb [] [] [] (pending_rows 3)) (world_of connected_online http_ok).

(** A drain in flight over three pending items. *)
Definition drain_in_flight : St :=
  mkSt (mkDb [] [] [] (pending_rows 3)) (world_of connected_online http_ok) []
       true None None None false [TProcessSyncQueue].

(** One stored alert, nothing else. *)
Definition one_alert (net : NetInfoState) : St :=
  state_of (mkDb ["A1"] [] [] []) (world_of net http_ok).

(** No stored alert at all. *)
Definition no_alert : St :=
  state_of (mkDb [] [] [] []) (world_of offline http_ok).

(** A call placed, connected and ended by the backend's "disconnected"
    event, every parked remainder run. *)
Definition call_ended_once : St :=
  snd ((callId <- makeHotlineCall "+15550100" None ;;
        on_connected callId "+15550100" ;;;
        settle 4 ;;;
        on_disconnected callId ;;;
        settle 4) (one_alert offline)).

Definition the_call : string := "call-1700000000000-k3f9a2b".

(** The same call after a second "disconnected" event. *)
Definition call_ended_twice : St :=
  snd ((on_disconnected the_call ;;; settle 4) call_ended_once).

(** A connected call the user hangs up: [endCall] asks the transport to
    disconnect, the transport answers with its "disconnected" event, and
    the parked remainders run. *)
Definition call_hung_up : St :=
  snd ((callId <- makeHotlineCall "+15550100" None ;;
        on_connected callId "+15550100" ;;;
        settle 4 ;;;
        endCall ;;;
        on_disconnected callId ;;;
        settle 4) (one_alert offline)).

(** A response submitted offline, then connectivity regained and the
    pass it triggers run. *)
Definition response_synced_later : St :=
  run_ops [OpSubmitResponse "A1" "u1" UserResponseType.safe;
           OpNetInfoChange connected_online;
           OpRunNext]
          (one_alert offline).

(** A call placed and still connecting. *)
Definition call_connecting : St :=
  snd (makeHotlineCall "+15550100" None (one_alert offline)).

(** One item whose delivery always fails, and five drain passes: the
    one [enqueue] triggers, run by the scheduler, and four more. *)
Definition five_failed_passes : St :=
  run_ops [OpEnqueue SyncType.call_log [("callId", JString "c1")];
           OpRunNext;
           OpProcessSyncQueue; OpProcessSyncQueue; OpProcessSyncQueue;
           OpProcessSyncQueue]
          (initial (world_of connected_online http_unavailable)).

Definition sample_payload : list (string * json) :=
  [("alertId", JString "A1");
   ("response", JString "safe");
   ("note", JString (String "010"%char "a\b"));
   ("coords", JArray [JNumber 52; JNumber (-13); JNull]);
   ("meta", JObject [("ok", JBool true); ("tags", JArray [])])].

Fixpoint nodupb (l : list string) : bool :=
  match l with
  | [] => true
  | x :: r => negb (mem_string x r) && nodupb r
  end.

End Scenarios.

(** ** Statements of the specification that the code does not meet

    Kept as they are stated, to be confronted with the code below. *)

Section AsStated.
Context {JN : JsNumber}.

(** "After a successful drain of N pending items with no failures,
    getPendingCount() returns 0 and exactly N items have status synced." *)
Definition drain_leaves_exactly_N_synced (N : nat) (s : St) : Prop :=
  isSyncing s = false ->
  NoDup (map sq_id (sync_queue (db s))) ->
  List.length (sync_queue (db s)) = N ->
  (forall r, In r (sync_queue (db s)) ->
     sq_status r = SyncStatus.pending /\ sq_retry_count r < MAX_RETRIES /\
     JSON_parse (sq_payload r) <> None) ->
  (forall k, exists resp,
     ans_http (oracle (world s) k) = Resolved resp /\ resp_ok resp = true) ->
  fst (processSyncQueue s) = Returned (Z.of_nat N) /\
  fst (getPendingCount (snd (processSyncQueue s))) = Returned 0 /\
  List.length (filter is_synced (sync_queue (db (snd (processSyncQueue s))))) = N.

(** "submitResponse with location capture failing entirely still produces
    a persisted response with latitude=null, longitude=null and enqueues a
    user_response item", for every alert id, user id and response type. *)
Definition submit_always_persists (alertId userId : string)
  (ty : UserResponseType.t) (s : St) : Prop :=
  location_fails (world s) (cursor (world s)) ->
  let s' := snd (submitResponse alertId userId ty s) in
  exists r,
    fst (submitResponse alertId userId ty s) = Returned r /\
    ur_latitude r = None /\ ur_longitude r = None /\
    In r (user_responses (db s')) /\
    exists row, In row (sync_queue (db s')) /\
                sq_type row = SyncType.user_response.

(** "a redundant disconnected event after the state is already
    disconnected is a no-op": it changes no [call_logs] row and enqueues
    no further item. *)
Definition redundant_disconnect_is_noop (callId : string) (s : St) : Prop :=
  (forall c, In c (call_logs (db s)) -> cl_id c = callId ->
             cl_status c = CallStatus.disconnected) ->
  let s' := snd ((on_disconnected callId ;;; settle 4) s) in
  call_logs (db s') = call_logs (db s) /\
  sync_queue (db s') = sync_queue (db s).

End AsStated.

(** * The rest of the client

    The entry points of the services that the sections above leave aside
    (the background task of the sync engine, the reads of the response
    service), the application store, and the handlers of the screens and
    hooks that call the services. *)

Module BackgroundFetchResult.
Inductive t : Type := NoData | NewData | Failed.
End BackgroundFetchResult.

Module AlertSeverity.
Inductive t : Type := critical | warning | info.
End AlertSeverity.

Module AlertStatus.
Inductive t : Type := active | resolved | expired.
End AlertStatus.

(** A JavaScript object used as a map from strings, its properties in
    their own order: [record_get k o] is [o[k]], [record_set k v o] is
    [{ ...o, [k]: v }]. *)
Fixpoint record_get {V} (k : string) (o : list (string * V)) : option V :=
  match o with
  | [] => None
  | (k', v) :: rest => if String.eqb k' k then Some v else record_get k rest
  end.

Fixpoint record_set {V} (k : string) (v : V) (o : list (string * V))
  : list (string * V) :=
  match o with
  | [] => [(k, v)]
  | (k', v') :: rest =>
      if String.eqb k' k then (k', v) :: rest else (k', v') :: record_set k v rest
  end.

(** A text without the separator of generated identifiers. *)
Fixpoint no_dash (s : string) : Prop :=
  match s with
  | EmptyString => True
  | String c r => c <> "-"%char /\ no_dash r
  end.

Section Client.
Context {JN : JsNumber}.

(** ** OfflineSyncService, continued *)

(** The task [initialize] defines under [SYNC_TASK_NAME]; the listener it
    registers with NetInfo is [onNetInfoChange]. *)
Definition backgroundSyncTask : M BackgroundFetchResult.t :=
  try_catch
    (synced <- processSyncQueue ;;
     ret (if synced >? 0
          then BackgroundFetchResult.NewData
          else BackgroundFetchResult.NoData))
    (fun _ => ret BackgroundFetchResult.Failed).

(** WHERE status IN ('pending', 'failed'): what [getPendingCount] counts. *)
Definition is_pending (r : SyncQueueRow) : bool :=
  SyncStatus.eqb (sq_status r) SyncStatus.pending
  || SyncStatus.eqb (sq_status r) SyncStatus.failed.

(** A parked drain pass. *)
Definition is_pass (t : Task) : bool :=
  match t with TProcessSyncQueue => true | _ => false end.

Definition parked_passes (s : St) : nat :=
  List.length (filter is_pass (detached s)).

(** The guard is held exactly while one pass is parked. *)
Definition guard_ok (s : St) : Prop :=
  parked_passes s = if isSyncing s then 1%nat else 0%nat.

(** How many resumptions a parked remainder can take: the end of a call
    may park a pass, the others park nothing. *)
Definition task_weight (t : Task) : nat :=
  match t with THandleCallEnd _ _ _ => 2%nat | _ => 1%nat end.

Definition parked_work (s : St) : nat :=
  list_sum (map task_weight (detached s)).

(** [c] leaves the guard and the parked remainders alone. *)
Definition frames {A} (c : M A) : Prop :=
  forall s, isSyncing (snd (c s)) = isSyncing s /\
            detached (snd (c s)) = detached s.

(** [c] maintains [guard_ok], however it ends. *)
Definition guards {A} (c : M A) : Prop :=
  forall s, guard_ok s -> guard_ok (snd (c s)).

(** ** LocationService, continued *)

(** What [captureLocation] returns, read off the answers from position
    [k] on, and the position it leaves the environment at. *)
Definition captured (o : nat -> Answer) (k : nat)
  : option LocationSnapshot * nat :=
  match ans_position (o k) with
  | Resolved location => (Some (snapshot_of location), S k)
  | Rejected _ =>
      (match ans_lastKnown (o (S k)) with
       | Resolved (Some lastKnown) => Some (snapshot_of lastKnown)
       | _ => None
       end, S (S k))
  end.

(** ** ResponseService, continued *)

(** [{ id: row.id, alertId: row.alert_id, userId: row.user_id, ... }] *)
Definition response_of_row (row : UserResponse) : UserResponse :=
  mkUserResponse (ur_id row) (ur_alertId row) (ur_userId row) (ur_response row)
                 (ur_latitude row) (ur_longitude row) (ur_locationAccuracy row)
                 (ur_respondedAt row) (ur_syncedAt row).

(** ORDER BY responded_at DESC: the column is TEXT, ordered byte by byte. *)
Definition responded_desc (a b : UserResponse) : bool :=
  String.leb (ur_respondedAt b) (ur_respondedAt a).

Definition for_alert_and_user (alertId userId : string) (r : UserResponse) : bool :=
  String.eqb (ur_alertId r) alertId && String.eqb (ur_userId r) userId.

Definition for_user (userId : string) (r : UserResponse) : bool :=
  String.eqb (ur_userId r) userId.

(** SELECT * FROM user_responses WHERE alert_id = ? AND user_id = ?
    ORDER BY responded_at DESC LIMIT 1 *)
Definition select_response_for_alert (alertId userId : string) (d : Db)
  : option UserResponse :=
  hd_error (sort_by responded_desc
              (filter (for_alert_and_user alertId userId) (user_responses d))).

Definition getResponseForAlert (alertId userId : string)
  : M (option UserResponse) :=
  row <- gets (fun s => select_response_for_alert alertId userId (db s)) ;;
  match row with
  | None => ret None
  | Some row => ret (Some (response_of_row row))
  end.

(** SELECT * FROM user_responses WHERE user_id = ? ORDER BY responded_at DESC *)
Definition select_user_responses (userId : string) (d : Db) : list UserResponse :=
  sort_by responded_desc (filter (for_user userId) (user_responses d)).

Definition getUserResponses (userId : string) : M (list UserResponse) :=
  rows <- gets (fun s => select_user_responses userId (db s)) ;;
  ret (map response_of_row rows).

(** The response [submitResponse] builds from the answers at position [k]
    on: the capture takes one or two of them, the id two, the clock one. *)
Definition response_built (alertId userId : string)
  (responseType : UserResponseType.t) (w : World) (k : nat) : UserResponse :=
  let (location, k1) := captured (oracle w) k in
  mkUserResponse (next_id "resp-" w k1) alertId userId responseType
                 (option_map ls_latitude location)
                 (option_map ls_longitude location)
                 (option_map ls_accuracy location)
                 (toISOString (ans_now (oracle w (2 + k1)))) None.

(** ** The application store ([src/store/useAppStore.ts]) *)

(** [interface User], [interface AuthState]. *)
Record User : Type := mkUser {
  user_id : string;
  user_email : string;
  user_name : string;
  user_phone : string;
  user_organizationId : string;
  user_pushToken : option string
}.

Record AuthState : Type := mkAuthState {
  auth_user : option User;
  auth_accessToken : option string;
  auth_refreshToken : option string;
  auth_isAuthenticated : bool
}.

(** [Partial<AuthState>]: for each property, its value when it is there. *)
Record AuthPatch : Type := mkAuthPatch {
  patch_user : option (option User);
  patch_accessToken : option (option string);
  patch_refreshToken : option (option string);
  patch_isAuthenticated : option bool
}.

(** [interface NetworkState]. *)
Record NetworkState : Type := mkNetworkState {
  net_isConnected : bool;
  net_isInternetReachable : option bool;
  net_type : option string
}.

(** [interface Alert]. *)
Record Alert : Type := mkAlert {
  al_id : string;
  al_title : string;
  al_body : string;
  al_severity : AlertSeverity.t;
  al_status : AlertStatus.t;
  al_category : string;
  al_issuedAt : string;
  al_expiresAt : option string;
  al_requiresResponse : bool;
  al_responseOptions : list UserResponseType.t;
  al_metadata : option (list (string * json))
}.

(** The data of [interface AppState]. [responses] is keyed by alert id. *)
Record AppState : Type := mkAppState {
  app_auth : AuthState;
  app_alerts : list Alert;
  app_activeAlert : option Alert;
  app_responses : list (string * UserResponse);
  app_activeCallId : option string;
  app_callStatus : option CallStatus.t;
  app_network : NetworkState;
  app_pendingSyncCount : Z
}.

Definition initialAuthState : AuthState := mkAuthState None None None false.

Definition initialAppState : AppState :=
  mkAppState initialAuthState [] None [] None None
             (mkNetworkState true None None) 0.

Definition with_al_status (status : AlertStatus.t) (a : Alert) : Alert :=
  mkAlert (al_id a) (al_title a) (al_body a) (al_severity a) status
          (al_category a) (al_issuedAt a) (al_expiresAt a)
          (al_requiresResponse a) (al_responseOptions a) (al_metadata a).

Definition with_app_auth (auth : AuthState) (st : AppState) : AppState :=
  mkAppState auth (app_alerts st) (app_activeAlert st) (app_responses st)
             (app_activeCallId st) (app_callStatus st) (app_network st)
             (app_pendingSyncCount st).

Definition with_app_alerts (alerts : list Alert) (st : AppState) : AppState :=
  mkAppState (app_auth st) alerts (app_activeAlert st) (app_responses st)
             (app_activeCallId st) (app_callStatus st) (app_network st)
             (app_pendingSyncCount st).

Definition with_app_responses (responses : list (string * UserResponse))
  (st : AppState) : AppState :=
  mkAppState (app_auth st) (app_alerts st) (app_activeAlert st) responses
             (app_activeCallId st) (app_callStatus st) (app_network st)
             (app_pendingSyncCount st).

(** [{ ...state.auth, ...auth }] *)
Definition merge_auth (a : AuthState) (p : AuthPatch) : AuthState :=
  mkAuthState
    (match patch_user p with Some v => v | None => auth_user a end)
    (match patch_accessToken p with Some v => v | None => auth_accessToken a end)
    (match patch_refreshToken p with Some v => v | None => auth_refreshToken a end)
    (match patch_isAuthenticated p with
     | Some v => v
     | None => auth_isAuthenticated a
     end).

Definition setAuth (auth : AuthPatch) (st : AppState) : AppState :=
  with_app_auth (merge_auth (app_auth st) auth) st.

Definition clearAuth (st : AppState) : AppState :=
  with_app_auth initialAuthState st.

Definition setAlerts (alerts : list Alert) (st : AppState) : AppState :=
  with_app_alerts alerts st.

Definition addAlert (alert : Alert) (st : AppState) : AppState :=
  let exists_ :=
    existsb (fun a => String.eqb (al_id a) (al_id alert)) (app_alerts st) in
  if exists_ then st else with_app_alerts (alert :: app_alerts st) st.

Definition setActiveAlert (alert : option Alert) (st : AppState) : AppState :=
  mkAppState (app_auth st) (app_alerts st) alert (app_responses st)
             (app_activeCallId st) (app_callStatus st) (app_network st)
             (app_pendingSyncCount st).

Definition updateAlertStatus (alertId : string) (status : AlertStatus.t)
  (st : AppState) : AppState :=
  with_app_alerts
    (map (fun a => if String.eqb (al_id a) alertId then with_al_status status a
                   else a)
         (app_alerts st))
    st.

Definition setResponse (alertId : string) (response : UserResponse)
  (st : AppState) : AppState :=
  with_app_responses (record_set alertId response (app_responses st)) st.

Definition setCallState (callId : option string) (status : option CallStatus.t)
  (st : AppState) : AppState :=
  mkAppState (app_auth st) (app_alerts st) (app_activeAlert st) (app_responses st)
             callId status (app_network st) (app_pendingSyncCount st).

Definition setNetwork (network : NetworkState) (st : AppState) : AppState :=
  mkAppState (app_auth st) (app_alerts st) (app_activeAlert st) (app_responses st)
             (app_activeCallId st) (app_callStatus st) network
             (app_pendingSyncCount st).

Definition setPendingSyncCount (count : Z) (st : AppState) : AppState :=
  mkAppState (app_auth st) (app_alerts st) (app_activeAlert st) (app_responses st)
             (app_activeCallId st) (app_callStatus st) (app_network st) count.

(** ** Notifications ([src/services/NotificationService.ts]) *)

(** The [data] of a push notification, its properties with the types the
    casts of [parseAlertFromNotification] take them to have; [None] is a
    property that is missing or [null]. *)
Record NotificationData : Type := mkNotificationData {
  data_id : option string;
  data_severity : option AlertSeverity.t;
  data_category : option string;
  data_issuedAt : option string;
  data_expiresAt : option string;
  data_requiresResponse : option bool;
  data_responseOptions : option (list UserResponseType.t);
  data_metadata : option (list (string * json))
}.

(** [notification.request.content]. *)
Record Notification : Type := mkNotification {
  content_title : option string;
  content_body : option string;
  content_data : option NotificationData
}.

Definition parseAlertFromNotification (notification : Notification)
  : M (option Alert) :=
  match content_data notification with
  | None => ret None
  | Some data =>
      match data_id data with
      | None => ret None
      | Some id =>
          if negb (truthy_string (Some id)) then ret None
          else
            issuedAt <- match data_issuedAt data with
                        | Some t => ret t
                        | None => a <- ask ;; ret (toISOString (ans_now a))
                        end ;;
            ret (Some
              (mkAlert id
                 (match content_title notification with
                  | Some t => t
                  | None => "Emergency Alert"
                  end)
                 (match content_body notification with
                  | Some b => b
                  | None => ""
                  end)
                 (match data_severity data with
                  | Some v => v
                  | None => AlertSeverity.warning
                  end)
                 AlertStatus.active
                 (match data_category data with
                  | Some v => v
                  | None => "general"
                  end)
                 issuedAt
                 (data_expiresAt data)
                 (match data_requiresResponse data with
                  | Some b => b
                  | None => false
                  end)
                 (match data_responseOptions data with
                  | Some v => v
                  | None => [UserResponseType.safe; UserResponseType.need_assistance]
                  end)
                 (data_metadata data)))
      end
  end.

(** INSERT OR REPLACE INTO alerts: of the row, the store keeps the key. *)
Definition persistAlert (alert : Alert) : M unit :=
  runAsync (InsertOrReplaceAlert (al_id alert)).

(** ** The alerts table in full

    [persistAlert] writes all the columns of an alert and
    [loadCachedAlerts] ([src/hooks/useAlerts.ts]) reads them back. [Db]
    keeps the key of an alert only, so the two are given here over the
    table itself, passed in and out. *)

(** A row of [alerts]. The CHECKs of [severity] and [status] hold by
    typing; [created_at] is kept as the number of seconds. *)
Record AlertRow : Type := mkAlertRow {
  row_id : string;
  row_title : string;
  row_body : string;
  row_severity : AlertSeverity.t;
  row_status : AlertStatus.t;
  row_category : string;
  row_issued_at : string;
  row_expires_at : option string;
  row_requires_response : Z;
  row_response_options : option string;
  row_metadata : option string;
  row_created_at : Z
}.

(** An array of response types as a JavaScript value. *)
Definition json_of_response_options (l : list UserResponseType.t) : json :=
  JArray (map (fun r => JString (UserResponseType.name r)) l).

(** The parameters of [persistAlert]'s INSERT, with the DEFAULT of
    [created_at]. *)
Definition alert_row (alert : Alert) (now : Z) : AlertRow :=
  mkAlertRow (al_id alert) (al_title alert) (al_body alert) (al_severity alert)
             (al_status alert) (al_category alert) (al_issuedAt alert)
             (al_expiresAt alert)
             (if al_requiresResponse alert then 1 else 0)
             (Some (JSON_stringify
                      (json_of_response_options (al_responseOptions alert))))
             (match al_metadata alert with
              | Some m => Some (JSON_stringify (JObject m))
              | None => None
              end)
             now.

(** INSERT OR REPLACE INTO alerts: a row with the same key is deleted and
    the new row added. *)
Definition insert_or_replace_alert (row : AlertRow) (t : list AlertRow)
  : list AlertRow :=
  (filter (fun r => negb (String.eqb (row_id r) (row_id row))) t ++ [row])%list.

(** The table after [persistAlert(alert)], the store's clock reading [now]. *)
Definition alerts_after_persistAlert (alert : Alert) (now : Z)
  (t : list AlertRow) : list AlertRow :=
  insert_or_replace_alert (alert_row alert now) t.

(** An [Alert] as [loadCachedAlerts] builds it: [responseOptions] and
    [metadata] are whatever [JSON.parse] returned. *)
Record LoadedAlert : Type := mkLoadedAlert {
  la_id : string;
  la_title : string;
  la_body : string;
  la_severity : AlertSeverity.t;
  la_status : AlertStatus.t;
  la_category : string;
  la_issuedAt : string;
  la_expiresAt : option string;
  la_requiresResponse : bool;
  la_responseOptions : json;
  la_metadata : option json
}.

(** ORDER BY issued_at DESC: the column is TEXT, ordered byte by byte. *)
Definition issued_desc (a b : AlertRow) : bool :=
  String.leb (row_issued_at b) (row_issued_at a).

(** SELECT * FROM alerts ORDER BY issued_at DESC LIMIT 50 *)
Definition select_cached_alerts (t : list AlertRow) : list AlertRow :=
  firstn 50 (sort_by issued_desc t).

(** [JSON.parse(text)] as an outcome. *)
Definition JSON_parse_outcome (text : string) : Outcome json :=
  match JSON_parse text with
  | Some v => Returned v
  | None => Threw (JsError "JSON Parse error")
  end.

(** The function [loadCachedAlerts] maps over the rows. *)
Definition alert_of_row (row : AlertRow) : Outcome LoadedAlert :=
  match (match row_response_options row with
         | Some text =>
             if truthy_string (Some text) then JSON_parse_outcome text
             else Returned (JArray [JString "safe"; JString "need_assistance"])
         | None => Returned (JArray [JString "safe"; JString "need_assistance"])
         end) with
  | Threw e => Threw e
  | Returned responseOptions =>
      match (match row_metadata row with
             | Some text =>
                 if truthy_string (Some text)
                 then match JSON_parse_outcome text with
                      | Returned v => Returned (Some v)
                      | Threw e => Threw e
                      end
                 else Returned None
             | None => Returned None
             end) with
      | Threw e => Threw e
      | Returned metadata =>
          Returned
            (mkLoadedAlert (row_id row) (row_title row) (row_body row)
                           (row_severity row) (row_status row) (row_category row)
                           (row_issued_at row) (row_expires_at row)
                           (row_requires_response row =? 1)
                           responseOptions metadata)
      end
  end.

(** [rows.map(f)] for an [f] that may throw. *)
Fixpoint map_outcome {A B} (f : A -> Outcome B) (rows : list A)
  : Outcome (list B) :=
  match rows with
  | [] => Returned []
  | row :: rest =>
      match f row with
      | Threw e => Threw e
      | Returned b =>
          match map_outcome f rest with
          | Threw e => Threw e
          | Returned bs => Returned (b :: bs)
          end
      end
  end.

Definition loadCachedAlerts (t : list AlertRow) : Outcome (list LoadedAlert) :=
  map_outcome alert_of_row (select_cached_alerts t).

(** An alert as the value [loadCachedAlerts] makes of its row. *)
Definition loaded_of_alert (alert : Alert) : LoadedAlert :=
  mkLoadedAlert (al_id alert) (al_title alert) (al_body alert) (al_severity alert)
                (al_status alert) (al_category alert) (al_issuedAt alert)
                (al_expiresAt alert) (al_requiresResponse alert)
                (json_of_response_options (al_responseOptions alert))
                (option_map JObject (al_metadata alert)).

(** The metadata of an alert is an object with distinct keys throughout. *)
Definition alert_wf (alert : Alert) : Prop :=
  match al_metadata alert with
  | Some m => json_wf (JObject m)
  | None => True
  end.

(** Every row of the table was written by [persistAlert]. *)
Definition written_by_persistAlert (t : list AlertRow) : Prop :=
  Forall (fun row => exists alert now, alert_wf alert /\ row = alert_row alert now) t.

(** ** The client: the services, the store and the alert screen *)

(** The state of the alert screen ([app/alert/[id].tsx]). *)
Record AlertScreen : Type := mkAlertScreen {
  isSubmitting : bool;
  selectedResponse : option UserResponseType.t
}.

Record Client : Type := mkClient {
  services : St;
  store : AppState;
  alertScreen : AlertScreen
}.

(** The listener [startListening] registers, for a notification received
    and for a notification tapped alike; its [onAlertReceived] is, through
    [useAlerts], the store's [addAlert]. *)
Definition onNotification (notification : Notification) (c : Client) : Client :=
  match (alert <- parseAlertFromNotification notification ;;
         match alert with
         | Some alert => persistAlert alert ;;; ret (Some alert)
         | None => ret None
         end) (services c) with
  | (Returned (Some alert), s') =>
      mkClient s' (addAlert alert (store c)) (alertScreen c)
  | (Returned None, s') => mkClient s' (store c) (alertScreen c)
  | (Threw _, s') => mkClient s' (store c) (alertScreen c)
  end.

(** The listener of [useNetworkStatus]. *)
Definition onNetworkStatus (state : NetInfoState) (type : option string)
  (c : Client) : Client :=
  mkClient (services c)
           (setNetwork
              (mkNetworkState
                 (match isConnected state with Some b => b | None => false end)
                 (isInternetReachable state)
                 type)
              (store c))
           (alertScreen c).

(** [handleSubmitResponse] of the alert screen, [id] being the route's
    parameter. *)
Definition handleSubmitResponse (id : option string)
  (responseType : UserResponseType.t) (c : Client) : Client :=
  match id, auth_user (app_auth (store c)) with
  | Some alertId, Some user =>
      if negb (truthy_string id) then c
      else
        match submitResponse alertId (user_id user) responseType (services c) with
        | (Returned response, s') =>
            mkClient s' (setResponse alertId response (store c))
                     (mkAlertScreen false (Some responseType))
        | (Threw _, s') =>
            mkClient s' (store c) (mkAlertScreen false (Some responseType))
        end
  | _, _ => c
  end.

(** What can happen to the client: anything that can happen to the
    services, a notification, a change of connectivity, a sign-in or
    sign-out, a tap on a response, a change of an alert's status. The load
    of the cached alerts needs the columns of [alerts] that [Db] does not
    keep and is left aside. *)
Inductive ClientOp : Type :=
| COp (o : Op)
| CNotification (notification : Notification)
| CNetworkStatus (state : NetInfoState) (type : option string)
| CSetAuth (auth : AuthPatch)
| CClearAuth
| CSubmitResponse (id : option string) (responseType : UserResponseType.t)
| CUpdateAlertStatus (alertId : string) (status : AlertStatus.t).

Definition run_client_op (o : ClientOp) (c : Client) : Client :=
  match o with
  | COp o => mkClient (snd (run_op o (services c))) (store c) (alertScreen c)
  | CNotification notification => onNotification notification c
  | CNetworkStatus state type => onNetworkStatus state type c
  | CSetAuth auth => mkClient (services c) (setAuth auth (store c)) (alertScreen c)
  | CClearAuth => mkClient (services c) (clearAuth (store c)) (alertScreen c)
  | CSubmitResponse id responseType => handleSubmitResponse id responseType c
  | CUpdateAlertStatus alertId status =>
      mkClient (services c) (updateAlertStatus alertId status (store c))
               (alertScreen c)
  end.

Definition initial_client (w : World) : Client :=
  mkClient (initial w) initialAppState (mkAlertScreen false None).

Fixpoint run_client_ops (ops : list ClientOp) (c : Client) : Client :=
  match ops with
  | [] => c
  | o :: rest => run_client_ops rest (run_client_op o c)
  end.

Inductive client_reachable : Client -> Prop :=
| client_reachable_initial w : client_reachable (initial_client w)
| client_reachable_step c o :
    client_reachable c -> client_reachable (run_client_op o c).

(** Every alert the store shows is in the [alerts] table. *)
Definition shown_alerts_are_stored (c : Client) : Prop :=
  forall a, In a (app_alerts (store c)) ->
            alert_exists (db (services c)) (al_id a) = true.

(** [c] removes no alert from the store. *)
Definition keeps_alerts {A} (c : M A) : Prop :=
  forall s id, alert_exists (db s) id = true ->
               alert_exists (db (snd (c s))) id = true.

End Client.

(** ** More scenarios *)

Section ClientScenarios.
#[local] Existing Instance Z_JsNumber.

(** A queue with a row left in [syncing] ahead of two pending ones. *)
Definition stuck_row : SyncQueueRow :=
  mkSyncQueueRow "q0" SyncType.user_response "{}" 0 SyncStatus.syncing 0 None.

Definition queue_with_stuck_row : St :=
  state_of (mkDb [] [] [] (stuck_row :: pending_rows 2))
           (world_of connected_online http_ok).

(** Two items enqueued while online, nothing resumed yet. *)
Definition two_enqueued_online : St :=
  run_ops [OpEnqueue SyncType.call_log [("callId", JString "c1")];
           OpEnqueue SyncType.call_log [("callId", JString "c2")]]
          (initial (world_of connected_online http_ok)).


(** A device without the voice SDK and without CallKeep. *)
Definition without_sdk : St :=
  state_of (mkDb ["A1"] [] [] []) (mkWorld (script offline http_ok) 0 false false).

(** An environment that has a position to give, without accuracy. *)
Definition script_with_fix (k : nat) : Answer :=
  let a := script offline http_ok k in
  mkAnswer (ans_now a) (ans_random a) (ans_net a) (ans_http a)
           (Resolved (mkLocationObject 52 13 None (Some 34) (ans_now a)))
           (ans_lastKnown a) (ans_connect a) (ans_openURL a) (ans_activeCall a).

Definition one_alert_with_fix : St :=
  state_of (mkDb ["A1"] [] [] []) (mkWorld script_with_fix 0 true true).

(** One response of user u1 to alert A1 in the store. *)
Definition earlier_response : UserResponse :=
  mkUserResponse "resp-1" "A1" "u1" UserResponseType.sheltering None None None
                 "2023-11-14T21:00:00.000Z" None.

Definition one_response_stored : St :=
  state_of (mkDb ["A1"] [earlier_response] [] []) (world_of offline http_ok).

Definition sample_user : User :=
  mkUser "u1" "u1@example.org" "U One" "+15550111" "org1" None.

Definition sample_notification : Notification :=
  mkNotification (Some "Flood warning") (Some "Move to higher ground")
    (Some (mkNotificationData (Some "A7") (Some AlertSeverity.critical) None None
                              None (Some true) None None)).

(** The alert the listener makes of [sample_notification] at process start. *)
Definition sample_alert : Alert :=
  mkAlert "A7" "Flood warning" "Move to higher ground" AlertSeverity.critical
          AlertStatus.active "general" "2023-11-14T22:13:20Z+0" None true
          [UserResponseType.safe; UserResponseType.need_assistance] None.

(** An alert with metadata, issued later. *)
Definition alert_with_metadata : Alert :=
  mkAlert "A8" "Road closed" "Use the north exit" AlertSeverity.warning
          AlertStatus.active "security" "2023-11-15T08:00:00.000Z"
          (Some "2023-11-16T08:00:00.000Z") false [UserResponseType.safe]
          (Some [("zone", JString "B"); ("level", JNumber 3);
                 ("gates", JArray [JString "north"])]).

(** The table after the two alerts were persisted, the older one twice. *)
Definition two_alerts_cached : list AlertRow :=
  alerts_after_persistAlert sample_alert 1700000300
    (alerts_after_persistAlert alert_with_metadata 1700000200
       (alerts_after_persistAlert sample_alert 1700000100 [])).

(** A user signed in, then the notification received, offline. *)
Definition client_with_alert : Client :=
  run_client_ops
    [CSetAuth (mkAuthPatch (Some (Some sample_user)) None None (Some true));
     CNotification sample_notification]
    (initial_client (world_of offline http_ok)).

End ClientScenarios.

(** * Properties *)

Section Properties.
Context {JN : JsNumber}.

(** ** Reading the monadic code *)

Ltac st_norm :=
  lazy beta iota zeta delta
      [with_trace with_world with_db with_isSyncing with_detached
       with_activeCallId with_activeCallSid with_callStartTime with_eventCallback
       with_sync_queue with_call_logs with_user_responses advance];
  cbn [db world trace isSyncing activeCallId activeCallSid callStartTime
       eventCallback detached alerts user_responses call_logs sync_queue
       oracle cursor TwilioVoice RNCallKeep fst snd].

Ltac m_unfold :=
  lazy beta iota zeta delta
      [try_catch try_finally bind runAsync JSON_parse_throwing fetch NetInfo_fetch
       ask emit modify gets ret throw park unawaited].

(** One step of a program at a time. *)

Lemma bind_bind {A B C} (c : M A) (k1 : A -> M B) (k2 : B -> M C) s :
  bind (bind c k1) k2 s = bind c (fun a => bind (k1 a) k2) s.
Proof. unfold bind. now destruct (c s) as [[a|e] s']. Qed.

Lemma bind_ret {A B} (a : A) (k : A -> M B) s : bind (ret a) k s = k a s.
Proof. reflexivity. Qed.

Lemma bind_throw {A B} e (k : A -> M B) s : bind (throw e) k s = (Threw e, s).
Proof. reflexivity. Qed.

Lemma bind_gets {A B} (f : St -> A) (k : A -> M B) s : bind (gets f) k s = k (f s) s.
Proof. reflexivity. Qed.

Lemma bind_modify {B} f (k : unit -> M B) s : bind (modify f) k s = k tt (f s).
Proof. reflexivity. Qed.

Lemma bind_ask {B} (k : Answer -> M B) s :
  bind ask k s
  = k (oracle (world s) (cursor (world s)))
      (with_world (advance (S (cursor (world s))) (world s)) s).
Proof. reflexivity. Qed.

Lemma bind_emit {B} e (k : unit -> M B) s :
  bind (emit e) k s = k tt (with_trace (trace s ++ [e]) s).
Proof. reflexivity. Qed.

Lemma bind_park {B} t (k : unit -> M B) s :
  bind (park t) k s = k tt (with_detached (detached s ++ [t]) s).
Proof. reflexivity. Qed.

Lemma bind_runAsync {B} stmt (k : unit -> M B) s :
  reads_no_clock stmt ->
  bind (runAsync stmt) k s
  = match exec_stmt 0 stmt (db s) with
    | Some d' => k tt (with_db d' (with_trace (trace s ++ [EvSql stmt]) s))
    | None => (Threw (JsError "constraint failed"),
               with_trace (trace s ++ [EvSql stmt]) s)
    end.
Proof.
  intros H. destruct stmt; try contradiction; unfold runAsync, bind, ret, emit,
    modify, gets, throw; cbn [fst snd]; st_norm;
    match goal with |- context [exec_stmt ?n ?st ?d] =>
      destruct (exec_stmt n st d) end; reflexivity.
Qed.

Lemma bind_runAsync_insert {B} id ty text (k : unit -> M B) s :
  bind (runAsync (InsertSyncQueue id ty text)) k s
  = let now := getTime (ans_now (oracle (world s) (cursor (world s)))) / 1000 in
    let s1 := with_trace (trace s ++ [EvSql (InsertSyncQueue id ty text)])
                (with_world (advance (S (cursor (world s))) (world s)) s) in
    match exec_stmt now (InsertSyncQueue id ty text) (db s) with
    | Some d' => k tt (with_db d' s1)
    | None => (Threw (JsError "constraint failed"), s1)
    end.
Proof.
  unfold runAsync, bind, ret, emit, modify, gets, throw, ask. cbn [fst snd]. st_norm.
  cbv zeta. st_norm.
  match goal with |- context [exec_stmt ?n ?st ?d] =>
    destruct (exec_stmt n st d) end; reflexivity.
Qed.

Lemma run_ret {A} (a : A) s : ret a s = (Returned a, s).
Proof. reflexivity. Qed.

Lemma run_throw {A} e s : @throw _ A e s = (Threw e, s).
Proof. reflexivity. Qed.

Lemma run_modify f s : modify f s = (Returned tt, f s).
Proof. reflexivity. Qed.

Lemma run_emit e s : emit e s = (Returned tt, with_trace (trace s ++ [e]) s).
Proof. reflexivity. Qed.

Lemma run_park t s : park t s = (Returned tt, with_detached (detached s ++ [t]) s).
Proof. reflexivity. Qed.

Lemma run_try_catch {A} (c : M A) h s :
  try_catch c h s
  = match c s with
    | (Returned a, s') => (Returned a, s')
    | (Threw e, s') => h e s'
    end.
Proof. reflexivity. Qed.

Lemma run_bind {A B} (c : M A) (k : A -> M B) s :
  bind c k s
  = match c s with
    | (Returned a, s') => k a s'
    | (Threw e, s') => (Threw e, s')
    end.
Proof. reflexivity. Qed.

Ltac mstep :=
  first
    [ rewrite bind_bind
    | rewrite bind_ret
    | rewrite bind_throw
    | rewrite bind_gets
    | rewrite bind_modify
    | rewrite bind_ask
    | rewrite bind_emit
    | rewrite bind_park
    | rewrite bind_runAsync_insert
    | rewrite bind_runAsync by exact I
    | rewrite run_ret
    | rewrite run_throw
    | rewrite run_modify
    | rewrite run_emit
    | rewrite run_park ];
  cbv beta; st_norm.

Ltac mrun := repeat mstep.

Lemma St_eta (s : St) :
  mkSt (db s) (world s) (trace s) (isSyncing s) (activeCallId s)
       (activeCallSid s) (callStartTime s) (eventCallback s) (detached s) = s.
Proof. now destruct s. Qed.

Lemma Db_eta (d : Db) :
  mkDb (alerts d) (user_responses d) (call_logs d) (sync_queue d) = d.
Proof. now destruct d. Qed.

Lemma World_eta (w : World) :
  mkWorld (oracle w) (cursor w) (TwilioVoice w) (RNCallKeep w) = w.
Proof. now destruct w. Qed.

Lemma update_where_twice {A} (p : A -> bool) (f g : A -> A) (l : list A) :
  (forall x, p (g x) = p x) ->
  update_where p f (update_where p g l) = update_where p (fun x => f (g x)) l.
Proof.
  intros Hp. unfold update_where. rewrite map_map. apply map_ext.
  intros x. destruct (p x) eqn:E.
  - now rewrite Hp, E.
  - now rewrite E.
Qed.

Lemma mark_then_synced id q :
  update_where (has_id id) set_synced
    (update_where (has_id id) (set_sync_status SyncStatus.syncing) q)
  = update_where (has_id id) set_synced q.
Proof. now rewrite update_where_twice. Qed.

Lemma mark_then_failed id m q :
  update_where (has_id id) (set_failed m)
    (update_where (has_id id) (set_sync_status SyncStatus.syncing) q)
  = update_where (has_id id) (set_failed m) q.
Proof. now rewrite update_where_twice. Qed.

Ltac finish_attempt :=
  cbn [attempt_events attempt_continues attempt_row attempt_count
       attempts_events flat_map apply_attempts apply_attempt fold_left fst snd];
  rewrite ?app_nil_r, <- ?app_assoc; cbn [app];
  try (now destruct (truthy _)); try reflexivity.

Ltac fail_branch :=
  mrun; cbn [exec_stmt error_message]; mrun;
  rewrite mark_then_failed, Z.add_0_r;
  cbn [attempt_events attempt_continues attempt_row attempt_count
       attempts_events flat_map apply_attempts apply_attempt fold_left fst snd];
  rewrite ?app_nil_r, <- ?app_assoc; cbn [app];
  destruct (truthy _); cbn [negb]; mrun; reflexivity.

(** One turn of the loop is [attempt]. *)
Lemma drain_item_eq item c s :
  drain_item item c s =
  let (a, k) := attempt item (oracle (world s)) (cursor (world s)) in
  (Returned (attempt_continues a, c + attempt_count a),
   after_attempts [(item_id item, a)] k s).
Proof.
  unfold drain_item, attempt, after_attempts, sendToBackend, JSON_parse_throwing,
    fetch, NetInfo_fetch.
  rewrite run_try_catch. mrun. cbn [exec_stmt]. mrun.
  destruct (JSON_parse (item_payload item)) as [v|]; [|fail_branch].
  mrun.
  destruct (lookup (item_type item) endpoints) as [[|e0 e]|]; [fail_branch| |fail_branch].
  mrun. destruct (ans_http _) as [resp|e1]; [|fail_branch].
  mrun. destruct (resp_ok resp); cbn [negb]; [|fail_branch].
  mrun. cbn [exec_stmt]. mrun. rewrite mark_then_synced. finish_attempt.
Qed.

Lemma after_attempts_nil s : after_attempts [] (cursor (world s)) s = s.
Proof.
  unfold after_attempts, apply_attempts, attempts_events, with_sync_queue, advance.
  cbn. rewrite app_nil_r, Db_eta, World_eta. apply St_eta.
Qed.

Lemma after_attempts_cons p l k1 k2 s :
  after_attempts l k2 (after_attempts [p] k1 s) = after_attempts (p :: l) k2 s.
Proof.
  unfold after_attempts. st_norm.
  cbn [apply_attempts fold_left attempts_events flat_map].
  now rewrite app_nil_r, app_assoc.
Qed.

(** The loop is [attempts]. *)
Lemma drain_items_eq items : forall c s,
  drain_items items c s =
  let (l, k) := attempts items (oracle (world s)) (cursor (world s)) in
  (Returned (c + count_delivered l), after_attempts l k s).
Proof.
  induction items as [|item rest IH]; intros c s.
  - cbn. now rewrite Z.add_0_r, after_attempts_nil.
  - cbn [drain_items attempts]. rewrite run_bind, drain_item_eq.
    destruct (attempt item _ _) as [a k1]. cbn [fst snd].
    destruct (attempt_continues a).
    + rewrite IH. cbn [oracle cursor world after_attempts advance].
      destruct (attempts rest _ k1) as [l k2].
      rewrite after_attempts_cons. cbn [count_delivered snd]. now rewrite Z.add_assoc.
    + rewrite run_ret. cbn [count_delivered snd]. now rewrite Z.add_0_r.
Qed.

(** The pass from its first [await] on. *)
Lemma processSyncQueue_pass_eq s :
  processSyncQueue_pass s =
  let (l, k) := attempts (select_pending MAX_RETRIES (db s))
                         (oracle (world s)) (cursor (world s)) in
  (Returned (count_delivered l), after_pass l k s).
Proof.
  unfold processSyncQueue_pass, try_finally.
  rewrite bind_gets, run_bind, drain_items_eq.
  destruct (attempts _ _ _) as [l k].
  rewrite bind_runAsync by exact I. cbn [exec_stmt].
  unfold after_pass, after_attempts. mrun. rewrite Z.add_0_l.
  now rewrite app_assoc.
Qed.

(** [processSyncQueue], awaited. *)
Lemma processSyncQueue_eq s :
  processSyncQueue s =
  if isSyncing s then (Returned 0, s)
  else
    let (l, k) := attempts (select_pending MAX_RETRIES (db s))
                           (oracle (world s)) (cursor (world s)) in
    (Returned (count_delivered l), after_pass l k s).
Proof.
  unfold processSyncQueue, processSyncQueue_enter.
  rewrite bind_bind, bind_gets.
  destruct (isSyncing s) eqn:E; [reflexivity|].
  rewrite bind_bind, bind_modify, bind_ret. rewrite processSyncQueue_pass_eq.
  cbn [db world with_isSyncing]. destruct (attempts _ _ _) as [l k].
  reflexivity.
Qed.

(** ** Rows and queues *)

Lemma attempt_row_id a r : sq_id (attempt_row a r) = sq_id r.
Proof. now destruct a. Qed.

Lemma attempt_row_created a r : sq_created_at (attempt_row a r) = sq_created_at r.
Proof. now destruct a. Qed.

Lemma has_id_true id r : has_id id r = true <-> sq_id r = id.
Proof. unfold has_id. apply String.eqb_eq. Qed.

Lemma has_id_false id r : has_id id r = false <-> sq_id r <> id.
Proof. unfold has_id. apply String.eqb_neq. Qed.

Lemma mem_string_In x l : mem_string x l = true <-> In x l.
Proof.
  unfold mem_string. rewrite existsb_exists. split.
  - intros (y & Hy & E). apply String.eqb_eq in E. now subst.
  - intros H. exists x. split; [assumption | apply String.eqb_refl].
Qed.

Lemma mem_string_not_In x l : mem_string x l = false <-> ~ In x l.
Proof.
  rewrite <- mem_string_In. destruct (mem_string x l); split; congruence.
Qed.

Lemma update_where_ids p f q :
  (forall r, sq_id (f r) = sq_id r) ->
  map sq_id (update_where p f q) = map sq_id q.
Proof.
  intros Hf. unfold update_where. rewrite map_map. apply map_ext.
  intros r. now destruct (p r).
Qed.

Lemma row_after_id l : forall r, sq_id (row_after l r) = sq_id r.
Proof.
  induction l as [|p l IH]; intros r; cbn; [reflexivity|].
  rewrite IH. destruct (has_id (fst p) r); [apply attempt_row_id | reflexivity].
Qed.

Lemma row_after_created l : forall r, sq_created_at (row_after l r) = sq_created_at r.
Proof.
  induction l as [|p l IH]; intros r; cbn; [reflexivity|].
  rewrite IH. destruct (has_id (fst p) r); [apply attempt_row_created | reflexivity].
Qed.

Lemma apply_attempts_map l : forall q, apply_attempts l q = map (row_after l) q.
Proof.
  induction l as [|p l IH]; intros q; cbn.
  - now rewrite map_id.
  - unfold apply_attempts in IH. rewrite IH. unfold apply_attempt, update_where.
    now rewrite map_map.
Qed.

Lemma apply_attempts_ids l q : map sq_id (apply_attempts l q) = map sq_id q.
Proof.
  rewrite apply_attempts_map, map_map. apply map_ext. apply row_after_id.
Qed.

Lemma row_after_notin l : forall r,
  ~ In (sq_id r) (map fst l) -> row_after l r = r.
Proof.
  induction l as [|p l IH]; intros r H; cbn; [reflexivity|].
  cbn in H. destruct (has_id (fst p) r) eqn:E.
  - apply has_id_true in E. exfalso. apply H. now left.
  - apply IH. intros Hin. apply H. now right.
Qed.

Lemma row_after_in l : forall r a,
  NoDup (map fst l) -> In (sq_id r, a) l -> row_after l r = attempt_row a r.
Proof.
  induction l as [|p l IH]; intros r a Hnd Hin; [contradiction|].
  cbn in Hnd. inversion Hnd as [|x xs Hx Hnd']; subst.
  destruct Hin as [->|Hin]; cbn.
  - assert (E : has_id (sq_id r) r = true) by now apply has_id_true.
    rewrite E. apply row_after_notin. now rewrite attempt_row_id.
  - destruct (has_id (fst p) r) eqn:E.
    + apply has_id_true in E. exfalso. apply Hx.
      rewrite <- E. now apply (in_map fst) in Hin.
    + now apply IH.
Qed.

(** A row is touched by at most one attempt, and then by that one only. *)
Lemma row_after_cases l r :
  NoDup (map fst l) ->
  (~ In (sq_id r) (map fst l) /\ row_after l r = r) \/
  (exists a, In (sq_id r, a) l /\ row_after l r = attempt_row a r).
Proof.
  intros Hnd.
  destruct (in_dec string_dec (sq_id r) (map fst l)) as [Hin|Hnin].
  - right. apply in_map_iff in Hin. destruct Hin as ([id a] & E & Hin).
    cbn in E. subst id. exists a. split; [assumption|]. now apply row_after_in.
  - left. split; [assumption|]. now apply row_after_notin.
Qed.

(** ** ORDER BY *)

Lemma insert_by_perm {A} (le : A -> A -> bool) x l :
  Permutation (insert_by le x l) (x :: l).
Proof.
  induction l as [|y l IH]; cbn; [reflexivity|].
  destruct (le x y); [reflexivity|].
  rewrite IH. apply perm_swap.
Qed.

Lemma sort_by_perm {A} (le : A -> A -> bool) l :
  Permutation (sort_by le l) l.
Proof.
  induction l as [|x l IH]; cbn; [reflexivity|].
  rewrite insert_by_perm. now constructor.
Qed.

Lemma sort_by_In {A} (le : A -> A -> bool) l x : In x (sort_by le l) <-> In x l.
Proof.
  split; apply Permutation_in;
    [apply sort_by_perm | symmetry; apply sort_by_perm].
Qed.

Lemma sort_by_length {A} (le : A -> A -> bool) l :
  List.length (sort_by le l) = List.length l.
Proof. apply Permutation_length, sort_by_perm. Qed.

Section Sorting.
Context {A : Type} (le : A -> A -> bool).
Hypothesis le_total : forall x y, le x y = true \/ le y x = true.
Hypothesis le_trans : forall x y z, le x y = true -> le y z = true -> le x z = true.

Lemma insert_by_sorted x l :
  StronglySorted (fun a b => le a b = true) l ->
  StronglySorted (fun a b => le a b = true) (insert_by le x l).
Proof.
  induction 1 as [|y l Hs IH Hall]; cbn.
  - constructor; constructor.
  - destruct (le x y) eqn:E.
    + constructor; [now constructor|]. constructor; [assumption|].
      rewrite Forall_forall in *. intros z Hz. eapply le_trans; eauto.
    + constructor; [assumption|].
      assert (Hyx : le y x = true) by (destruct (le_total x y); congruence).
      rewrite Forall_forall in *. intros z Hz.
      apply (Permutation_in _ (insert_by_perm le x l)) in Hz.
      destruct Hz as [<-|Hz]; auto.
Qed.

Lemma sort_by_sorted l :
  StronglySorted (fun a b => le a b = true) (sort_by le l).
Proof.
  induction l as [|x l IH]; cbn; [constructor | now apply insert_by_sorted].
Qed.

End Sorting.

Lemma created_asc_total x y : created_asc x y = true \/ created_asc y x = true.
Proof. unfold created_asc. rewrite !Z.leb_le. lia. Qed.

Lemma created_asc_trans x y z :
  created_asc x y = true -> created_asc y z = true -> created_asc x z = true.
Proof. unfold created_asc. rewrite !Z.leb_le. lia. Qed.

Lemma created_desc_total x y : created_desc x y = true \/ created_desc y x = true.
Proof. unfold created_desc. rewrite !Z.leb_le. lia. Qed.

Lemma created_desc_trans x y z :
  created_desc x y = true -> created_desc y z = true -> created_desc x z = true.
Proof. unfold created_desc. rewrite !Z.leb_le. lia. Qed.

(** ** The candidate set *)

Lemma select_candidates_In m q r :
  In r (select_candidates m q) <->
  In r q /\
  (sq_status r = SyncStatus.pending \/ sq_status r = SyncStatus.failed) /\
  sq_retry_count r < m.
Proof.
  unfold select_candidates. rewrite sort_by_In, filter_In. unfold is_candidate.
  rewrite andb_true_iff, orb_true_iff, Z.ltb_lt.
  destruct (sq_status r); cbn; intuition congruence.
Qed.

Lemma select_candidates_sorted m q :
  StronglySorted (fun a b => sq_created_at a <= sq_created_at b)
    (select_candidates m q).
Proof.
  unfold select_candidates.
  pose proof (sort_by_sorted created_asc created_asc_total created_asc_trans
                (filter (is_candidate m) q)) as H.
  induction H as [|x l Hs IH Hall]; constructor; auto.
  rewrite Forall_forall in *. intros y Hy. apply Z.leb_le. now apply Hall.
Qed.

Lemma NoDup_map_filter {A B} (f : A -> B) (p : A -> bool) l :
  NoDup (map f l) -> NoDup (map f (filter p l)).
Proof.
  induction l as [|x l IH]; cbn; [trivial|].
  intros H. inversion H as [|y ys Hy Hnd]; subst.
  destruct (p x); cbn; [constructor|]; auto.
  intros Hin. apply Hy. apply in_map_iff in Hin. destruct Hin as (z & E & Hz).
  apply filter_In in Hz. apply in_map_iff. exists z. tauto.
Qed.

Lemma select_candidates_NoDup m q :
  NoDup (map sq_id q) -> NoDup (map sq_id (select_candidates m q)).
Proof.
  intros H. unfold select_candidates.
  eapply Permutation_NoDup.
  - apply Permutation_map. symmetry. apply sort_by_perm.
  - now apply NoDup_map_filter.
Qed.

Lemma select_pending_ids m d :
  map item_id (select_pending m d) = map sq_id (select_candidates m (sync_queue d)).
Proof. unfold select_pending. rewrite map_map. reflexivity. Qed.

(** In a keyed table a row is determined by its id. *)
Lemma NoDup_ids_inj (q : list SyncQueueRow) r1 r2 :
  NoDup (map sq_id q) -> In r1 q -> In r2 q -> sq_id r1 = sq_id r2 -> r1 = r2.
Proof.
  induction q as [|x q IH]; cbn; [contradiction|].
  intros Hnd H1 H2 E. inversion Hnd as [|y ys Hy Hnd']; subst.
  destruct H1 as [->|H1], H2 as [->|H2]; auto.
  - exfalso. apply Hy. rewrite E. now apply in_map.
  - exfalso. apply Hy. rewrite <- E. now apply in_map.
Qed.

(** ** The attempts of a pass *)

Lemma attempts_prefix items : forall o k,
  exists rest, map item_id items = (map fst (fst (attempts items o k)) ++ rest)%list.
Proof.
  induction items as [|item items IH]; intros o k; cbn.
  - now exists [].
  - destruct (attempt item o k) as [a k1]. destruct (attempt_continues a).
    + destruct (IH o k1) as [rest E]. destruct (attempts items o k1) as [l k2].
      cbn in *. exists rest. now rewrite E.
    + cbn. now exists (map item_id items).
Qed.

(** After an attempt that says [break] there is no further attempt. *)
Lemma attempts_break items : forall o k l1 p l2,
  fst (attempts items o k) = (l1 ++ p :: l2)%list ->
  attempt_continues (snd p) = false -> l2 = [].
Proof.
  induction items as [|item items IH]; intros o k l1 p l2; cbn.
  - destruct l1; discriminate.
  - destruct (attempt item o k) as [a k1]. destruct (attempt_continues a) eqn:Ec.
    + specialize (IH o k1). destruct (attempts items o k1) as [l k2]. cbn in *.
      intros E Hp. destruct l1 as [|x l1]; cbn in E.
      * injection E as <- <-. cbn in Hp. congruence.
      * injection E as <- E. eapply IH; eauto.
    + cbn. intros E Hp. destruct l1 as [|x l1]; cbn in E.
      * now injection E.
      * injection E as _ E. destruct l1; discriminate.
Qed.

Lemma attempts_In_ids items o k id :
  In id (map fst (fst (attempts items o k))) -> In id (map item_id items).
Proof.
  destruct (attempts_prefix items o k) as [rest E]. rewrite E.
  intros H. apply in_or_app. now left.
Qed.

Lemma attempts_NoDup items o k :
  NoDup (map item_id items) -> NoDup (map fst (fst (attempts items o k))).
Proof.
  destruct (attempts_prefix items o k) as [rest E]. rewrite E.
  apply NoDup_app_remove_r.
Qed.

Lemma attempted_app e1 e2 : attempted (e1 ++ e2) = (attempted e1 ++ attempted e2)%list.
Proof.
  induction e1 as [|e e1 IH]; cbn; [reflexivity|].
  destruct e as [[]| | | | | | | | |]; cbn; now rewrite ?IH.
Qed.

Lemma attempted_attempt_events id a : attempted (attempt_events id a) = [id].
Proof. destruct a as [u b|[[u b]|] m n]; reflexivity. Qed.

Lemma attempted_attempts_events l : attempted (attempts_events l) = map fst l.
Proof.
  induction l as [|p l IH]; [reflexivity|].
  unfold attempts_events in *. cbn [flat_map map].
  now rewrite attempted_app, attempted_attempt_events, IH.
Qed.

(** The rows a pass touches are candidates of its SELECT. *)
Lemma touched_is_candidate d o k r :
  NoDup (map sq_id (sync_queue d)) ->
  In r (sync_queue d) ->
  In (sq_id r) (map fst (fst (attempts (select_pending MAX_RETRIES d) o k))) ->
  In r (select_candidates MAX_RETRIES (sync_queue d)).
Proof.
  intros Hnd Hr Hin. apply attempts_In_ids in Hin.
  rewrite select_pending_ids in Hin. apply in_map_iff in Hin.
  destruct Hin as (c & E & Hc).
  assert (Hcq : In c (sync_queue d)) by now apply select_candidates_In in Hc.
  now rewrite (NoDup_ids_inj _ _ _ Hnd Hr Hcq (eq_sym E)).
Qed.

Lemma pass_attempts_NoDup d o k :
  NoDup (map sq_id (sync_queue d)) ->
  NoDup (map fst (fst (attempts (select_pending MAX_RETRIES d) o k))).
Proof.
  intros H. apply attempts_NoDup. rewrite select_pending_ids.
  now apply select_candidates_NoDup.
Qed.

(** ** The prune *)

Lemma delete_old_synced_In q r :
  In r (delete_old_synced q) <->
  In r q /\ (is_synced r = false \/ In (sq_id r) (map sq_id (newest_synced q))).
Proof.
  unfold delete_old_synced. rewrite filter_In, negb_true_iff, andb_false_iff,
    negb_false_iff, mem_string_In. reflexivity.
Qed.

Lemma delete_old_synced_keeps_unsynced q r :
  In r q -> sq_status r <> SyncStatus.synced -> In r (delete_old_synced q).
Proof.
  intros Hr Hs. apply delete_old_synced_In. split; [assumption|]. left.
  unfold is_synced. now destruct (sq_status r).
Qed.

Lemma delete_old_synced_incl q r : In r (delete_old_synced q) -> In r q.
Proof. intros H. now apply delete_old_synced_In in H. Qed.

Lemma queue_ok_filter p q : queue_ok q -> queue_ok (filter p q).
Proof.
  intros [Hnd Hall]. split.
  - now apply NoDup_map_filter.
  - rewrite Forall_forall in *. intros r Hr. apply filter_In in Hr. now apply Hall.
Qed.

(** ** The invariant of the queue *)

Lemma queue_ok_insert q id ty payload now :
  queue_ok q -> ~ In id (map sq_id q) ->
  queue_ok (q ++ [mkSyncQueueRow id ty payload now SyncStatus.pending 0 None]).
Proof.
  intros [Hnd Hall] Hid. split.
  - rewrite map_app. cbn. apply NoDup_app; [assumption | repeat constructor; auto |].
    intros x Hx [<-|[]]. contradiction.
  - apply Forall_app. split; [assumption|]. repeat constructor; cbn;
      unfold MAX_RETRIES; lia.
Qed.

Lemma queue_ok_pass d o k :
  queue_ok (sync_queue d) ->
  queue_ok (delete_old_synced
              (apply_attempts (fst (attempts (select_pending MAX_RETRIES d) o k))
                              (sync_queue d))).
Proof.
  intros [Hnd Hall]. apply queue_ok_filter. split.
  - now rewrite apply_attempts_ids.
  - rewrite apply_attempts_map. apply Forall_map. rewrite Forall_forall in *.
    intros r Hr. specialize (Hall r Hr).
    destruct (row_after_cases (fst (attempts (select_pending MAX_RETRIES d) o k)) r
                (pass_attempts_NoDup d o k Hnd)) as [[_ ->]|(a & Ha & ->)];
      [assumption|].
    assert (Hc : In r (select_candidates MAX_RETRIES (sync_queue d))).
    { apply (touched_is_candidate d o k); auto.
      apply in_map_iff. now exists (sq_id r, a). }
    apply select_candidates_In in Hc. destruct Hc as (_ & _ & Hlt).
    destruct a; cbn; lia.
Qed.

(** ** Properties of the queue kept by every entry point *)

Section Invariant.
Variable P : list SyncQueueRow -> Prop.
Hypothesis P_insert : forall q id ty payload now,
  P q -> ~ In id (map sq_id q) ->
  P (q ++ [mkSyncQueueRow id ty payload now SyncStatus.pending 0 None]).
Hypothesis P_pass : forall d o k,
  P (sync_queue d) ->
  P (delete_old_synced
       (apply_attempts (fst (attempts (select_pending MAX_RETRIES d) o k))
                       (sync_queue d))).

Lemma keeps_same_db {A} (c : M A) :
  (forall s, db (snd (c s)) = db s) -> keeps P c.
Proof. intros H s Hs. now rewrite H. Qed.

Lemma keeps_ret {A} (a : A) : keeps P (ret a).
Proof. now apply keeps_same_db. Qed.

Lemma keeps_throw {A} e : keeps P (@throw _ A e).
Proof. now apply keeps_same_db. Qed.

Lemma keeps_gets {A} (f : St -> A) : keeps P (gets f).
Proof. now apply keeps_same_db. Qed.

Lemma keeps_ask : keeps P ask.
Proof. now apply keeps_same_db. Qed.

Lemma keeps_emit e : keeps P (emit e).
Proof. now apply keeps_same_db. Qed.

Lemma keeps_park t : keeps P (park t).
Proof. now apply keeps_same_db. Qed.

Lemma keeps_modify f : (forall s, db (f s) = db s) -> keeps P (modify f).
Proof. intros H. now apply keeps_same_db. Qed.

Lemma keeps_bind {A B} (c : M A) (k : A -> M B) :
  keeps P c -> (forall a, keeps P (k a)) -> keeps P (bind c k).
Proof.
  intros Hc Hk s Hs. unfold bind. specialize (Hc s Hs).
  destruct (c s) as [[a|e] s']; cbn in *; [now apply Hk | assumption].
Qed.

Lemma keeps_try_catch {A} (c : M A) (h : JsThrown -> M A) :
  keeps P c -> (forall e, keeps P (h e)) -> keeps P (try_catch c h).
Proof.
  intros Hc Hh s Hs. unfold try_catch. specialize (Hc s Hs).
  destruct (c s) as [[a|e] s']; cbn in *; [assumption | now apply Hh].
Qed.

Lemma keeps_try_finally {A} (c : M A) (f : M unit) :
  keeps P c -> keeps P f -> keeps P (try_finally c f).
Proof.
  intros Hc Hf s Hs. unfold try_finally. specialize (Hc s Hs).
  destruct (c s) as [r s']. cbn in Hc. specialize (Hf s' Hc).
  destruct (f s') as [[u|e] s'']; assumption.
Qed.

Lemma keeps_runAsync stmt :
  match stmt with
  | MarkSyncing _ | MarkSynced _ | MarkFailed _ _ | DeleteOldSynced => False
  | _ => True
  end -> keeps P (runAsync stmt).
Proof.
  intros Hstmt s Hs. unfold runAsync.
  destruct stmt; try contradiction; m_unfold; cbn [exec_stmt].
  - destruct (mem_string id _) eqn:E; st_norm; [assumption|].
    apply P_insert; [assumption | now apply mem_string_not_In].
  - destruct (mem_string _ _); [assumption|].
    destruct (negb _); assumption.
  - destruct (mem_string _ _); [assumption|].
    destruct (cl_alertId c); [destruct (alert_exists _ _)|]; assumption.
  - assumption.
  - assumption.
  - destruct (alert_exists _ _); assumption.
Qed.

Lemma keeps_pass : keeps P processSyncQueue_pass.
Proof.
  intros s Hs. rewrite processSyncQueue_pass_eq.
  pose proof (P_pass (db s) (oracle (world s)) (cursor (world s)) Hs) as H.
  destruct (attempts _ _ _) as [l k]. exact H.
Qed.

Ltac keeps_step :=
  lazymatch goal with
  | |- keeps _ (bind _ _) => apply keeps_bind; [|intros ?]
  | |- keeps _ (try_catch _ _) => apply keeps_try_catch; [|intros ?]
  | |- keeps _ (try_finally _ _) => apply keeps_try_finally
  | |- keeps _ (ret _) => apply keeps_ret
  | |- keeps _ (throw _) => apply keeps_throw
  | |- keeps _ (gets _) => apply keeps_gets
  | |- keeps _ ask => apply keeps_ask
  | |- keeps _ (emit _) => apply keeps_emit
  | |- keeps _ (park _) => apply keeps_park
  | |- keeps _ (modify _) => apply keeps_modify; reflexivity
  | |- keeps _ (runAsync _) => apply keeps_runAsync; exact I
  | |- keeps _ processSyncQueue_pass => apply keeps_pass
  | |- keeps _ (if ?b then _ else _) => destruct b
  | |- keeps _ (match ?x with _ => _ end) => destruct x
  end.

Ltac keeps_auto := repeat keeps_step; auto.

Lemma keeps_fetch url body : keeps P (fetch url body).
Proof. unfold fetch. keeps_auto. Qed.

Lemma keeps_NetInfo_fetch : keeps P NetInfo_fetch.
Proof. unfold NetInfo_fetch. keeps_auto. Qed.

Lemma keeps_generateId prefix : keeps P (generateId prefix).
Proof. unfold generateId. keeps_auto. Qed.

Lemma keeps_processSyncQueue_enter : keeps P processSyncQueue_enter.
Proof. unfold processSyncQueue_enter. keeps_auto. Qed.

Lemma keeps_processSyncQueue : keeps P processSyncQueue.
Proof.
  unfold processSyncQueue. keeps_auto. apply keeps_processSyncQueue_enter.
Qed.

Lemma keeps_processSyncQueue_detached : keeps P processSyncQueue_detached.
Proof.
  unfold processSyncQueue_detached. keeps_auto. apply keeps_processSyncQueue_enter.
Qed.

Lemma keeps_enqueue ty payload : keeps P (enqueue ty payload).
Proof.
  unfold enqueue. keeps_auto;
    auto using keeps_generateId, keeps_NetInfo_fetch, keeps_processSyncQueue_detached.
Qed.

Lemma keeps_captureLocation t : keeps P (captureLocation t).
Proof. unfold captureLocation. keeps_auto. Qed.

Lemma keeps_submitResponse a u r : keeps P (submitResponse a u r).
Proof.
  unfold submitResponse, persistResponse. keeps_auto;
    auto using keeps_generateId, keeps_captureLocation, keeps_enqueue.
Qed.

Lemma keeps_fetchTwilioToken : keeps P fetchTwilioToken.
Proof.
  unfold fetchTwilioToken, JSON_parse_throwing. keeps_auto; auto using keeps_fetch.
Qed.

Lemma keeps_handleCallEnd_head : keeps P handleCallEnd_head.
Proof. unfold handleCallEnd_head. keeps_auto. Qed.

Lemma keeps_handleCallEnd_rest c t d : keeps P (handleCallEnd_rest c t d).
Proof. unfold handleCallEnd_rest. keeps_auto; auto using keeps_enqueue. Qed.

Lemma keeps_handleCallEnd_detached c : keeps P (handleCallEnd_detached c).
Proof.
  unfold handleCallEnd_detached. keeps_auto; auto using keeps_handleCallEnd_head.
Qed.

Lemma keeps_makeHotlineCall n a : keeps P (makeHotlineCall n a).
Proof.
  unfold makeHotlineCall, persistCallLog, updateCallStatus_detached.
  keeps_auto; auto using keeps_generateId, keeps_fetchTwilioToken.
Qed.

Lemma keeps_endCall : keeps P endCall.
Proof. unfold endCall. keeps_auto; auto using keeps_handleCallEnd_detached. Qed.

Lemma keeps_run_task t : keeps P (run_task t).
Proof.
  destruct t; unfold run_task, unawaited, updateCallStatus; keeps_auto;
    auto using keeps_handleCallEnd_rest.
Qed.

Lemma keeps_run_op o : keeps P (run_op o).
Proof.
  destruct o; unfold run_op, unawaited, getPendingCount, onNetInfoChange,
    on_connected, on_disconnected, on_connectFailure, handleCallCancelled,
    handleCallKeepEndCall, run_next, updateCallStatus_detached;
    keeps_auto;
    auto using keeps_enqueue, keeps_processSyncQueue, keeps_submitResponse,
      keeps_makeHotlineCall, keeps_endCall, keeps_run_task,
      keeps_processSyncQueue_detached, keeps_handleCallEnd_detached.
Qed.

Lemma keeps_run_ops ops : forall s,
  P (sync_queue (db s)) -> P (sync_queue (db (run_ops ops s))).
Proof.
  induction ops as [|o ops IH]; intros s Hs; cbn; [assumption|].
  apply IH. now apply keeps_run_op.
Qed.

Lemma reachable_keeps s : P [] -> reachable s -> P (sync_queue (db s)).
Proof.
  intros H0. induction 1 as [w|s o Hr IH]; [exact H0 | now apply keeps_run_op].
Qed.

End Invariant.

(** ** Counting what the prune keeps *)

Lemma StronglySorted_app_le {A} (R : A -> A -> Prop) l1 : forall l2 x y,
  StronglySorted R (l1 ++ l2) -> In x l1 -> In y l2 -> R x y.
Proof.
  induction l1 as [|a l1 IH]; intros l2 x y Hs Hx Hy; [contradiction|].
  cbn in Hs. inversion Hs as [|? ? Hs' Hall]; subst.
  destruct Hx as [->|Hx].
  - rewrite Forall_forall in Hall. apply Hall. apply in_or_app. now right.
  - eapply IH; eauto.
Qed.

Lemma NoDup_map_inv {A B} (f : A -> B) l : NoDup (map f l) -> NoDup l.
Proof.
  induction l as [|x l IH]; cbn; intros H; [constructor|].
  inversion H as [|? ? Hx Hnd]; subst. constructor; auto.
  intros Hin. apply Hx. now apply in_map.
Qed.

Lemma NoDup_firstn {A} n (l : list A) : NoDup l -> NoDup (firstn n l).
Proof.
  intros H. rewrite <- (firstn_skipn n l) in H. now apply NoDup_app_remove_r in H.
Qed.

Lemma In_firstn {A} n (l : list A) x : In x (firstn n l) -> In x l.
Proof. intros H. rewrite <- (firstn_skipn n l). apply in_or_app. now left. Qed.

Lemma synced_sorted_NoDup q :
  NoDup (map sq_id q) ->
  NoDup (map sq_id (sort_by created_desc (filter is_synced q))).
Proof.
  intros H. eapply Permutation_NoDup.
  - apply Permutation_map. symmetry. apply sort_by_perm.
  - now apply NoDup_map_filter.
Qed.

(** Among the synced rows, the prune keeps exactly those of [newest_synced]. *)
Lemma kept_synced_iff q r :
  NoDup (map sq_id q) ->
  (In r (delete_old_synced q) /\ is_synced r = true) <-> In r (newest_synced q).
Proof.
  intros Hnd. rewrite delete_old_synced_In. split.
  - intros [[Hr [Hs|Hin]] Hsy]; [congruence|].
    apply in_map_iff in Hin. destruct Hin as (r' & E & Hr').
    assert (Hq' : In r' q).
    { apply In_firstn in Hr'. apply sort_by_In in Hr'. now apply filter_In in Hr'. }
    now rewrite <- (NoDup_ids_inj _ _ _ Hnd Hq' Hr E).
  - intros Hr. pose proof Hr as Hr'. apply In_firstn in Hr'. apply sort_by_In in Hr'.
    apply filter_In in Hr'. destruct Hr' as [Hq Hsy].
    repeat split; auto. right. now apply in_map.
Qed.

Lemma kept_synced_length q :
  NoDup (map sq_id q) ->
  List.length (filter is_synced (delete_old_synced q))
  = Nat.min 100 (List.length (filter is_synced q)).
Proof.
  intros Hnd.
  assert (Hp : Permutation (filter is_synced (delete_old_synced q)) (newest_synced q)).
  { apply NoDup_Permutation.
    - apply NoDup_filter. unfold delete_old_synced. apply NoDup_filter.
      now apply NoDup_map_inv in Hnd.
    - unfold newest_synced. apply NoDup_firstn.
      eapply NoDup_map_inv. now apply synced_sorted_NoDup.
    - intros r. rewrite filter_In. now apply kept_synced_iff. }
  rewrite (Permutation_length Hp). unfold newest_synced.
  now rewrite length_firstn, sort_by_length.
Qed.

(** Whatever synced row the prune drops is no newer than any it keeps. *)
Lemma kept_synced_newest q kept dropped :
  NoDup (map sq_id q) ->
  In kept (delete_old_synced q) -> is_synced kept = true ->
  In dropped q -> is_synced dropped = true -> ~ In dropped (delete_old_synced q) ->
  sq_created_at dropped <= sq_created_at kept.
Proof.
  intros Hnd Hk Hks Hd Hds Hnd'.
  assert (Hk' : In kept (newest_synced q)) by now apply kept_synced_iff.
  assert (Hd' : ~ In dropped (newest_synced q)).
  { intros H. apply Hnd'. now apply (kept_synced_iff q dropped Hnd). }
  unfold newest_synced in *.
  assert (Hd2 : In dropped (skipn 100 (sort_by created_desc (filter is_synced q)))).
  { assert (H : In dropped (sort_by created_desc (filter is_synced q))).
    { apply sort_by_In. apply filter_In. now split. }
    rewrite <- (firstn_skipn 100) in H. apply in_app_or in H. tauto. }
  pose proof (sort_by_sorted created_desc created_desc_total created_desc_trans
                (filter is_synced q)) as Hs.
  rewrite <- (firstn_skipn 100) in Hs.
  pose proof (StronglySorted_app_le _ _ _ _ _ Hs Hk' Hd2) as H.
  unfold created_desc in H. now apply Z.leb_le in H.
Qed.

(** ** The guard *)

(** C2. When a drain pass is in flight (the guard [isSyncing] is held), a
    concurrent [processSyncQueue] returns 0 at once and leaves the whole
    machine as it found it: no row of the store changes (so no status,
    retry count or last error of an item the running pass touches), no
    statement reaches the store and nothing goes to the network. The same
    holds when the concurrent call is made without [await]: it parks
    nothing. *)
Theorem concurrent_drain_is_noop (s : St) :
  isSyncing s = true ->
  processSyncQueue s = (Returned 0, s) /\
  processSyncQueue_detached s = (Returned tt, s).
Proof.
  intros H. split.
  - rewrite processSyncQueue_eq. now rewrite H.
  - unfold processSyncQueue_detached, processSyncQueue_enter, bind, gets.
    now rewrite H.
Qed.

(** A pass that was triggered without [await] holds the guard from the
    call until it runs, and releases it when it has run. *)
Lemma detached_pass_holds_guard (s : St) :
  isSyncing s = false ->
  let s1 := snd (processSyncQueue_detached s) in
  isSyncing s1 = true /\
  detached s1 = (detached s ++ [TProcessSyncQueue])%list /\
  db s1 = db s /\
  isSyncing (snd (run_task TProcessSyncQueue s1)) = false.
Proof.
  intros H. unfold processSyncQueue_detached, processSyncQueue_enter, bind, gets.
  rewrite H. cbn. repeat split.
  unfold unawaited, try_catch, bind. rewrite processSyncQueue_pass_eq.
  destruct (attempts _ _ _) as [l k]. reflexivity.
Qed.

(** ** The pass and the prune *)

Lemma pass_queue s :
  isSyncing s = false ->
  sync_queue (db (snd (processSyncQueue s)))
  = delete_old_synced
      (apply_attempts
         (fst (attempts (select_pending MAX_RETRIES (db s))
                        (oracle (world s)) (cursor (world s))))
         (sync_queue (db s))).
Proof.
  intros H. rewrite processSyncQueue_eq, H.
  destruct (attempts _ _ _) as [l k]. reflexivity.
Qed.

Lemma loop_queue s :
  sync_queue (db (snd (drain_items (select_pending MAX_RETRIES (db s)) 0
                                   (with_isSyncing true s))))
  = apply_attempts
      (fst (attempts (select_pending MAX_RETRIES (db s))
                     (oracle (world s)) (cursor (world s))))
      (sync_queue (db s)).
Proof.
  rewrite drain_items_eq. cbn [db world with_isSyncing].
  destruct (attempts _ _ _) as [l k]. reflexivity.
Qed.

(** C7. After a pass has run, at most 100 rows are [synced]; they are the
    most recently created of the rows that were [synced] when the loop
    ended: their number is the smaller of 100 and the number of those, and
    no synced row the prune dropped is newer than one it kept. The prune
    removes synced rows only: every row that is not [synced] when the loop
    ends, exhausted ones included, is still in the queue, and the prune
    adds nothing. *)
Theorem prune_keeps_newest_hundred (s : St) :
  isSyncing s = false ->
  NoDup (map sq_id (sync_queue (db s))) ->
  let q1 := sync_queue (db (snd (drain_items (select_pending MAX_RETRIES (db s)) 0
                                             (with_isSyncing true s)))) in
  let q' := sync_queue (db (snd (processSyncQueue s))) in
  q' = delete_old_synced q1 /\
  (List.length (filter is_synced q') <= 100)%nat /\
  List.length (filter is_synced q') = Nat.min 100 (List.length (filter is_synced q1)) /\
  (forall kept dropped,
      In kept q' -> sq_status kept = SyncStatus.synced ->
      In dropped q1 -> sq_status dropped = SyncStatus.synced -> ~ In dropped q' ->
      sq_created_at dropped <= sq_created_at kept) /\
  (forall r, In r q1 -> sq_status r <> SyncStatus.synced -> In r q') /\
  (forall r, In r q' -> In r q1).
Proof.
  intros Hs Hnd q1 q'. subst q1 q'. rewrite loop_queue, (pass_queue s Hs).
  set (q1 := apply_attempts _ _).
  assert (Hnd1 : NoDup (map sq_id q1)) by (subst q1; now rewrite apply_attempts_ids).
  split; [reflexivity|]. split; [|split; [|split; [|split]]].
  - rewrite (kept_synced_length q1 Hnd1). apply Nat.le_min_l.
  - now apply kept_synced_length.
  - intros kept dropped Hk Hks Hd Hds Hn.
    apply (kept_synced_newest q1); auto; unfold is_synced; now rewrite ?Hks, ?Hds.
  - intros r Hr Hst. now apply delete_old_synced_keeps_unsynced.
  - intros r. apply delete_old_synced_incl.
Qed.

(** ** A pass in which every delivery succeeds *)

Lemma endpoint_of_type ty :
  exists c e, lookup (SyncType.name ty) endpoints = Some (String c e).
Proof. destruct ty; cbn; eauto. Qed.

Lemma attempts_all_delivered items : forall o k,
  (forall item, In item items ->
     JSON_parse (item_payload item) <> None /\
     exists c e, lookup (item_type item) endpoints = Some (String c e)) ->
  (forall j, exists resp, ans_http (o j) = Resolved resp /\ resp_ok resp = true) ->
  map fst (fst (attempts items o k)) = map item_id items /\
  all_delivered (fst (attempts items o k)).
Proof.
  induction items as [|item items IH]; intros o k Hitems Hhttp; cbn.
  - split; [reflexivity | constructor].
  - destruct (Hitems item (or_introl eq_refl)) as [Hparse (c & e & Hlook)].
    destruct (Hhttp k) as (resp & Hresp & Hok).
    unfold attempt. destruct (JSON_parse (item_payload item)) as [v|]; [|congruence].
    rewrite Hlook, Hresp, Hok. cbn [attempt_continues].
    assert (Hrest : forall it, In it items ->
              JSON_parse (item_payload it) <> None /\
              exists c e, lookup (item_type it) endpoints = Some (String c e))
      by (intros; apply Hitems; now right).
    destruct (IH o (S k) Hrest Hhttp) as [E1 E2].
    destruct (attempts items o (S k)) as [l k2]. cbn in *.
    split; [now rewrite E1 | constructor; cbn; eauto].
Qed.

Lemma count_delivered_all l :
  all_delivered l -> count_delivered l = Z.of_nat (List.length l).
Proof.
  induction 1 as [|p l (u & b & E) H IH]; [reflexivity|].
  cbn [count_delivered List.length]. rewrite E, IH. cbn [attempt_count]. lia.
Qed.

Lemma filter_all {A} (p : A -> bool) l :
  (forall x, In x l -> p x = true) -> filter p l = l.
Proof.
  induction l as [|x l IH]; intros H; cbn; [reflexivity|].
  rewrite (H x (or_introl eq_refl)). f_equal. apply IH. intros; apply H; now right.
Qed.

Lemma filter_none {A} (p : A -> bool) l :
  (forall x, In x l -> p x = false) -> filter p l = [].
Proof.
  induction l as [|x l IH]; intros H; cbn; [reflexivity|].
  rewrite (H x (or_introl eq_refl)). apply IH. intros; apply H; now right.
Qed.

(** C9, as the code has it. A pass over a queue of exactly N pending
    items in which every delivery succeeds returns N and leaves
    [getPendingCount] at 0; the rows left with status [synced] number N
    when N is at most 100, and 100 otherwise, because the pass ends with
    the prune. *)
Theorem drain_of_pending_items (N : nat) (s : St) :
  isSyncing s = false ->
  NoDup (map sq_id (sync_queue (db s))) ->
  List.length (sync_queue (db s)) = N ->
  (forall r, In r (sync_queue (db s)) ->
     sq_status r = SyncStatus.pending /\ sq_retry_count r < MAX_RETRIES /\
     JSON_parse (sq_payload r) <> None) ->
  (forall k, exists resp,
     ans_http (oracle (world s) k) = Resolved resp /\ resp_ok resp = true) ->
  fst (processSyncQueue s) = Returned (Z.of_nat N) /\
  fst (getPendingCount (snd (processSyncQueue s))) = Returned 0 /\
  List.length (filter is_synced (sync_queue (db (snd (processSyncQueue s)))))
  = Nat.min N 100.
Proof.
  intros Hs Hnd Hlen Hrows Hhttp.
  set (q := sync_queue (db s)) in *.
  assert (Hcand : filter (is_candidate MAX_RETRIES) q = q).
  { apply filter_all. intros r Hr. destruct (Hrows r Hr) as (Hp & Hlt & _).
    unfold is_candidate. rewrite Hp. cbn. now apply Z.ltb_lt. }
  set (items := select_pending MAX_RETRIES (db s)).
  assert (Hitems : forall item, In item items ->
            JSON_parse (item_payload item) <> None /\
            exists c e, lookup (item_type item) endpoints = Some (String c e)).
  { intros item Hin. unfold items, select_pending in Hin. apply in_map_iff in Hin.
    destruct Hin as (r & <- & Hr). apply select_candidates_In in Hr.
    destruct Hr as (Hr & _). destruct (Hrows r Hr) as (_ & _ & Hp).
    split; [exact Hp | apply endpoint_of_type]. }
  destruct (attempts_all_delivered items (oracle (world s)) (cursor (world s))
              Hitems Hhttp) as [Hids Hall].
  assert (Hlenl : List.length (fst (attempts items (oracle (world s))
                                              (cursor (world s)))) = N).
  { rewrite <- (length_map fst), Hids. unfold items.
    rewrite select_pending_ids, length_map. unfold select_candidates.
    fold q. now rewrite Hcand, sort_by_length. }
  assert (Hq1 : forall r', In r' (apply_attempts
                   (fst (attempts items (oracle (world s)) (cursor (world s)))) q) ->
                 sq_status r' = SyncStatus.synced).
  { intros r' Hr'. rewrite apply_attempts_map in Hr'. apply in_map_iff in Hr'.
    destruct Hr' as (r & <- & Hr).
    destruct (row_after_cases (fst (attempts items (oracle (world s)) (cursor (world s)))) r)
      as [[Hnin _]|(a & Ha & ->)].
    - apply (pass_attempts_NoDup (db s)); assumption.
    - exfalso. apply Hnin. rewrite Hids. unfold items. rewrite select_pending_ids.
      apply in_map. apply select_candidates_In. destruct (Hrows r Hr) as (Hp & Hlt & _).
      fold q. repeat split; auto.
    - unfold all_delivered in Hall. rewrite Forall_forall in Hall.
      destruct (Hall _ Ha) as (u & b & E).
      cbn in E. now rewrite E. }
  split; [|split].
  - rewrite processSyncQueue_eq, Hs. fold items.
    destruct (attempts items _ _) as [l k] eqn:E. cbn [fst] in *.
    now rewrite count_delivered_all, Hlenl.
  - unfold getPendingCount, gets, count_pending. cbn [fst]. rewrite (pass_queue s Hs).
    fold items q. rewrite filter_none; [reflexivity|].
    intros r Hr. apply delete_old_synced_incl in Hr. now rewrite (Hq1 r Hr).
  - rewrite (pass_queue s Hs). fold items q. rewrite kept_synced_length.
    + rewrite filter_all.
      * unfold apply_attempts. rewrite apply_attempts_map, length_map.
        fold q in Hlen. rewrite Hlen. apply Nat.min_comm.
      * intros r Hr. unfold is_synced. now rewrite (Hq1 r Hr).
    + now rewrite apply_attempts_ids.
Qed.

Lemma reachable_run_ops ops : forall s, reachable s -> reachable (run_ops ops s).
Proof.
  induction ops as [|o ops IH]; intros s H; cbn; [assumption|].
  apply IH. now constructor.
Qed.

(** ** The retry bound *)

Lemma queue_ok_nil : queue_ok [].
Proof. split; constructor. Qed.

Lemma reachable_queue_ok s : reachable s -> queue_ok (sync_queue (db s)).
Proof.
  apply (reachable_keeps queue_ok).
  - intros. now apply queue_ok_insert.
  - intros. now apply queue_ok_pass.
  - apply queue_ok_nil.
Qed.

Lemma exhausted_not_candidate q r :
  exhausted r -> ~ In r (select_candidates MAX_RETRIES q).
Proof.
  intros [Hrc _] H. apply select_candidates_In in H. lia.
Qed.

(** An exhausted row survives a pass as it is. *)
Lemma exhausted_survives_pass r d o k :
  exhausted r ->
  queue_ok (sync_queue d) /\ In r (sync_queue d) ->
  let q' := delete_old_synced
              (apply_attempts (fst (attempts (select_pending MAX_RETRIES d) o k))
                              (sync_queue d)) in
  queue_ok q' /\ In r q'.
Proof.
  intros Hex [Hok Hr] q'. split; [now apply queue_ok_pass|].
  subst q'. apply delete_old_synced_keeps_unsynced.
  - rewrite apply_attempts_map. apply in_map_iff. exists r. split; [|assumption].
    apply row_after_notin. intros Hin.
    apply (exhausted_not_candidate (sync_queue d) r Hex).
    apply (touched_is_candidate d o k); auto. apply Hok.
  - destruct Hex as [_ ->]. discriminate.
Qed.

Lemma exhausted_stays r ops s :
  exhausted r ->
  queue_ok (sync_queue (db s)) -> In r (sync_queue (db s)) ->
  In r (sync_queue (db (run_ops ops s))).
Proof.
  intros Hex Hok Hr.
  apply (keeps_run_ops (fun q => queue_ok q /\ In r q)); [| |now split].
  - intros q id ty payload now [Hq Hin] Hid. split.
    + now apply queue_ok_insert.
    + apply in_or_app. now left.
  - intros d o k H. now apply exhausted_survives_pass.
Qed.

Lemma update_where_In {A} (p : A -> bool) f l x :
  In x l -> p x = true -> In (f x) (update_where p f l).
Proof.
  intros Hx Hp. unfold update_where. apply in_map_iff. exists x. now rewrite Hp.
Qed.

(** C1. In every state the client can reach, every queue row has
    [retry_count <= MAX_RETRIES] (5). The drain's candidates are exactly the
    rows with status [pending] or [failed] and [retry_count] strictly below
    [MAX_RETRIES]. An exhausted row (retry count 5, status [failed]) stays
    in the queue as it is, whatever happens next, and is in no later
    candidate set. One turn of the loop either delivers the item (the row
    becomes [synced], the count grows by one) or fails it: the row becomes
    [failed] and its retry count grows by exactly one. *)
Theorem retry_bound_and_exhaustion (s : St) :
  reachable s ->
  let q := sync_queue (db s) in
  Forall (fun r => sq_retry_count r <= MAX_RETRIES) q /\
  (forall r, In r (select_candidates MAX_RETRIES q) <->
             In r q /\
             (sq_status r = SyncStatus.pending \/ sq_status r = SyncStatus.failed) /\
             sq_retry_count r < MAX_RETRIES) /\
  (forall r ops,
      In r q -> exhausted r ->
      In r (sync_queue (db (run_ops ops s))) /\
      ~ In r (select_candidates MAX_RETRIES (sync_queue (db (run_ops ops s))))) /\
  (forall item c r,
      In r q -> sq_id r = item_id item ->
      let q' := sync_queue (db (snd (drain_item item c s))) in
      exists continue c',
        fst (drain_item item c s) = Returned (continue, c') /\
        ((c' = c + 1 /\ In (set_synced r) q') \/
         (c' = c /\ exists r', In r' q' /\ sq_id r' = sq_id r /\
                               sq_status r' = SyncStatus.failed /\
                               sq_retry_count r' = sq_retry_count r + 1))).
Proof.
  intros Hreach q. pose proof (reachable_queue_ok s Hreach) as Hok. fold q in Hok.
  split; [|split; [|split]].
  - destruct Hok as [_ Hall]. eapply Forall_impl; [|exact Hall]. cbn. intros; lia.
  - intros r. apply select_candidates_In.
  - intros r ops Hr Hex. split.
    + now apply exhausted_stays.
    + now apply exhausted_not_candidate.
  - intros item c r Hr Hid q'. subst q'. rewrite drain_item_eq.
    destruct (attempt item _ _) as [a k]. cbn [fst snd after_attempts db sync_queue
      with_sync_queue apply_attempts fold_left apply_attempt].
    exists (attempt_continues a), (c + attempt_count a). split; [reflexivity|].
    assert (Hin : In (attempt_row a r)
                     (update_where (has_id (item_id item)) (attempt_row a) q))
      by (apply update_where_In; [assumption | now apply has_id_true]).
    destruct a as [u b|req m net]; cbn [attempt_count attempt_row] in *.
    + left. split; [reflexivity | exact Hin].
    + right. split; [lia|]. exists (set_failed m r). now repeat split.
Qed.

(** ** The order of attempts and the fail-fast *)

Lemma failed_event_in_attempts l : forall pre msg x net post,
  (attempts_events l ++ [EvSql DeleteOldSynced])%list
  = (pre ++ EvSql (MarkFailed msg x) :: EvNetInfo net :: post)%list ->
  exists l1 req l2,
    l = (l1 ++ (x, NotDelivered req msg net) :: l2)%list /\
    post = (attempts_events l2 ++ [EvSql DeleteOldSynced])%list.
Proof.
  induction l as [|[id a] l IH]; intros pre msg x net post H.
  - cbn in H. destruct pre as [|e1 [|e2 pre]]; discriminate.
  - unfold attempts_events in H. cbn [flat_map fst snd] in H.
    fold (attempts_events l) in H. rewrite <- app_assoc in H.
    assert (Hrec : forall pre',
              (attempts_events l ++ [EvSql DeleteOldSynced])%list
              = (pre' ++ EvSql (MarkFailed msg x) :: EvNetInfo net :: post)%list ->
              exists l1 req l2,
                (id, a) :: l = (l1 ++ (x, NotDelivered req msg net) :: l2)%list /\
                post = (attempts_events l2 ++ [EvSql DeleteOldSynced])%list).
    { intros pre' H'. destruct (IH _ _ _ _ _ H') as (l1 & req & l2 & -> & ->).
      now exists ((id, a) :: l1), req, l2. }
    destruct a as [u b|[[u b]|] m n]; cbn in H;
      destruct pre as [|e1 [|e2 [|e3 [|e4 pre]]]]; cbn in H;
      try discriminate H.
    + injection H as _ _ _ H. now apply (Hrec []).
    + injection H as _ _ _ H. now apply (Hrec (e4 :: pre)).
    + injection H as _ _ E1 E2 E3 H. subst. now exists [], (Some (u, b)), l.
    + injection H as _ _ _ _ H. now apply (Hrec pre).
    + injection H as _ E1 E2 E3 H. subst. now exists [], None, l.
    + injection H as _ _ _ H. now apply (Hrec []).
    + injection H as _ _ _ H. now apply (Hrec (e4 :: pre)).
Qed.

Lemma marked_in_attempts l st id :
  In (EvSql st) (attempts_events l) ->
  (st = MarkSyncing id \/ st = MarkSynced id \/ exists m, st = MarkFailed m id) ->
  In id (map fst l).
Proof.
  intros Hin Hst. unfold attempts_events in Hin. apply in_flat_map in Hin.
  destruct Hin as ([id' a] & Hp & He). cbn [fst snd] in He.
  apply in_map_iff. exists (id', a). split; [|assumption]. cbn.
  destruct Hst as [->|[->|[m ->]]];
    destruct a as [u b|[[u b]|] m' n]; cbn in He;
    repeat (destruct He as [He|He]; [congruence|]); contradiction.
Qed.

Lemma earlier_in_sorted (cs : list SyncQueueRow) ids x rest c cx :
  StronglySorted (fun a b => sq_created_at a <= sq_created_at b) cs ->
  NoDup (map sq_id cs) ->
  map sq_id cs = (ids ++ x :: rest)%list ->
  In c cs -> In (sq_id c) ids -> In cx cs -> sq_id cx = x ->
  sq_created_at c <= sq_created_at cx.
Proof.
  intros Hs Hnd E Hc Hcid Hcx Hx.
  apply map_eq_app in E. destruct E as (c1 & c2 & -> & E1 & E2).
  destruct c2 as [|cx0 c2]; [discriminate|]. cbn in E2. injection E2 as Ex _.
  assert (Hc1 : In c c1).
  { rewrite <- E1 in Hcid. apply in_map_iff in Hcid. destruct Hcid as (c0 & E0 & H0).
    assert (c0 = c); [|now subst].
    eapply NoDup_ids_inj; eauto. apply in_or_app. now left. }
  assert (cx = cx0).
  { eapply NoDup_ids_inj; eauto; [|congruence]. apply in_or_app. right. now left. }
  subst cx0.
  apply (StronglySorted_app_le
           (fun a b : SyncQueueRow => sq_created_at a <= sq_created_at b)
           c1 (cx :: c2) c cx Hs Hc1). now left.
Qed.

(** C3. Within one pass the items are attempted in the order of the
    SELECT, oldest first: the attempted rows are an initial segment of the
    candidates, which are sorted by creation time. When the delivery of an
    item fails and the connectivity query that follows answers "not
    connected", the pass goes straight to the prune: no row created later
    than the failed one is marked [syncing] or [synced] in that pass, and
    (unless it was already [synced]) it is in the queue afterwards exactly
    as it was. *)
Theorem offline_failure_aborts_pass (s : St) :
  isSyncing s = false ->
  NoDup (map sq_id (sync_queue (db s))) ->
  let q := sync_queue (db s) in
  let s' := snd (processSyncQueue s) in
  exists evs,
    trace s' = (trace s ++ evs)%list /\
    (exists rows rest,
        select_candidates MAX_RETRIES q = (rows ++ rest)%list /\
        attempted evs = map sq_id rows) /\
    StronglySorted (fun a b => sq_created_at a <= sq_created_at b)
                   (select_candidates MAX_RETRIES q) /\
    (forall pre msg x net post rx ry,
        evs = (pre ++ EvSql (MarkFailed msg x) :: EvNetInfo net :: post)%list ->
        truthy (isConnected net) = false ->
        In rx q -> sq_id rx = x ->
        In ry q -> sq_created_at rx < sq_created_at ry ->
        post = [EvSql DeleteOldSynced] /\
        ~ In (sq_id ry) (attempted evs) /\
        ~ In (EvSql (MarkSyncing (sq_id ry))) evs /\
        ~ In (EvSql (MarkSynced (sq_id ry))) evs /\
        (sq_status ry <> SyncStatus.synced -> In ry (sync_queue (db s')))).
Proof.
  intros Hs Hnd q s'.
  set (l := fst (attempts (select_pending MAX_RETRIES (db s))
                          (oracle (world s)) (cursor (world s)))).
  exists (attempts_events l ++ [EvSql DeleteOldSynced])%list.
  assert (Htrace : trace s' = (trace s ++ attempts_events l ++ [EvSql DeleteOldSynced])%list).
  { subst s' l. rewrite processSyncQueue_eq, Hs.
    destruct (attempts _ _ _) as [l k]. reflexivity. }
  assert (Hatt : attempted (attempts_events l ++ [EvSql DeleteOldSynced]) = map fst l).
  { rewrite attempted_app, attempted_attempts_events. cbn. apply app_nil_r. }
  assert (Hpre : exists rest, map sq_id (select_candidates MAX_RETRIES q)
                              = (map fst l ++ rest)%list).
  { subst l q. rewrite <- select_pending_ids. apply attempts_prefix. }
  pose proof (select_candidates_sorted MAX_RETRIES q) as Hsorted.
  pose proof (select_candidates_NoDup MAX_RETRIES q Hnd) as Hcnd.
  split; [exact Htrace|]. split; [|split; [exact Hsorted|]].
  - destruct Hpre as [rest E]. apply map_eq_app in E.
    destruct E as (rows & rest' & E & E1 & _). exists rows, rest'.
    split; [exact E|]. now rewrite Hatt.
  - intros pre msg x net post rx ry Hevs Hoff Hrx Hidx Hry Hlt.
    destruct (failed_event_in_attempts _ _ _ _ _ _ Hevs) as (l1 & req & l2 & El & Epost).
    assert (l2 = []) as ->.
    { eapply (attempts_break (select_pending MAX_RETRIES (db s))); [exact El | exact Hoff]. }
    assert (Hnot : ~ In (sq_id ry) (map fst l)).
    { intros Hin. rewrite El, map_app in Hin. cbn [map fst] in Hin.
      destruct Hpre as [rest Epre]. rewrite El, map_app in Epre. cbn [map fst] in Epre.
      rewrite <- app_assoc in Epre. cbn [app] in Epre.
      assert (Hcx : In rx (select_candidates MAX_RETRIES q)).
      { apply (touched_is_candidate (db s) (oracle (world s)) (cursor (world s))); auto.
        fold l. rewrite El, map_app. apply in_or_app. right. left. cbn.
        symmetry. exact Hidx. }
      apply in_app_or in Hin. destruct Hin as [Hin|[Hin|[]]].
      - assert (Hcy : In ry (select_candidates MAX_RETRIES q)).
        { apply (touched_is_candidate (db s) (oracle (world s)) (cursor (world s))); auto.
          fold l. rewrite El, map_app. apply in_or_app. now left. }
        pose proof (earlier_in_sorted _ _ _ _ ry rx Hsorted Hcnd Epre Hcy Hin Hcx Hidx).
        lia.
      - cbn in Hin. assert (rx = ry).
        { apply (NoDup_ids_inj q rx ry Hnd Hrx Hry). now rewrite Hidx. }
        subst. lia. }
    split; [exact Epost|]. split; [now rewrite Hatt|]. split; [|split].
    + intros Hin. apply in_app_or in Hin. destruct Hin as [Hin|[Hin|[]]]; [|discriminate].
      apply Hnot. eapply marked_in_attempts; eauto.
    + intros Hin. apply in_app_or in Hin. destruct Hin as [Hin|[Hin|[]]]; [|discriminate].
      apply Hnot. eapply marked_in_attempts; eauto.
    + intros Hst. subst s'. rewrite (pass_queue s Hs). fold l.
      apply delete_old_synced_keeps_unsynced; [|assumption].
      rewrite apply_attempts_map. apply in_map_iff. exists ry. split; [|assumption].
      now apply row_after_notin.
Qed.

(** ** [enqueue] *)

Lemma enqueue_eq ty payload s :
  enqueue ty payload s =
  let k := cursor (world s) in
  let text := JSON_stringify (JObject payload) in
  if mem_string (next_id "" (world s) k) (map sq_id (sync_queue (db s)))
  then (Threw (JsError "constraint failed"), after_refused_enqueue ty text k s)
  else (Returned (next_id "" (world s) k), after_enqueue ty text k s).
Proof.
  unfold enqueue, generateId, processSyncQueue_detached, processSyncQueue_enter,
    after_enqueue, after_refused_enqueue, next_id, online.
  m_unfold. st_norm. cbn [exec_stmt append]. st_norm.
  destruct (mem_string _ _); [reflexivity|]. st_norm.
  rewrite <- app_assoc. cbn [app].
  destruct (truthy (isConnected _)), (truthy (isInternetReachable _)),
    (isSyncing s) eqn:E; cbn; st_norm; rewrite ?E; reflexivity.
Qed.

(** C8. [enqueue] writes one new row, [pending] with retry count 0 and
    the serialized payload, and returns its id; the only way it fails is
    the store refusing the row, in which case the store is unchanged.
    Neither the result nor the store it leaves depends on what the
    connectivity query answers. When connectivity is available the drain
    is triggered but not awaited: [enqueue] returns with the guard taken
    and the pass parked (or, when a pass is already in flight, with
    nothing added), the new row still [pending]. *)
Theorem enqueue_persists_and_triggers (ty : SyncType.t)
  (payload : list (string * json)) (s : St) :
  let k := cursor (world s) in
  let id := next_id "" (world s) k in
  let net := ans_net (oracle (world s) (3 + k)) in
  let row := mkSyncQueueRow id ty (JSON_stringify (JObject payload))
               (getTime (ans_now (oracle (world s) (2 + k))) / 1000)
               SyncStatus.pending 0 None in
  let s' := snd (enqueue ty payload s) in
  (~ In id (map sq_id (sync_queue (db s))) ->
     fst (enqueue ty payload s) = Returned id /\
     db s' = with_sync_queue (db s) (sync_queue (db s) ++ [row]) /\
     (online net = true -> isSyncing s = false ->
        isSyncing s' = true /\ detached s' = (detached s ++ [TProcessSyncQueue])%list) /\
     (online net = true -> isSyncing s = true ->
        isSyncing s' = true /\ detached s' = detached s) /\
     (online net = false ->
        isSyncing s' = isSyncing s /\ detached s' = detached s)) /\
  (In id (map sq_id (sync_queue (db s))) ->
     fst (enqueue ty payload s) = Threw (JsError "constraint failed") /\
     db s' = db s /\ isSyncing s' = isSyncing s /\ detached s' = detached s) /\
  (forall e, fst (enqueue ty payload s) = Threw e ->
     In id (map sq_id (sync_queue (db s)))) /\
  (forall other : nat -> NetInfoState,
     fst (enqueue ty payload (with_connectivity other s)) = fst (enqueue ty payload s) /\
     db (snd (enqueue ty payload (with_connectivity other s))) = db s').
Proof.
  cbv zeta. rewrite enqueue_eq. cbv zeta.
  set (id := next_id "" (world s) (cursor (world s))).
  split; [|split; [|split]].
  - intros Hfresh. apply mem_string_not_In in Hfresh. rewrite Hfresh.
    cbn [fst snd after_enqueue db isSyncing detached].
    split; [reflexivity|]. split; [reflexivity|]. split; [|split].
    + intros -> ->. now split.
    + intros -> ->. now split.
    + intros ->. rewrite orb_false_r. now split.
  - intros Hin. apply mem_string_In in Hin. rewrite Hin. now repeat split.
  - intros e. destruct (mem_string id _) eqn:E; [|discriminate].
    intros _. now apply mem_string_In.
  - intros other. rewrite enqueue_eq. cbv zeta.
    unfold with_connectivity, with_world. cbn [world oracle cursor db].
    change (next_id "" _ (cursor (world s))) with id.
    destruct (mem_string id _); now split.
Qed.

(** ** The call lifecycle: connect failure *)

Lemma update_where_call_ids p f (l : list CallLog) :
  (forall c, cl_id (f c) = cl_id c) ->
  map cl_id (update_where p f l) = map cl_id l.
Proof.
  intros Hf. unfold update_where. rewrite map_map. apply map_ext.
  intros c. now destruct (p c).
Qed.

Lemma run_updateCallStatus_task callId st s :
  run_task (TUpdateCallStatus callId st) s =
  (Returned tt,
   mkSt (with_call_logs (db s)
           (update_where (call_has_id callId) (set_call_status st) (call_logs (db s))))
        (world s) (trace s ++ [EvSql (SetCallStatus st callId)])
        (isSyncing s) (activeCallId s) (activeCallSid s) (callStartTime s)
        (eventCallback s) (detached s)).
Proof.
  unfold run_task, updateCallStatus. m_unfold. cbn [exec_stmt]. st_norm.
  reflexivity.
Qed.

(** C5. When the voice backend reports a connect failure for a placed
    call (a call whose row exists), the handler itself writes nothing to
    the store, notifies the caller with [failed] and parks exactly one
    status update. Once that update has run the call's row is there with
    status [failed] and [sync_queue] is as it was before the failure. In
    whatever state the update runs, it changes nothing but the status of
    the rows of that call: it leaves [sync_queue] alone and triggers no
    drain, so no [call_log] item is enqueued for the failed call. *)
Theorem connect_failure_marks_failed_only (callId : string) (s : St) :
  In callId (map cl_id (call_logs (db s))) ->
  let s1 := snd (on_connectFailure callId s) in
  let final := snd (run_task (TUpdateCallStatus callId CallStatus.failed) s1) in
  fst (on_connectFailure callId s) = Returned tt /\
  db s1 = db s /\
  trace s1 = (trace s ++ [EvStatusChange CallStatus.failed callId])%list /\
  detached s1 = (detached s ++ [TUpdateCallStatus callId CallStatus.failed])%list /\
  (exists c, In c (call_logs (db final)) /\ cl_id c = callId) /\
  (forall c, In c (call_logs (db final)) -> cl_id c = callId ->
             cl_status c = CallStatus.failed) /\
  sync_queue (db final) = sync_queue (db s) /\
  (forall s2,
      let s3 := snd (run_task (TUpdateCallStatus callId CallStatus.failed) s2) in
      sync_queue (db s3) = sync_queue (db s2) /\
      detached s3 = detached s2 /\
      isSyncing s3 = isSyncing s2 /\
      call_logs (db s3)
      = update_where (call_has_id callId) (set_call_status CallStatus.failed)
                     (call_logs (db s2))).
Proof.
  intros Hrow s1 final. subst final s1.
  assert (Hall : forall l c,
            In c (update_where (call_has_id callId)
                               (set_call_status CallStatus.failed) l) ->
            cl_id c = callId -> cl_status c = CallStatus.failed).
  { intros l c Hin Hc. unfold update_where in Hin. apply in_map_iff in Hin.
    destruct Hin as (c0 & E & _). destruct (call_has_id callId c0) eqn:Eid.
    - now subst c.
    - subst c0. unfold call_has_id in Eid. rewrite Hc, String.eqb_refl in Eid.
      discriminate. }
  unfold on_connectFailure, updateCallStatus_detached. mrun.
  do 4 (split; [reflexivity|]).
  rewrite run_updateCallStatus_task. st_norm.
  split; [|split; [apply Hall|split; [reflexivity|]]].
  - apply in_map_iff in Hrow. destruct Hrow as (c & Hc & Hin).
    exists (set_call_status CallStatus.failed c). split; [|exact Hc].
    apply in_map_iff. exists c. unfold call_has_id. rewrite Hc, String.eqb_refl.
    now split.
  - intros s2. rewrite run_updateCallStatus_task. st_norm. now repeat split.
Qed.

(** The other way a call fails to connect: the token request or
    [connect] throws inside [makeHotlineCall]. Here too the call is
    reported and marked [failed] and nothing is enqueued. *)
Lemma failed_placement_enqueues_nothing hotlineNumber alertId s :
  TwilioVoice (world s) = true ->
  (exists e, ans_http (oracle (world s) (3 + cursor (world s))) = Rejected e) ->
  let callId := next_id "call-" (world s) (cursor (world s)) in
  ~ In callId (map cl_id (call_logs (db s))) ->
  match alertId with Some a => alert_exists (db s) a = true | None => True end ->
  let s' := snd (makeHotlineCall hotlineNumber alertId s) in
  fst (makeHotlineCall hotlineNumber alertId s) = Returned callId /\
  sync_queue (db s') = sync_queue (db s) /\
  detached s' = (detached s ++ [TUpdateCallStatus callId CallStatus.failed])%list /\
  In (EvStatusChange CallStatus.failed callId) (trace s').
Proof.
  intros Htw [e He] callId Hfresh Hfk. cbv zeta.
  unfold makeHotlineCall, generateId, persistCallLog, fetchTwilioToken,
    updateCallStatus_detached, fetch.
  mrun. change (("call-" ++ Z_to_string _ ++ "-" ++ ans_random _)%string) with callId.
  cbn [exec_stmt cl_id cl_alertId].
  apply mem_string_not_In in Hfresh. rewrite Hfresh.
  assert (Hins : forall d : Db,
            match alertId with
            | Some a => if alert_exists (db s) a then Some d else None
            | None => Some d
            end = Some d).
  { intros d. destruct alertId as [a0|]; [now rewrite Hfk | reflexivity]. }
  rewrite Hins. mrun. rewrite Htw. cbn [negb].
  rewrite run_bind, run_try_catch. mrun.
  cbn [Nat.add] in He. rewrite He. mrun.
  do 3 (split; [reflexivity|]). apply in_or_app. right. now left.
Qed.

(** ** The response producer *)

Lemma captureLocation_fails timeoutMs s :
  location_fails (world s) (cursor (world s)) ->
  captureLocation timeoutMs s
  = (Returned None, with_world (advance (2 + cursor (world s)) (world s)) s).
Proof.
  intros [[e1 H1] H2]. unfold captureLocation.
  rewrite run_try_catch. mrun. rewrite H1. mrun.
  rewrite run_try_catch. mrun.
  destruct H2 as [[e2 H2]|H2]; rewrite H2; mrun; reflexivity.
Qed.

Lemma submitResponse_without_location alertId userId ty s :
  location_fails (world s) (cursor (world s)) ->
  submitResponse alertId userId ty s =
  let k := cursor (world s) in
  let r := response_without_location alertId userId ty (world s) k in
  if mem_string (ur_id r) (map ur_id (user_responses (db s)))
     || negb (alert_exists (db s) alertId)
  then (Threw (JsError "constraint failed"), after_refused_response r k s)
  else
    match enqueue SyncType.user_response (response_payload r)
                  (after_persistResponse r k s) with
    | (Returned _, s') => (Returned r, s')
    | (Threw e, s') => (Threw e, s')
    end.
Proof.
  intros Hloc. unfold submitResponse.
  rewrite run_bind, run_try_catch, (captureLocation_fails _ _ Hloc).
  unfold generateId, persistResponse, response_without_location, next_id,
    after_persistResponse, after_refused_response.
  mrun. cbn [exec_stmt option_map ur_id ur_alertId]. cbv zeta. st_norm.
  destruct (mem_string _ (map ur_id _)); [reflexivity|]. cbn [orb].
  destruct (alert_exists (db s) alertId); cbn [negb]; [|reflexivity].
  rewrite run_bind. st_norm.
  destruct (enqueue _ _ _) as [[id|e] s']; mrun; reflexivity.
Qed.

(** C6, as the code has it. With location capture failing entirely, the
    capture yields [null] instead of throwing, and [submitResponse] goes
    on: provided the store takes its two rows (the alert is stored, the
    generated ids are fresh) it returns the response with null
    coordinates, has persisted it, and has enqueued one [user_response]
    item carrying it. When [submitResponse] does fail, it is the store
    that refused a row; the location failure never makes it fail. *)
Theorem response_without_location_is_persisted (alertId userId : string)
  (ty : UserResponseType.t) (s : St) :
  let k := cursor (world s) in
  let r := response_without_location alertId userId ty (world s) k in
  let qid := next_id "" (world s) (5 + k) in
  let s' := snd (submitResponse alertId userId ty s) in
  location_fails (world s) k ->
  fst (captureLocation 8000 s) = Returned None /\
  (alert_exists (db s) alertId = true ->
   ~ In (ur_id r) (map ur_id (user_responses (db s))) ->
   ~ In qid (map sq_id (sync_queue (db s))) ->
     fst (submitResponse alertId userId ty s) = Returned r /\
     ur_latitude r = None /\ ur_longitude r = None /\
     user_responses (db s') = (user_responses (db s) ++ [r])%list /\
     sync_queue (db s')
     = (sync_queue (db s) ++
        [mkSyncQueueRow qid SyncType.user_response
           (JSON_stringify (JObject (response_payload r)))
           (getTime (ans_now (oracle (world s) (7 + k))) / 1000)
           SyncStatus.pending 0 None])%list) /\
  (forall e, fst (submitResponse alertId userId ty s) = Threw e ->
     e = JsError "constraint failed" /\
     (alert_exists (db s) alertId = false \/
      In (ur_id r) (map ur_id (user_responses (db s))) \/
      In qid (map sq_id (sync_queue (db s))))).
Proof.
  cbv zeta. intros Hloc.
  rewrite (captureLocation_fails _ _ Hloc), (submitResponse_without_location _ _ _ _ Hloc).
  cbv zeta.
  set (r := response_without_location alertId userId ty (world s) (cursor (world s))).
  split; [reflexivity|]. split.
  - intros Hfk Hfresh Hq. apply mem_string_not_In in Hfresh. rewrite Hfresh, Hfk.
    cbn [orb negb]. rewrite enqueue_eq. cbv zeta.
    cbn [world cursor after_persistResponse advance db with_user_responses sync_queue].
    unfold next_id, advance in Hq |- *. cbn [oracle] in *.
    apply mem_string_not_In in Hq. cbn [Nat.add] in Hq |- *. rewrite Hq.
    cbn [fst snd after_enqueue db sync_queue user_responses with_sync_queue
         with_user_responses after_persistResponse].
    repeat split.
  - intros e. destruct (mem_string (ur_id r) _) eqn:E1; cbn [orb].
    { intros [= <-]. split; [reflexivity|]. right. left. now apply mem_string_In. }
    destruct (alert_exists (db s) alertId) eqn:E2; cbn [negb].
    2:{ intros [= <-]. split; [reflexivity|]. now left. }
    rewrite enqueue_eq. cbv zeta.
    cbn [world cursor after_persistResponse advance db with_user_responses sync_queue].
    unfold next_id, advance. cbn [oracle Nat.add].
    destruct (mem_string _ (map sq_id _)) eqn:E3; [|discriminate].
    intros [= <-]. split; [reflexivity|]. right. right. now apply mem_string_In.
Qed.

(** ** The call lifecycle: the end of a call *)

Lemma run_handleCallEnd_task callId endTime dur s :
  run_task (THandleCallEnd callId endTime dur) s =
  let s1 := mkSt (with_call_logs (db s)
                    (update_where (call_has_id callId)
                       (set_call_ended (toISOString endTime) dur) (call_logs (db s))))
                 (world s)
                 (trace s ++ [EvSql (EndCallLog (toISOString endTime) dur callId)])
                 (isSyncing s) (activeCallId s) (activeCallSid s) (callStartTime s)
                 (eventCallback s) (detached s) in
  match enqueue SyncType.call_log (call_end_payload callId endTime dur) s1 with
  | (Returned _, s2) =>
      (Returned tt,
       with_callStartTime None (with_activeCallSid None (with_activeCallId None s2)))
  | (Threw _, s2) => (Returned tt, s2)
  end.
Proof.
  unfold run_task, handleCallEnd_rest, unawaited, call_end_payload.
  rewrite run_try_catch. mrun. cbn [exec_stmt]. cbv zeta. mrun.
  rewrite (run_bind (enqueue _ _)). unfold with_call_logs.
  destruct (enqueue _ _ _) as [[id|e] s']; mrun; reflexivity.
Qed.

(** What a "disconnected" event does to a call, whatever the call's
    persisted status: once the parked remainder has run, the row's end
    time and duration are overwritten and, the store accepting, one more
    [call_log] item is in the queue. *)
Lemma disconnected_event_always_enqueues callId s :
  detached s = [] ->
  let k := cursor (world s) in
  let endTime := ans_now (oracle (world s) k) in
  let dur := match callStartTime s with
             | Some t => Some (round_seconds (getTime endTime - getTime t))
             | None => None
             end in
  let qid := next_id "" (world s) (1 + k) in
  ~ In qid (map sq_id (sync_queue (db s))) ->
  let s' := snd ((on_disconnected callId ;;; run_next) s) in
  call_logs (db s')
  = update_where (call_has_id callId) (set_call_ended (toISOString endTime) dur)
                 (call_logs (db s)) /\
  sync_queue (db s')
  = (sync_queue (db s) ++
     [mkSyncQueueRow qid SyncType.call_log
        (JSON_stringify (JObject (call_end_payload callId endTime dur)))
        (getTime (ans_now (oracle (world s) (3 + k))) / 1000)
        SyncStatus.pending 0 None])%list.
Proof.
  intros Hd. cbv zeta. intros Hfresh.
  unfold on_disconnected, handleCallEnd_detached, handleCallEnd_head, run_next.
  mrun. rewrite Hd. cbn [app]. mrun.
  rewrite run_handleCallEnd_task. cbv zeta. rewrite enqueue_eq. cbv zeta.
  st_norm. unfold next_id in Hfresh |- *. cbn [oracle Nat.add] in *.
  apply mem_string_not_In in Hfresh. rewrite Hfresh.
  cbn [after_enqueue]. st_norm. now split.
Qed.

Lemma enqueues_again_so_not_noop callId s :
  map cl_status (call_logs (db s)) = map (fun _ => CallStatus.disconnected)
                                         (call_logs (db s)) ->
  List.length (sync_queue (db (snd ((on_disconnected callId ;;; settle 4) s))))
  <> List.length (sync_queue (db s)) ->
  ~ redundant_disconnect_is_noop callId s.
Proof.
  intros Hst Hlen H. unfold redundant_disconnect_is_noop in H.
  destruct H as [_ Hq].
  - intros c Hc _. clear Hlen. induction (call_logs (db s)) as [|c0 l IH];
      [contradiction|]. cbn in Hst. injection Hst as H0 Hl.
    destruct Hc as [->|Hc]; auto.
  - apply Hlen. now rewrite Hq.
Qed.

(** ** Payloads through [JSON.stringify] and [JSON.parse] *)

Section JsonRoundTrip.
Context {L : JsNumberLaws JN}.

Lemma append_assoc (a b c : string) : ((a ++ b) ++ c = a ++ (b ++ c))%string.
Proof. induction a as [|x a IH]; cbn; [reflexivity | now rewrite IH]. Qed.

Lemma length_append (a b : string) :
  String.length (a ++ b) = (String.length a + String.length b)%nat.
Proof. induction a as [|x a IH]; cbn; [reflexivity | now rewrite IH]. Qed.

Lemma parse_escape_char c tail :
  parse_string_body (escape_char c ++ tail) =
  match parse_string_body tail with
  | Some (str, rest) => Some (String c str, rest)
  | None => None
  end.
Proof.
  destruct c as [[] [] [] [] [] [] [] []]; cbn; reflexivity.
Qed.

Lemma parse_escaped s : forall rest,
  parse_string_body (escape_chars s ++ String dquote rest) = Some (s, rest).
Proof.
  induction s as [|c s IH]; intros rest.
  - reflexivity.
  - cbn [escape_chars]. rewrite append_assoc, parse_escape_char. now rewrite IH.
Qed.

Lemma parse_quote s rest :
  parse_string_body (escape_chars s ++ String dquote "" ++ rest) = Some (s, rest).
Proof. apply parse_escaped. Qed.


Lemma span_number_append tok : forall rest,
  fst (span_number tok) = tok -> delimits rest ->
  span_number (tok ++ rest) = (tok, rest).
Proof.
  induction tok as [|c tok IH]; intros rest Htok Hrest.
  - cbn. destruct rest as [|c r]; [reflexivity|]. cbn in *. now rewrite Hrest.
  - cbn in *. destruct (is_number_char c) eqn:E; [|discriminate].
    destruct (span_number tok) as [t r] eqn:Es. cbn in Htok. injection Htok as Ht.
    rewrite IH; auto. 
Qed.

Lemma number_start_not_ws c : is_number_start c = true -> is_ws c = false.
Proof. destruct c as [[] [] [] [] [] [] [] []]; cbn; congruence. Qed.

Lemma append_nil_r (a : string) : (a ++ "")%string = a.
Proof. induction a as [|x a IH]; cbn; [reflexivity | now rewrite IH]. Qed.


Lemma number_start_value_start c : is_number_start c = true -> value_start c.
Proof. destruct c as [[] [] [] [] [] [] [] []]; cbn; repeat split; congruence. Qed.

Lemma stringify_head v : exists c r, JSON_stringify v = String c r /\ value_start c.
Proof.
  destruct v as [|[]|n|s|els|ms]; cbn; try (do 2 eexists; split; [reflexivity|]; now repeat split).
  destruct (number_token n) as (c & r & E & Hs & _).
  exists c, r. split; [assumption | now apply number_start_value_start].
Qed.

Lemma stringify_length v : (1 <= String.length (JSON_stringify v))%nat.
Proof. destruct (stringify_head v) as (c & r & E & _). rewrite E. cbn. lia. Qed.

Lemma skip_ws_start c r : is_ws c = false -> skip_ws (String c r) = String c r.
Proof. intros H. cbn. now rewrite H. Qed.

Lemma json_wf_array els x : json_wf (JArray els) -> In x els -> json_wf x.
Proof.
  cbn. induction els as [|y els IH]; [contradiction|].
  intros [Hy Hr] [->|Hin]; auto.
Qed.

Lemma json_depth_array els x : In x els -> (json_depth x < json_depth (JArray els))%nat.
Proof.
  cbn. induction els as [|y els IH]; [contradiction|].
  intros [->|Hin]; [lia|]. specialize (IH Hin). lia.
Qed.

Lemma json_wf_object ms k v :
  json_wf (JObject ms) -> In (k, v) ms -> json_wf v.
Proof.
  cbn. intros [_ H]. induction ms as [|y ms IH]; [contradiction|].
  destruct H as [Hy Hr]. intros [->|Hin]; auto.
Qed.

Lemma json_wf_keys ms : json_wf (JObject ms) -> NoDup (map fst ms).
Proof. cbn. tauto. Qed.

Lemma json_depth_object ms k v :
  In (k, v) ms -> (json_depth v < json_depth (JObject ms))%nat.
Proof.
  cbn. induction ms as [|y ms IH]; [contradiction|].
  intros [->|Hin]; [cbn; lia|]. specialize (IH Hin). lia.
Qed.

Lemma comma_delimits r : delimits (String "," r).
Proof. reflexivity. Qed.

Lemma parse_elements_stringify (pv : string -> option (json * string)) els :
  (forall x rest, In x els -> delimits rest ->
                  pv (JSON_stringify x ++ rest)%string = Some (x, rest)) ->
  els <> [] ->
  forall n acc rest,
    (List.length els <= n)%nat ->
    parse_elements pv n acc
      (join_comma (map JSON_stringify els) ++ String "]" rest)%string
    = Some ((acc ++ els)%list, rest).
Proof.
  induction els as [|x els IH]; intros Hpv Hne n acc rest Hn; [congruence|].
  destruct n as [|n]; [cbn in Hn; lia|].
  destruct els as [|y els].
  - cbn [map join_comma parse_elements].
    rewrite (Hpv x _ (or_introl eq_refl)) by reflexivity.
    reflexivity.
  - cbn [map join_comma parse_elements].
    change (join_comma (JSON_stringify y :: map JSON_stringify els))
      with (join_comma (map JSON_stringify (y :: els))).
    rewrite !append_assoc. cbn [append].
    rewrite (Hpv x _ (or_introl eq_refl)) by reflexivity.
    cbn [skip_ws is_ws N_of_ascii]. cbn.
    rewrite IH.
    + now rewrite <- app_assoc.
    + intros x' rest' Hin. apply Hpv. now right.
    + discriminate.
    + cbn in *. lia.
Qed.

Lemma obj_set_fresh k v acc :
  ~ In k (map fst acc) -> obj_set k v acc = (acc ++ [(k, v)])%list.
Proof.
  induction acc as [|[k' v'] acc IH]; cbn; intros H; [reflexivity|].
  destruct (String.eqb k k') eqn:E.
  - apply String.eqb_eq in E. exfalso. apply H. now left.
  - rewrite IH; [reflexivity|]. intros Hin. apply H. now right.
Qed.


Lemma member_text_app k x tail :
  (member_text (k, x) ++ tail)%string
  = String dquote
      (escape_chars k ++ String dquote (String ":" (JSON_stringify x ++ tail)))%string.
Proof.
  unfold member_text, quote. cbn [fst snd append].
  now rewrite !append_assoc.
Qed.

Lemma parse_members_stringify (pv : string -> option (json * string)) ms :
  (forall k x rest, In (k, x) ms -> delimits rest ->
                    pv (JSON_stringify x ++ rest)%string = Some (x, rest)) ->
  ms <> [] ->
  forall n acc rest,
    (List.length ms <= n)%nat ->
    NoDup (map fst acc ++ map fst ms) ->
    parse_members pv n acc
      (join_comma (map member_text ms) ++ String "}" rest)%string
    = Some ((acc ++ ms)%list, rest).
Proof.
  induction ms as [|[k x] ms IH]; intros Hpv Hne n acc rest Hn Hnd; [congruence|].
  destruct n as [|n]; [cbn in Hn; lia|].
  assert (Hk : ~ In k (map fst acc)).
  { intros Hin. cbn [map fst] in Hnd. apply NoDup_remove_2 in Hnd.
    apply Hnd. apply in_or_app. now left. }
  destruct ms as [|y ms].
  - cbn [map join_comma parse_members]. rewrite member_text_app.
    rewrite skip_ws_start by reflexivity.
    change (N_of_ascii dquote =? 34)%N with true. cbv iota.
    rewrite parse_escaped. rewrite skip_ws_start by reflexivity.
    change (N_of_ascii ":" =? 58)%N with true. cbv iota.
    rewrite (Hpv k x _ (or_introl eq_refl)) by reflexivity.
    rewrite skip_ws_start by reflexivity.
    change (N_of_ascii "}" =? 44)%N with false.
    change (N_of_ascii "}" =? 125)%N with true. cbv iota.
    now rewrite obj_set_fresh.
  - cbn [map join_comma parse_members].
    change (join_comma (member_text y :: map member_text ms))
      with (join_comma (map member_text (y :: ms))).
    rewrite append_assoc, member_text_app.
    rewrite skip_ws_start by reflexivity.
    change (N_of_ascii dquote =? 34)%N with true. cbv iota.
    rewrite parse_escaped. rewrite skip_ws_start by reflexivity.
    change (N_of_ascii ":" =? 58)%N with true. cbv iota.
    rewrite append_assoc. cbn [append].
    rewrite (Hpv k x _ (or_introl eq_refl)) by reflexivity.
    rewrite skip_ws_start by reflexivity.
    change (N_of_ascii "," =? 44)%N with true. cbv iota.
    rewrite obj_set_fresh by assumption.
    rewrite IH.
    + now rewrite <- app_assoc.
    + intros k' x' rest' Hin. apply (Hpv k'). now right.
    + discriminate.
    + cbn in *. lia.
    + rewrite map_app, <- app_assoc. exact Hnd.
Qed.

Lemma json_depth_pos v : (1 <= json_depth v)%nat.
Proof. destruct v; cbn; lia. Qed.

Lemma number_start_dispatch c :
  is_number_start c = true ->
  (N_of_ascii c =? 110)%N = false /\ (N_of_ascii c =? 116)%N = false /\
  (N_of_ascii c =? 102)%N = false /\ (N_of_ascii c =? 34)%N = false /\
  (N_of_ascii c =? 91)%N = false /\ (N_of_ascii c =? 123)%N = false.
Proof. destruct c as [[] [] [] [] [] [] [] []]; cbn; repeat split; congruence. Qed.

Lemma join_comma_head p ps : exists t, join_comma (p :: ps) = (p ++ t)%string.
Proof.
  destruct ps as [|q ps]; cbn.
  - exists ""%string. now rewrite append_nil_r.
  - eexists. reflexivity.
Qed.

Lemma join_comma_length ps :
  (forall p, In p ps -> (1 <= String.length p)%nat) ->
  (List.length ps <= String.length (join_comma ps))%nat.
Proof.
  induction ps as [|p ps IH]; intros H; [cbn; lia|].
  assert (Hp := H p (or_introl eq_refl)).
  destruct ps as [|q ps]; [cbn in *; lia|].
  change (join_comma (p :: q :: ps)) with (p ++ "," ++ join_comma (q :: ps))%string.
  rewrite !length_append.
  assert (IH' : (List.length (q :: ps) <= String.length (join_comma (q :: ps)))%nat)
    by (apply IH; intros; apply H; now right).
  cbn [List.length String.length] in *. lia.
Qed.

Lemma parse_value_stringify : forall fuel v rest,
  (json_depth v <= fuel)%nat -> json_wf v -> delimits rest ->
  parse_value fuel (JSON_stringify v ++ rest)%string = Some (v, rest).
Proof.
  induction fuel as [|fuel IH]; intros v rest Hd Hwf Hrest.
  - pose proof (json_depth_pos v). lia.
  - destruct v as [|[]|n|s|els|ms].
    + reflexivity.
    + reflexivity.
    + reflexivity.
    + destruct (number_token n) as (c & r & E & Hs & Hsp).
      cbn [JSON_stringify]. rewrite E. cbn [append parse_value].
      destruct (number_start_value_start c Hs) as (Hws & _ & _).
      rewrite skip_ws_start by assumption.
      destruct (number_start_dispatch c Hs) as (-> & -> & -> & -> & -> & ->).
      rewrite Hs.
      change (String c (r ++ rest)) with (String c r ++ rest)%string.
      rewrite span_number_append by assumption.
      now rewrite <- E, number_roundtrip.
    + cbn [JSON_stringify quote append parse_value].
      rewrite skip_ws_start by reflexivity. cbn [N_of_ascii dquote].
      change (34 =? 110)%N with false. change (34 =? 116)%N with false.
      change (34 =? 102)%N with false. change (34 =? 34)%N with true. cbv iota.
      rewrite append_assoc. cbn [append]. now rewrite parse_escaped.
    + destruct els as [|x els]; [reflexivity|].
      cbn [JSON_stringify]. rewrite !append_assoc. cbn [append parse_value].
      rewrite skip_ws_start by reflexivity.
      change (N_of_ascii "[" =? 110)%N with false. change (N_of_ascii "[" =? 116)%N with false.
      change (N_of_ascii "[" =? 102)%N with false. change (N_of_ascii "[" =? 34)%N with false.
      change (N_of_ascii "[" =? 91)%N with true. cbv iota.
      set (r := (join_comma (map JSON_stringify (x :: els)) ++ String "]" rest)%string).
      destruct (stringify_head x) as (c0 & r0 & E0 & Hws & Hc & _).
      destruct (join_comma_head (JSON_stringify x) (map JSON_stringify els)) as [t Et].
      assert (Er : r = String c0 (r0 ++ t ++ String "]" rest)).
      { subst r. cbn [map]. rewrite Et, E0. cbn [append]. now rewrite append_assoc. }
      assert (Hsk : skip_ws r = String c0 (r0 ++ t ++ String "]" rest))
        by (rewrite Er; now apply skip_ws_start).
      rewrite Hsk, Hc.
      subst r. rewrite parse_elements_stringify.
      * reflexivity.
      * intros x' rest' Hin Hrest'. apply IH; auto.
        -- pose proof (json_depth_array (x :: els) x' Hin). lia.
        -- now apply (json_wf_array (x :: els)).
      * discriminate.
      * rewrite length_append. 
        pose proof (join_comma_length (map JSON_stringify (x :: els))) as Hl.
        rewrite length_map in Hl. 
        assert (Hall : forall p, In p (map JSON_stringify (x :: els)) -> (1 <= String.length p)%nat).
        { intros p Hp. apply in_map_iff in Hp. destruct Hp as (y & <- & _).
          apply stringify_length. }
        specialize (Hl Hall). lia.
    + destruct ms as [|[k x] ms]; [reflexivity|].
      cbn [JSON_stringify].
      change (map (fun kv : string * json =>
                     (quote (fst kv) ++ ":" ++ JSON_stringify (snd kv))%string)
                  ((k, x) :: ms))
        with (map member_text ((k, x) :: ms)).
      rewrite !append_assoc. cbn [append parse_value].
      rewrite skip_ws_start by reflexivity.
      change (N_of_ascii "{" =? 110)%N with false. change (N_of_ascii "{" =? 116)%N with false.
      change (N_of_ascii "{" =? 102)%N with false. change (N_of_ascii "{" =? 34)%N with false.
      change (N_of_ascii "{" =? 91)%N with false. change (N_of_ascii "{" =? 123)%N with true.
      cbv iota.
      set (r := (join_comma (map member_text ((k, x) :: ms)) ++ String "}" rest)%string).
      destruct (join_comma_head (member_text (k, x)) (map member_text ms)) as [t Et].
      assert (Er : r = String dquote
                         (escape_chars k ++ String dquote
                            (String ":" (JSON_stringify x ++ t ++ String "}" rest)))%string).
      { subst r. cbn [map]. rewrite Et, append_assoc. apply member_text_app. }
      assert (Hsk : skip_ws r = String dquote
                         (escape_chars k ++ String dquote
                            (String ":" (JSON_stringify x ++ t ++ String "}" rest)))%string)
        by (rewrite Er; now apply skip_ws_start).
      rewrite Hsk. change (N_of_ascii dquote =? 125)%N with false. cbv iota.
      subst r. rewrite parse_members_stringify.
      * reflexivity.
      * intros k' x' rest' Hin Hrest'. apply IH; auto.
        -- pose proof (json_depth_object ((k, x) :: ms) k' x' Hin). lia.
        -- now apply (json_wf_object ((k, x) :: ms) k').
      * discriminate.
      * rewrite length_append.
        pose proof (join_comma_length (map member_text ((k, x) :: ms))) as Hl.
        rewrite length_map in Hl.
        assert (Hall : forall p, In p (map member_text ((k, x) :: ms)) ->
                                 (1 <= String.length p)%nat).
        { intros p Hp. apply in_map_iff in Hp. destruct Hp as ([k' y] & <- & _).
          unfold member_text, quote. cbn. lia. }
        specialize (Hl Hall). lia.
      * cbn [map app]. now apply json_wf_keys in Hwf.
Qed.

Lemma json_depth_array_le els m :
  (forall x, In x els -> (json_depth x <= m)%nat) ->
  (json_depth (JArray els) <= S m)%nat.
Proof.
  cbn. induction els as [|x els IH]; intros H; [lia|].
  assert (Hx := H x (or_introl eq_refl)).
  assert (Hr : forall y, In y els -> (json_depth y <= m)%nat) by (intros; apply H; now right).
  specialize (IH Hr). lia.
Qed.

Lemma json_depth_object_le ms m :
  (forall k x, In (k, x) ms -> (json_depth x <= m)%nat) ->
  (json_depth (JObject ms) <= S m)%nat.
Proof.
  cbn. induction ms as [|[k x] ms IH]; intros H; [lia|].
  assert (Hx := H k x (or_introl eq_refl)).
  assert (Hr : forall k' y, In (k', y) ms -> (json_depth y <= m)%nat)
    by (intros k' y Hy; apply (H k'); now right).
  specialize (IH Hr). cbn [snd]. lia.
Qed.

Lemma join_comma_In_length ps p :
  In p ps -> (String.length p <= String.length (join_comma ps))%nat.
Proof.
  induction ps as [|q ps IH]; [contradiction|].
  intros Hin. destruct ps as [|q' ps].
  - destruct Hin as [->|[]]. cbn. lia.
  - change (join_comma (q :: q' :: ps)) with (q ++ "," ++ join_comma (q' :: ps))%string.
    rewrite !length_append. destruct Hin as [->|Hin]; [lia|].
    specialize (IH Hin). lia.
Qed.

Lemma json_depth_le_length : forall n v,
  (json_depth v <= n)%nat -> (json_depth v <= String.length (JSON_stringify v))%nat.
Proof.
  induction n as [|n IH]; intros v Hd.
  - pose proof (json_depth_pos v). lia.
  - destruct v as [|[]|x|s|els|ms];
      try (cbn; lia); try (cbn [json_depth]; apply stringify_length).
    + cbn [JSON_stringify]. rewrite !length_append. cbn [String.length].
      enough (json_depth (JArray els)
              <= S (String.length (join_comma (map JSON_stringify els))))%nat by lia.
      apply json_depth_array_le. intros x Hx.
      pose proof (json_depth_array els x Hx).
      transitivity (String.length (JSON_stringify x)); [apply IH; lia|].
      apply join_comma_In_length. now apply in_map.
    + cbn [JSON_stringify]. rewrite !length_append. cbn [String.length].
      enough (json_depth (JObject ms)
              <= S (String.length
                      (join_comma
                         (map (fun kv : string * json =>
                                 (quote (fst kv) ++ ":" ++ JSON_stringify (snd kv))%string)
                              ms))))%nat by lia.
      apply json_depth_object_le. intros k x Hx.
      pose proof (json_depth_object ms k x Hx).
      transitivity (String.length (JSON_stringify x)); [apply IH; lia|].
      transitivity (String.length (quote k ++ ":" ++ JSON_stringify x)%string).
      * rewrite !length_append. lia.
      * apply join_comma_In_length.
        apply in_map_iff. now exists (k, x).
Qed.

(** Parsing what [JSON.stringify] wrote gives the value back. *)
Lemma JSON_parse_stringify v :
  json_wf v -> JSON_parse (JSON_stringify v) = Some v.
Proof.
  intros Hwf. unfold JSON_parse.
  rewrite <- (append_nil_r (JSON_stringify v)) at 2.
  rewrite parse_value_stringify; [reflexivity| |assumption|exact I].
  pose proof (json_depth_le_length _ v (Nat.le_refl _)). lia.
Qed.

(** C10. A payload with unique keys in its objects survives the queue:
    the row [enqueue] writes carries [JSON.stringify payload]; the drain
    parses that text back to the payload itself; and the request the
    drain sends for the row, to the endpoint of the row's type, has
    exactly [JSON.stringify payload] as its body. *)
Theorem queued_payload_is_delivered_verbatim (ty : SyncType.t)
  (payload : list (string * json)) (s : St) :
  json_wf (JObject payload) ->
  let id := next_id "" (world s) (cursor (world s)) in
  let text := JSON_stringify (JObject payload) in
  ~ In id (map sq_id (sync_queue (db s))) ->
  exists r,
    In r (sync_queue (db (snd (enqueue ty payload s)))) /\
    sq_id r = id /\ sq_type r = ty /\ sq_payload r = text /\
    JSON_parse (sq_payload r) = Some (JObject payload) /\
    forall c s2, exists endpoint rest,
      lookup (SyncType.name ty) endpoints = Some endpoint /\
      trace (snd (drain_item (project_item r) c s2))
      = (trace s2 ++ EvSql (MarkSyncing id)
                  :: EvFetch (baseUrl ++ endpoint) (Some text) :: rest)%list.
Proof.
  intros Hwf id text Hfresh.
  exists (mkSyncQueueRow id ty text
            (getTime (ans_now (oracle (world s) (2 + cursor (world s)))) / 1000)
            SyncStatus.pending 0 None).
  split; [|split; [reflexivity|split; [reflexivity|split; [reflexivity|split]]]].
  - rewrite enqueue_eq. cbv zeta. fold id. apply mem_string_not_In in Hfresh.
    rewrite Hfresh. cbn [snd after_enqueue db with_sync_queue sync_queue].
    apply in_or_app. right. now left.
  - cbn [sq_payload]. now apply JSON_parse_stringify.
  - intros c s2. rewrite drain_item_eq. unfold attempt.
    cbn [project_item item_payload item_type item_id sq_payload sq_type sq_id].
    fold text. unfold text at 1. rewrite (JSON_parse_stringify _ Hwf). fold text.
    destruct (endpoint_of_type ty) as (c0 & e0 & El). rewrite El.
    exists (String c0 e0).
    destruct (ans_http _) as [resp|err]; [destruct (resp_ok resp)|];
      cbn [snd after_attempts trace attempts_events flat_map attempt_events fst];
      eexists; (split; [reflexivity|]); rewrite app_nil_r; reflexivity.
Qed.

End JsonRoundTrip.

(** ** Rows no pass picks up *)

Lemma syncing_not_candidate q r :
  sq_status r = SyncStatus.syncing -> ~ In r (select_candidates MAX_RETRIES q).
Proof.
  intros Hs H. apply select_candidates_In in H. destruct H as (_ & [E|E] & _);
    rewrite Hs in E; discriminate.
Qed.

Lemma syncing_survives_pass r d o k :
  sq_status r = SyncStatus.syncing ->
  queue_ok (sync_queue d) /\ In r (sync_queue d) ->
  let q' := delete_old_synced
              (apply_attempts (fst (attempts (select_pending MAX_RETRIES d) o k))
                              (sync_queue d)) in
  queue_ok q' /\ In r q'.
Proof.
  intros Hs [Hok Hr] q'. split; [now apply queue_ok_pass|].
  subst q'. apply delete_old_synced_keeps_unsynced.
  - rewrite apply_attempts_map. apply in_map_iff. exists r. split; [|assumption].
    apply row_after_notin. intros Hin.
    apply (syncing_not_candidate (sync_queue d) r Hs).
    apply (touched_is_candidate d o k); auto. apply Hok.
  - rewrite Hs. discriminate.
Qed.

Lemma count_pending_filter d :
  count_pending d = Z.of_nat (List.length (filter is_pending (sync_queue d))).
Proof. reflexivity. Qed.

(** X6. A row found in status [syncing] (left there by a pass that was cut
    short) is out of reach of the engine: whatever the client does next,
    the row stays in the queue as it is, no pass selects it, and
    [getPendingCount] counts the other rows only. *)
Theorem syncing_row_is_never_picked_up (r : SyncQueueRow) (ops : list Op) (s : St) :
  sq_status r = SyncStatus.syncing ->
  queue_ok (sync_queue (db s)) -> In r (sync_queue (db s)) ->
  let s' := run_ops ops s in
  In r (sync_queue (db s')) /\
  ~ In (sq_id r) (map item_id (select_pending MAX_RETRIES (db s'))) /\
  fst (getPendingCount s')
  = Returned (Z.of_nat (List.length
       (filter (fun x => is_pending x && negb (has_id (sq_id r) x))
               (sync_queue (db s'))))).
Proof.
  intros Hs Hok Hr s'.
  assert (H : queue_ok (sync_queue (db s')) /\ In r (sync_queue (db s'))).
  { apply (keeps_run_ops (fun q => queue_ok q /\ In r q)); [| |now split].
    - intros q id ty payload now [Hq Hin] Hid. split.
      + now apply queue_ok_insert.
      + apply in_or_app. now left.
    - intros d o k H. now apply syncing_survives_pass. }
  destruct H as [[Hnd _] Hr']. split; [assumption|]. split.
  - rewrite select_pending_ids. intros Hin. apply in_map_iff in Hin.
    destruct Hin as (c & E & Hc).
    assert (Hcq : In c (sync_queue (db s'))) by now apply select_candidates_In in Hc.
    rewrite (NoDup_ids_inj _ _ _ Hnd Hcq Hr' E) in Hc.
    now apply (syncing_not_candidate _ _ Hs) in Hc.
  - unfold getPendingCount, gets. cbn [fst]. rewrite count_pending_filter.
    do 3 f_equal. apply filter_ext_in. intros x Hx.
    destruct (has_id (sq_id r) x) eqn:E; cbn [negb]; [|now rewrite andb_true_r].
    apply has_id_true in E.
    rewrite (NoDup_ids_inj _ _ _ Hnd Hx Hr' E).
    unfold is_pending. now rewrite Hs.
Qed.

(** ** The pending count across a pass *)

Lemma update_where_absent id f (q : list SyncQueueRow) :
  ~ In id (map sq_id q) -> update_where (has_id id) f q = q.
Proof.
  unfold update_where.
  induction q as [|x q IH]; intros H; cbn [map]; [reflexivity|].
  cbn [map] in H. destruct (has_id id x) eqn:E.
  - apply has_id_true in E. exfalso. apply H. now left.
  - rewrite IH; [reflexivity|]. intros Hin. apply H. now right.
Qed.

Definition pendingZ (r : SyncQueueRow) : Z := if is_pending r then 1 else 0.

Lemma pending_cons x q :
  Z.of_nat (List.length (filter is_pending (x :: q)))
  = pendingZ x + Z.of_nat (List.length (filter is_pending q)).
Proof.
  cbn [filter]. unfold pendingZ. destruct (is_pending x); cbn [List.length]; lia.
Qed.

Lemma pending_after_update f q : forall r,
  NoDup (map sq_id q) -> In r q ->
  Z.of_nat (List.length (filter is_pending (update_where (has_id (sq_id r)) f q)))
  = Z.of_nat (List.length (filter is_pending q)) - pendingZ r + pendingZ (f r).
Proof.
  induction q as [|x q IH]; intros r Hnd Hr; [contradiction|].
  cbn [map] in Hnd. inversion Hnd as [|i ids Hx Hnd']; subst.
  change (update_where (has_id (sq_id r)) f (x :: q))
    with ((if has_id (sq_id r) x then f x else x)
          :: update_where (has_id (sq_id r)) f q).
  rewrite !pending_cons.
  destruct (has_id (sq_id r) x) eqn:E.
  - apply has_id_true in E.
    assert (r = x) as ->.
    { destruct Hr as [<-|Hr]; [reflexivity|]. exfalso. apply Hx. rewrite E.
      now apply in_map. }
    rewrite update_where_absent by assumption. lia.
  - apply has_id_false in E. destruct Hr as [<-|Hr]; [congruence|].
    rewrite (IH r Hnd' Hr). lia.
Qed.

Lemma pending_after_attempts l : forall q,
  NoDup (map sq_id q) -> NoDup (map fst l) ->
  (forall id, In id (map fst l) ->
     exists r, In r q /\ sq_id r = id /\ is_pending r = true) ->
  Z.of_nat (List.length (filter is_pending (apply_attempts l q)))
  = Z.of_nat (List.length (filter is_pending q)) - count_delivered l.
Proof.
  induction l as [|[id a] l IH]; intros q Hq Hl Hcand.
  - cbn. lia.
  - cbn [map fst] in Hl. inversion Hl as [|i ids Hid Hl']; subst.
    change (apply_attempts ((id, a) :: l) q)
      with (apply_attempts l (update_where (has_id id) (attempt_row a) q)).
    destruct (Hcand id (or_introl eq_refl)) as (r & Hr & <- & Hp).
    rewrite IH.
    + rewrite (pending_after_update _ _ r Hq Hr). cbn [count_delivered snd].
      unfold pendingZ. rewrite Hp.
      destruct a; cbn [attempt_row attempt_count].
      * change (is_pending (set_synced r)) with false. lia.
      * change (is_pending (set_failed errorMessage r)) with true. lia.
    + rewrite update_where_ids; [assumption|]. intros x. apply attempt_row_id.
    + assumption.
    + intros id' Hin. destruct (Hcand id' (or_intror Hin)) as (r' & Hr' & E' & Hp').
      exists r'. split; [|now split].
      assert (Hne : has_id (sq_id r) r' = false).
      { apply has_id_false. rewrite E'. intros ->. contradiction. }
      unfold update_where. apply in_map_iff. exists r'. now rewrite Hne.
Qed.

Lemma pending_after_prune q :
  filter is_pending (delete_old_synced q) = filter is_pending q.
Proof.
  unfold delete_old_synced. generalize (map sq_id (newest_synced q)) as keep.
  intros keep. induction q as [|x q IH]; [reflexivity|].
  cbn [filter]. destruct (is_synced x) eqn:Es.
  - assert (Hp : is_pending x = false).
    { unfold is_pending, is_synced in *. now destruct (sq_status x). }
    rewrite Hp. destruct (negb _); cbn [filter]; rewrite ?Hp; exact IH.
  - cbn [andb negb filter]. destruct (is_pending x); now rewrite IH.
Qed.

Lemma count_delivered_nonneg l : 0 <= count_delivered l.
Proof.
  induction l as [|[id a] l IH]; cbn [count_delivered snd]; [lia|].
  destruct a; cbn [attempt_count]; lia.
Qed.

Lemma candidates_are_pending d o k id :
  In id (map fst (fst (attempts (select_pending MAX_RETRIES d) o k))) ->
  exists r, In r (sync_queue d) /\ sq_id r = id /\ is_pending r = true.
Proof.
  intros Hin. apply attempts_In_ids in Hin. rewrite select_pending_ids in Hin.
  apply in_map_iff in Hin. destruct Hin as (c & E & Hc).
  apply select_candidates_In in Hc. destruct Hc as (Hq & Hst & _).
  exists c. split; [assumption|]. split; [assumption|].
  unfold is_pending. destruct Hst as [->| ->]; reflexivity.
Qed.

(** What a pass does to the pending count, and what it returns. *)
Lemma pass_pending_count s :
  isSyncing s = false ->
  NoDup (map sq_id (sync_queue (db s))) ->
  exists n,
    fst (processSyncQueue s) = Returned n /\ 0 <= n /\
    count_pending (db (snd (processSyncQueue s))) = count_pending (db s) - n.
Proof.
  intros Hg Hnd. rewrite processSyncQueue_eq, Hg.
  pose proof (pass_attempts_NoDup (db s) (oracle (world s)) (cursor (world s)) Hnd)
    as Hl.
  pose proof (candidates_are_pending (db s) (oracle (world s)) (cursor (world s)))
    as Hc.
  destruct (attempts _ _ _) as [l k]. cbn [fst snd] in *.
  exists (count_delivered l). split; [reflexivity|].
  split; [apply count_delivered_nonneg|].
  rewrite !count_pending_filter. unfold after_pass. st_norm.
  rewrite pending_after_prune. now apply pending_after_attempts.
Qed.


(** ** The guard of the drain *)

Lemma frames_ret {A} (a : A) : frames (ret a).
Proof. now split. Qed.

Lemma frames_throw {A} e : frames (@throw _ A e).
Proof. now split. Qed.

Lemma frames_gets {A} (f : St -> A) : frames (gets f).
Proof. now split. Qed.

Lemma frames_ask : frames ask.
Proof. now split. Qed.

Lemma frames_emit e : frames (emit e).
Proof. now split. Qed.

Lemma frames_modify f :
  (forall s, isSyncing (f s) = isSyncing s /\ detached (f s) = detached s) ->
  frames (modify f).
Proof. intros H s. apply H. Qed.

Lemma frames_bind {A B} (c : M A) (k : A -> M B) :
  frames c -> (forall a, frames (k a)) -> frames (bind c k).
Proof.
  intros Hc Hk s. unfold bind. specialize (Hc s).
  destruct (c s) as [[a|e] s']; cbn [snd] in *; [|assumption].
  destruct (Hk a s') as [H1 H2]. destruct Hc as [H3 H4]. split; congruence.
Qed.

Lemma frames_try_catch {A} (c : M A) (h : JsThrown -> M A) :
  frames c -> (forall e, frames (h e)) -> frames (try_catch c h).
Proof.
  intros Hc Hh s. unfold try_catch. specialize (Hc s).
  destruct (c s) as [[a|e] s']; cbn [snd] in *; [assumption|].
  destruct (Hh e s') as [H1 H2]. destruct Hc as [H3 H4]. split; congruence.
Qed.

Ltac frames_step :=
  lazymatch goal with
  | |- frames (bind _ _) => apply frames_bind; [|intros ?]
  | |- frames (try_catch _ _) => apply frames_try_catch; [|intros ?]
  | |- frames (ret _) => apply frames_ret
  | |- frames (throw _) => apply frames_throw
  | |- frames (gets _) => apply frames_gets
  | |- frames ask => apply frames_ask
  | |- frames (emit _) => apply frames_emit
  | |- frames (modify _) => apply frames_modify; intros ?; split; reflexivity
  | |- frames (if ?b then _ else _) => destruct b
  | |- frames (match ?x with _ => _ end) => destruct x
  end.

Ltac frames_auto := repeat frames_step; auto.

Lemma frames_runAsync stmt : frames (runAsync stmt).
Proof. unfold runAsync. frames_auto. Qed.

Lemma frames_fetch url body : frames (fetch url body).
Proof. unfold fetch. frames_auto. Qed.

Lemma frames_NetInfo_fetch : frames NetInfo_fetch.
Proof. unfold NetInfo_fetch. frames_auto. Qed.

Lemma frames_generateId prefix : frames (generateId prefix).
Proof. unfold generateId. frames_auto. Qed.

Lemma frames_captureLocation t : frames (captureLocation t).
Proof. unfold captureLocation. frames_auto. Qed.

Lemma frames_fetchTwilioToken : frames fetchTwilioToken.
Proof.
  unfold fetchTwilioToken, JSON_parse_throwing. frames_auto; auto using frames_fetch.
Qed.

Lemma frames_handleCallEnd_head : frames handleCallEnd_head.
Proof. unfold handleCallEnd_head. frames_auto. Qed.

Lemma guards_frames {A} (c : M A) : frames c -> guards c.
Proof.
  intros H s Hs. destruct (H s) as [H1 H2]. unfold guard_ok, parked_passes in *.
  now rewrite H1, H2.
Qed.

Lemma guards_bind {A B} (c : M A) (k : A -> M B) :
  guards c -> (forall a, guards (k a)) -> guards (bind c k).
Proof.
  intros Hc Hk s Hs. unfold bind. specialize (Hc s Hs).
  destruct (c s) as [[a|e] s']; cbn [snd] in *; [now apply Hk | assumption].
Qed.

Lemma guards_try_catch {A} (c : M A) (h : JsThrown -> M A) :
  guards c -> (forall e, guards (h e)) -> guards (try_catch c h).
Proof.
  intros Hc Hh s Hs. unfold try_catch. specialize (Hc s Hs).
  destruct (c s) as [[a|e] s']; cbn [snd] in *; [assumption | now apply Hh].
Qed.

Lemma parked_passes_app s t :
  List.length (filter is_pass (detached s ++ [t]))
  = (parked_passes s + if is_pass t then 1 else 0)%nat.
Proof.
  unfold parked_passes. rewrite filter_app, length_app. cbn [filter].
  now destruct (is_pass t).
Qed.

Lemma guards_park t : is_pass t = false -> guards (park t).
Proof.
  intros Ht s Hs. unfold guard_ok in *. unfold parked_passes at 1.
  cbn [park modify snd with_detached detached isSyncing].
  rewrite parked_passes_app, Ht. now rewrite Nat.add_0_r.
Qed.

Lemma guards_processSyncQueue_detached : guards processSyncQueue_detached.
Proof.
  intros s Hs. unfold processSyncQueue_detached, processSyncQueue_enter.
  rewrite bind_bind, bind_gets. unfold guard_ok in *.
  destruct (isSyncing s) eqn:E.
  - rewrite bind_ret, run_ret. cbn [snd]. now rewrite E.
  - rewrite bind_bind, bind_modify, bind_ret, run_park.
    unfold parked_passes at 1. cbn [snd]. st_norm.
    rewrite parked_passes_app, Hs. reflexivity.
Qed.

Lemma guards_processSyncQueue : guards processSyncQueue.
Proof.
  intros s Hs. rewrite processSyncQueue_eq. unfold guard_ok in *.
  destruct (isSyncing s) eqn:E; [cbn [snd]; now rewrite E|].
  destruct (attempts _ _ _) as [l k]. exact Hs.
Qed.

Ltac guards_step :=
  lazymatch goal with
  | |- guards (bind _ _) => apply guards_bind; [|intros ?]
  | |- guards (try_catch _ _) => apply guards_try_catch; [|intros ?]
  | |- guards (ret _) => apply guards_frames, frames_ret
  | |- guards (throw _) => apply guards_frames, frames_throw
  | |- guards (gets _) => apply guards_frames, frames_gets
  | |- guards ask => apply guards_frames, frames_ask
  | |- guards (emit _) => apply guards_frames, frames_emit
  | |- guards (modify _) =>
      apply guards_frames, frames_modify; intros ?; split; reflexivity
  | |- guards (runAsync _) => apply guards_frames, frames_runAsync
  | |- guards (park _) => apply guards_park; reflexivity
  | |- guards processSyncQueue_detached => apply guards_processSyncQueue_detached
  | |- guards processSyncQueue => apply guards_processSyncQueue
  | |- guards (if ?b then _ else _) => destruct b
  | |- guards (match ?x with _ => _ end) => destruct x
  end.

Ltac guards_auto := repeat guards_step; auto.

Lemma guards_enqueue ty payload : guards (enqueue ty payload).
Proof.
  unfold enqueue. guards_auto;
    auto using guards_frames, frames_generateId, frames_NetInfo_fetch.
Qed.

Lemma guards_submitResponse a u r : guards (submitResponse a u r).
Proof.
  unfold submitResponse, persistResponse. guards_auto;
    auto using guards_frames, frames_generateId, frames_captureLocation,
      guards_enqueue.
Qed.

Lemma guards_handleCallEnd_rest c t d : guards (handleCallEnd_rest c t d).
Proof. unfold handleCallEnd_rest. guards_auto; auto using guards_enqueue. Qed.

Lemma guards_handleCallEnd_detached c : guards (handleCallEnd_detached c).
Proof.
  unfold handleCallEnd_detached. guards_auto;
    auto using guards_frames, frames_handleCallEnd_head.
Qed.

Lemma guards_makeHotlineCall n a : guards (makeHotlineCall n a).
Proof.
  unfold makeHotlineCall, persistCallLog, updateCallStatus_detached.
  guards_auto; auto using guards_frames, frames_generateId, frames_fetchTwilioToken.
Qed.

Lemma guards_endCall : guards endCall.
Proof. unfold endCall. guards_auto; auto using guards_handleCallEnd_detached. Qed.

(** Resuming the oldest parked remainder. A parked pass holds the guard;
    it runs with the guard held and releases it. *)
Lemma guards_run_next : guards run_next.
Proof.
  intros s Hs. unfold run_next. rewrite bind_gets.
  destruct (detached s) as [|t rest] eqn:Ed; [now rewrite run_ret|].
  rewrite bind_modify.
  assert (Hrest : forall s1, detached s1 = rest -> isSyncing s1 = isSyncing s ->
            is_pass t = false -> guard_ok s1).
  { intros s1 H1 H2 Ht. unfold guard_ok, parked_passes in *.
    rewrite H1, H2, <- Hs, Ed. cbn [filter]. now rewrite Ht. }
  destruct t as [|callId st|callId endTime dur].
  - unfold run_task, unawaited. rewrite run_try_catch, run_bind,
      processSyncQueue_pass_eq.
    destruct (attempts _ _ _) as [l k]. rewrite run_ret. cbn [snd].
    unfold guard_ok, parked_passes in *. unfold after_pass. st_norm.
    rewrite Ed in Hs. cbn [filter is_pass List.length] in Hs.
    destruct (isSyncing s); [now injection Hs | discriminate Hs].
  - assert (G : guards (run_task (TUpdateCallStatus callId st))).
    { unfold run_task, unawaited, updateCallStatus. guards_auto. }
    apply G. now apply Hrest.
  - assert (G : guards (run_task (THandleCallEnd callId endTime dur))).
    { unfold run_task, unawaited. guards_auto. apply guards_handleCallEnd_rest. }
    apply G. now apply Hrest.
Qed.

Lemma guards_run_op o : guards (run_op o).
Proof.
  destruct o; unfold run_op, unawaited, getPendingCount, onNetInfoChange,
    on_connected, on_disconnected, on_connectFailure, handleCallCancelled,
    handleCallKeepEndCall, updateCallStatus_detached;
    try apply guards_run_next;
    guards_auto;
    auto using guards_enqueue, guards_submitResponse, guards_makeHotlineCall,
      guards_endCall, guards_handleCallEnd_detached.
Qed.

Lemma reachable_guard_ok s : reachable s -> guard_ok s.
Proof.
  induction 1 as [w|s o Hr IH]; [reflexivity | now apply guards_run_op].
Qed.

(** Resuming a parked remainder never throws and uses up parked work. *)
Lemma run_next_returns s : fst (run_next s) = Returned tt.
Proof.
  unfold run_next. rewrite bind_gets.
  destruct (detached s) as [|t rest]; [reflexivity|].
  rewrite bind_modify.
  destruct t; unfold run_task, unawaited; rewrite run_try_catch, run_bind;
    match goal with |- context [match ?c ?x with _ => _ end] =>
      destruct (c x) as [[a|e] s'] end; reflexivity.
Qed.

Lemma run_next_work s :
  detached s <> [] -> (parked_work (snd (run_next s)) < parked_work s)%nat.
Proof.
  intros Hne. unfold run_next. rewrite bind_gets.
  destruct (detached s) as [|t rest] eqn:Ed; [contradiction|].
  rewrite bind_modify. unfold parked_work at 2. rewrite Ed.
  cbn [map list_sum fold_right].
  change (fold_right Nat.add 0%nat (map task_weight rest))
    with (list_sum (map task_weight rest)).
  destruct t as [|callId st|callId endTime dur].
  - unfold run_task, unawaited. rewrite run_try_catch, run_bind,
      processSyncQueue_pass_eq.
    destruct (attempts _ _ _) as [l k]. rewrite run_ret. cbn [snd].
    unfold parked_work, after_pass. st_norm. cbn [task_weight]. lia.
  - rewrite run_updateCallStatus_task. cbn [snd]. unfold parked_work. st_norm.
    cbn [task_weight]. lia.
  - rewrite run_handleCallEnd_task. cbv zeta. rewrite enqueue_eq. cbv zeta.
    destruct (mem_string _ _); cbn [snd]; unfold parked_work, after_enqueue,
      after_refused_enqueue; st_norm; cbn [task_weight]; [lia|].
    destruct (online _ && negb (isSyncing s)); [|lia].
    rewrite map_app, list_sum_app. cbn. lia.
Qed.

Lemma parked_work_zero s : parked_work s = 0%nat -> detached s = [].
Proof.
  unfold parked_work. destruct (detached s) as [|t rest]; [reflexivity|].
  cbn. destruct t; cbn; lia.
Qed.

Lemma settle_empties fuel : forall s,
  (parked_work s <= fuel)%nat -> detached (snd (settle fuel s)) = [].
Proof.
  induction fuel as [|fuel IH]; intros s Hw.
  - cbn. apply parked_work_zero. lia.
  - cbn [settle]. rewrite bind_gets.
    destruct (detached s) as [|t rest] eqn:Ed; [now rewrite run_ret|].
    rewrite run_bind. pose proof (run_next_returns s) as Hr.
    assert (Hne : detached s <> []) by (rewrite Ed; discriminate).
    pose proof (run_next_work s Hne) as Hlt.
    destruct (run_next s) as [[u|e] s1]; [|discriminate Hr].
    cbn [snd] in Hlt. apply IH. lia.
Qed.

Lemma guards_settle fuel : guards (settle fuel).
Proof.
  induction fuel as [|fuel IH]; cbn [settle]; [apply guards_frames, frames_ret|].
  apply guards_bind; [apply guards_frames, frames_gets|]. intros tasks.
  destruct tasks; [apply guards_frames, frames_ret|].
  apply guards_bind; [apply guards_run_next | intros _; exact IH].
Qed.

(** X1. In every state the client can reach, the guard of the drain is held
    exactly while one pass is parked: there is never more than one pass
    in flight, and the guard is never held with no pass to release it. *)
Theorem at_most_one_drain_in_flight (s : St) :
  reachable s ->
  (parked_passes s <= 1)%nat /\
  (isSyncing s = true <-> In TProcessSyncQueue (detached s)).
Proof.
  intros Hr. pose proof (reachable_guard_ok s Hr) as H. unfold guard_ok in H.
  split; [destruct (isSyncing s); lia|].
  unfold parked_passes in H. split.
  - intros E. rewrite E in H.
    destruct (filter is_pass (detached s)) as [|t l] eqn:Ef; [discriminate H|].
    assert (Ht : In t (filter is_pass (detached s))) by (rewrite Ef; now left).
    apply filter_In in Ht. destruct Ht as [Hin Hp]. now destruct t.
  - intros Hin. destruct (isSyncing s); [reflexivity|].
    assert (Ht : In TProcessSyncQueue (filter is_pass (detached s)))
      by now apply filter_In.
    destruct (filter is_pass (detached s)); [contradiction | discriminate H].
Qed.

(** X2. The guard cannot stay held: once the parked remainders have run,
    nothing is parked and the guard is free, so the next trigger starts a
    pass. *)
Theorem guard_is_released_when_settled (s : St) :
  reachable s ->
  let s' := snd (settle (parked_work s) s) in
  detached s' = [] /\ isSyncing s' = false /\
  fst (processSyncQueue_enter s') = Returned true.
Proof.
  intros Hr s'.
  assert (Hd : detached s' = []) by (apply settle_empties; lia).
  assert (Hg : guard_ok s') by (apply guards_settle; now apply reachable_guard_ok).
  unfold guard_ok, parked_passes in Hg. rewrite Hd in Hg. cbn in Hg.
  assert (Hs : isSyncing s' = false) by (destruct (isSyncing s'); [discriminate|reflexivity]).
  split; [assumption|]. split; [assumption|].
  unfold processSyncQueue_enter. rewrite bind_gets, Hs. reflexivity.
Qed.

(** X5. A pass lowers the pending count by exactly the number it returns:
    every delivered item leaves the count, an item that failed stays in
    it, and the prune that ends the pass removes no pending item. *)
Theorem pass_lowers_pending_by_delivered (s : St) :
  isSyncing s = false ->
  NoDup (map sq_id (sync_queue (db s))) ->
  exists before n,
    fst (getPendingCount s) = Returned before /\
    fst (processSyncQueue s) = Returned n /\
    0 <= n <= before /\
    fst (getPendingCount (snd (processSyncQueue s))) = Returned (before - n).
Proof.
  intros Hg Hnd. destruct (pass_pending_count s Hg Hnd) as (n & Hn & H0 & Hc).
  exists (count_pending (db s)), n. split; [reflexivity|]. split; [assumption|].
  split.
  - split; [assumption|].
    assert (0 <= count_pending (db (snd (processSyncQueue s))))
      by (rewrite count_pending_filter; lia).
    lia.
  - unfold getPendingCount, gets. cbn [fst]. now rewrite Hc.
Qed.

(** X4. The background task never throws and never reports [Failed]: a
    delivery that fails is recorded in its row, not raised. While another
    pass holds the guard it reports [NoData] and touches nothing;
    otherwise it reports [NewData] exactly when the pending count went
    down. *)
Theorem background_task_reports_progress (s : St) :
  NoDup (map sq_id (sync_queue (db s))) ->
  exists r,
    fst (backgroundSyncTask s) = Returned r /\
    r <> BackgroundFetchResult.Failed /\
    (isSyncing s = true ->
       r = BackgroundFetchResult.NoData /\ snd (backgroundSyncTask s) = s) /\
    (isSyncing s = false ->
       (r = BackgroundFetchResult.NewData <->
        count_pending (db (snd (backgroundSyncTask s))) < count_pending (db s))).
Proof.
  intros Hnd. unfold backgroundSyncTask. rewrite run_try_catch, run_bind.
  destruct (isSyncing s) eqn:Hg.
  - rewrite processSyncQueue_eq, Hg, run_ret. cbn [fst snd].
    exists BackgroundFetchResult.NoData. repeat split; try discriminate.
  - destruct (pass_pending_count s Hg Hnd) as (n & Hn & H0 & Hc).
    destruct (processSyncQueue s) as [[m|e] s1]; cbn [fst snd] in *;
      [|discriminate Hn].
    injection Hn as ->. rewrite run_ret. cbn [fst snd].
    destruct (n >? 0) eqn:En.
    + exists BackgroundFetchResult.NewData. split; [reflexivity|].
      split; [discriminate|]. split; [discriminate|]. intros _.
      split; [intros _; lia | reflexivity].
    + exists BackgroundFetchResult.NoData. split; [reflexivity|].
      split; [discriminate|]. split; [discriminate|]. intros _.
      split; [discriminate | lia].
Qed.

(** ** The connectivity listener *)

(** X3. The listener [initialize] registers with NetInfo. A change to a state
    that is not both connected and known to reach the internet (a [null]
    reachability included) does nothing at all. A change to online takes
    the guard and parks one pass; resumed, it is the pass an awaited
    [processSyncQueue] would have made, and it leaves the guard free. While
    a pass is in flight the change does nothing. *)
Theorem coming_online_runs_one_pass (state : NetInfoState) (s : St) :
  (online state = false -> onNetInfoChange state s = (Returned tt, s)) /\
  (isSyncing s = true -> onNetInfoChange state s = (Returned tt, s)) /\
  (online state = true -> isSyncing s = false ->
   onNetInfoChange state s
   = (Returned tt,
      with_detached (detached s ++ [TProcessSyncQueue])%list (with_isSyncing true s)) /\
   (detached s = [] ->
    (onNetInfoChange state ;;; run_next) s = (Returned tt, snd (processSyncQueue s)) /\
    isSyncing (snd (processSyncQueue s)) = false)).
Proof.
  unfold online, onNetInfoChange. split; [|split].
  - now intros ->.
  - intros Hg. destruct (_ && _); [|reflexivity].
    unfold processSyncQueue_detached, processSyncQueue_enter.
    now rewrite bind_bind, bind_gets, Hg.
  - intros -> Hg.
    assert (E : processSyncQueue_detached s
                = (Returned tt,
                   with_detached (detached s ++ [TProcessSyncQueue])%list
                                 (with_isSyncing true s))).
    { unfold processSyncQueue_detached, processSyncQueue_enter.
      now rewrite bind_bind, bind_gets, Hg, bind_bind, bind_modify, bind_ret, run_park. }
    split; [exact E|]. intros Hd. rewrite run_bind, E.
    unfold run_next. rewrite bind_gets. st_norm. rewrite Hd. cbn [app].
    rewrite bind_modify. unfold run_task, unawaited.
    rewrite run_try_catch, run_bind. rewrite processSyncQueue_pass_eq.
    rewrite processSyncQueue_eq, Hg. st_norm.
    destruct (attempts _ _ _) as [l k]. rewrite run_ret. cbn [snd].
    split; [|reflexivity]. f_equal. unfold after_pass. st_norm. now rewrite Hd.
Qed.

(** ** Items that cannot be sent *)


(** ** Placing a call *)

Lemma insert_call_accepted (alertId : option string) (d d' : Db) :
  match alertId with Some a => alert_exists d a = true | None => True end ->
  match alertId with
  | Some a => if alert_exists d a then Some d' else None
  | None => Some d'
  end = Some d'.
Proof. destruct alertId as [a|]; [intros ->|]; reflexivity. Qed.

(** X9. Without the voice SDK [makeHotlineCall] hands the number to the
    native dialer: it stores the call as [connecting], reports
    [connecting], opens the [tel:] URL and does nothing else. No token is
    requested, no voice connection is made, nothing is queued or parked;
    the call stays the active one, started at the time the row gives. A
    dialer that refuses the URL makes the call throw, after the row was
    stored. *)
Theorem dialer_fallback_without_sdk (hotlineNumber : string)
  (alertId : option string) (s : St) :
  TwilioVoice (world s) = false ->
  let k := cursor (world s) in
  let callId := next_id "call-" (world s) k in
  let row := mkCallLog callId alertId "" hotlineNumber
               (toISOString (ans_now (oracle (world s) (2 + k))))
               None None None CallStatus.connecting None in
  ~ In callId (map cl_id (call_logs (db s))) ->
  match alertId with Some a => alert_exists (db s) a = true | None => True end ->
  let s' := snd (makeHotlineCall hotlineNumber alertId s) in
  fst (makeHotlineCall hotlineNumber alertId s)
  = match ans_openURL (oracle (world s) (3 + k)) with
    | Resolved _ => Returned callId
    | Rejected e => Threw e
    end /\
  call_logs (db s') = (call_logs (db s) ++ [row])%list /\
  trace s' = (trace s ++ [EvSql (InsertCallLog row);
                          EvStatusChange CallStatus.connecting callId;
                          EvOpenURL ("tel:" ++ hotlineNumber)])%list /\
  sync_queue (db s') = sync_queue (db s) /\
  detached s' = detached s /\
  activeCallId s' = Some callId /\
  activeCallSid s' = activeCallSid s /\
  callStartTime s' = Some (ans_now (oracle (world s) (2 + k))).
Proof.
  intros Htw. cbv zeta. intros Hfresh Hfk.
  unfold makeHotlineCall, generateId, persistCallLog.
  mrun. unfold next_id in *. cbn [exec_stmt cl_id cl_alertId].
  apply mem_string_not_In in Hfresh. rewrite Hfresh.
  rewrite (insert_call_accepted alertId (db s) _ Hfk).
  mrun. rewrite Htw. cbn [negb]. mrun. cbn [Nat.add].
  destruct (ans_openURL _); mrun; cbn [fst snd]; st_norm;
    rewrite <- !app_assoc; cbn [app]; repeat split; reflexivity.
Qed.

(** X10. With the voice SDK present, [makeHotlineCall] throws only when the
    store refuses the call's row. Once the row is stored it returns the
    call id whatever happens to the token request and to the connection:
    either the connection was asked for and its sid recorded, or the
    failure was caught, reported as [failed] and one status update
    parked. In both cases the call stays the active one and nothing is
    queued for sync. *)
Theorem placement_failure_is_reported_not_thrown (hotlineNumber : string)
  (alertId : option string) (s : St) :
  TwilioVoice (world s) = true ->
  let k := cursor (world s) in
  let callId := next_id "call-" (world s) k in
  let row := mkCallLog callId alertId "" hotlineNumber
               (toISOString (ans_now (oracle (world s) (2 + k))))
               None None None CallStatus.connecting None in
  ~ In callId (map cl_id (call_logs (db s))) ->
  match alertId with Some a => alert_exists (db s) a = true | None => True end ->
  let s' := snd (makeHotlineCall hotlineNumber alertId s) in
  fst (makeHotlineCall hotlineNumber alertId s) = Returned callId /\
  call_logs (db s') = (call_logs (db s) ++ [row])%list /\
  sync_queue (db s') = sync_queue (db s) /\
  activeCallId s' = Some callId /\
  callStartTime s' = Some (ans_now (oracle (world s) (2 + k))) /\
  ((exists sid,
      ans_connect (oracle (world s) (4 + k)) = Resolved sid /\
      activeCallSid s' = sid /\
      detached s' = detached s /\
      In (EvVoiceConnect hotlineNumber
            (match alertId with Some x => x | None => "" end) callId) (trace s') /\
      ~ In (EvStatusChange CallStatus.failed callId) (skipn (List.length (trace s)) (trace s')))
   \/
   (activeCallSid s' = activeCallSid s /\
    detached s' = (detached s ++ [TUpdateCallStatus callId CallStatus.failed])%list /\
    exists evs, trace s' = (evs ++ [EvStatusChange CallStatus.failed callId])%list)).
Proof.
  intros Htw. cbv zeta. intros Hfresh Hfk.
  unfold makeHotlineCall, generateId, persistCallLog, fetchTwilioToken,
    updateCallStatus_detached, fetch, JSON_parse_throwing.
  mrun. unfold next_id in *. cbn [exec_stmt cl_id cl_alertId].
  apply mem_string_not_In in Hfresh. rewrite Hfresh.
  rewrite (insert_call_accepted alertId (db s) _ Hfk).
  mrun. rewrite Htw. cbn [negb].
  rewrite run_bind, run_try_catch. mrun. cbn [Nat.add].
  set (callId := ("call-" ++ _)%string).
  destruct (ans_http _) as [resp|e1].
  2:{ mrun. repeat (split; [reflexivity|]). right.
      repeat (split; [reflexivity|]). eexists. reflexivity. }
  mrun. destruct (resp_ok resp); cbn [negb].
  2:{ mrun. repeat (split; [reflexivity|]). right.
      repeat (split; [reflexivity|]). eexists. reflexivity. }
  destruct (JSON_parse (resp_body resp)) as [data|].
  2:{ mrun. repeat (split; [reflexivity|]). right.
      repeat (split; [reflexivity|]). eexists. reflexivity. }
  mrun.
  destruct data; mrun;
    try (destruct (ans_connect _) as [sid|e2]; mrun;
         [ repeat (split; [reflexivity|]); left; exists sid;
           repeat (split; [reflexivity|]); split;
           [ apply in_or_app; right; now left
           | rewrite <- !app_assoc, skipn_app, skipn_all, Nat.sub_diag; cbn;
             intros [H|[H|[H|[H|[]]]]]; discriminate H ]
         | repeat (split; [reflexivity|]); right;
           repeat (split; [reflexivity|]); eexists; reflexivity ]).
  repeat (split; [reflexivity|]). right.
  repeat (split; [reflexivity|]). eexists. reflexivity.
Qed.

(** ** The end of a call, continued *)

Lemma endCall_idle s :
  activeCallId s = None -> activeCallSid s = None -> endCall s = (Returned tt, s).
Proof.
  intros Hid Hsid. unfold endCall. mrun. rewrite Hsid.
  cbn [truthy_string]. rewrite andb_false_r. mrun. rewrite Hid. mrun. reflexivity.
Qed.

(** X11. Once the handling of a call's end has completed (its [call_log] item
    was accepted by the queue), the service holds no active call, and
    [endCall] does nothing at all: no event, no write, nothing parked. *)
Theorem endCall_after_completed_end_is_noop (callId : string) (endTime : JsDate)
  (dur : option Z) (s : St) :
  ~ In (next_id "" (world s) (cursor (world s))) (map sq_id (sync_queue (db s))) ->
  let s' := snd (run_task (THandleCallEnd callId endTime dur) s) in
  activeCallId s' = None /\ activeCallSid s' = None /\ callStartTime s' = None /\
  endCall s' = (Returned tt, s').
Proof.
  intros Hfresh s'.
  assert (H : activeCallId s' = None /\ activeCallSid s' = None /\
              callStartTime s' = None).
  { subst s'. rewrite run_handleCallEnd_task. cbv zeta. rewrite enqueue_eq.
    cbv zeta. st_norm. apply mem_string_not_In in Hfresh. rewrite Hfresh.
    cbn [snd]. now repeat split. }
  destruct H as (H1 & H2 & H3). repeat split; try assumption.
  now apply endCall_idle.
Qed.

Lemma round_seconds_bounds ms :
  -500 < 1000 * round_seconds ms - ms <= 500.
Proof.
  unfold round_seconds.
  pose proof (Z.div_mod (ms + 500) 1000 ltac:(lia)) as E.
  pose proof (Z.mod_pos_bound (ms + 500) 1000 ltac:(lia)) as B. lia.
Qed.

(** X12. The duration [handleCallEnd] records is the time from the placing of
    the call (when [callStartTime] was set) to the end of the call, in
    seconds, rounded to the nearest second: it is off by half a second at
    most, and not negative unless the clock went back. With no start time
    at hand the duration is [null]. *)
Theorem call_duration_is_rounded_elapsed_time (s : St) :
  let endTime := ans_now (oracle (world s) (cursor (world s))) in
  exists d,
    fst (handleCallEnd_head s) = Returned (endTime, d) /\
    match callStartTime s, d with
    | Some start, Some seconds =>
        let elapsed := getTime endTime - getTime start in
        -500 < 1000 * seconds - elapsed <= 500 /\
        (0 <= elapsed -> 0 <= seconds)
    | None, None => True
    | _, _ => False
    end.
Proof.
  cbv zeta. unfold handleCallEnd_head. mrun. eexists. split; [reflexivity|].
  destruct (callStartTime s) as [start|]; [|exact I].
  pose proof (round_seconds_bounds
                (getTime (ans_now (oracle (world s) (cursor (world s))))
                 - getTime start)) as B.
  split; [exact B|]. intros H0. unfold round_seconds. apply Z.div_pos; lia.
Qed.

(** ** The connected event *)

(** X26. The "connected" listener reports [connected] to the caller (and
    to CallKeep when it is there) before the row is written: the status
    update is left un-awaited. Once it has run, the rows of the call have
    status [connected] and nothing else in the store has changed; the
    start time of the call is not reset, so the duration recorded at the
    end counts from the placing of the call. *)
Theorem connected_event_marks_the_row (callId hotlineNumber : string) (s : St) :
  detached s = [] ->
  let s1 := snd (on_connected callId hotlineNumber s) in
  let s' := snd (run_next s1) in
  db s1 = db s /\
  detached s1 = [TUpdateCallStatus callId CallStatus.connected] /\
  trace s1 = (trace s ++ EvStatusChange CallStatus.connected callId ::
                if RNCallKeep (world s)
                then [EvCallKeepStart callId hotlineNumber; EvCallKeepActive callId]
                else [])%list /\
  call_logs (db s')
  = update_where (call_has_id callId) (set_call_status CallStatus.connected)
                 (call_logs (db s)) /\
  sync_queue (db s') = sync_queue (db s) /\
  user_responses (db s') = user_responses (db s) /\
  alerts (db s') = alerts (db s) /\
  detached s' = [] /\
  callStartTime s' = callStartTime s /\
  activeCallId s' = activeCallId s /\
  activeCallSid s' = activeCallSid s.
Proof.
  intros Hd. cbv zeta.
  assert (E : on_connected callId hotlineNumber s
              = (Returned tt,
                 with_trace (trace s ++ EvStatusChange CallStatus.connected callId ::
                               if RNCallKeep (world s)
                               then [EvCallKeepStart callId hotlineNumber;
                                     EvCallKeepActive callId]
                               else [])%list
                   (with_detached [TUpdateCallStatus callId CallStatus.connected] s))).
  { unfold on_connected, updateCallStatus_detached. mrun. rewrite Hd. cbn [app].
    destruct (RNCallKeep (world s)); mrun; rewrite <- ?app_assoc; reflexivity. }
  rewrite E. cbn [snd]. st_norm. repeat (split; [reflexivity|]).
  unfold run_next. rewrite bind_gets. st_norm. rewrite bind_modify.
  rewrite run_updateCallStatus_task. cbn [snd]. st_norm. now repeat split.
Qed.

(** ** Location capture and the response, in general *)

Lemma captureLocation_eq timeoutMs s :
  captureLocation timeoutMs s =
  let (location, k) := captured (oracle (world s)) (cursor (world s)) in
  (Returned location, with_world (advance k (world s)) s).
Proof.
  unfold captureLocation, captured. rewrite run_try_catch. mrun.
  destruct (ans_position _) as [location|e]; mrun; [reflexivity|].
  rewrite run_try_catch. mrun.
  destruct (ans_lastKnown _) as [[lastKnown|]|e2]; mrun; reflexivity.
Qed.

(** X14. [captureLocation] never throws and touches nothing but the
    environment. It returns the current position when the device gives
    one, without asking for the last known one; when the current position
    fails it returns the last known position if there is one, and [null]
    otherwise, whether the lookup found nothing or failed. *)
Theorem captureLocation_falls_back_and_never_throws (timeoutMs : Z) (s : St) :
  let k := cursor (world s) in
  let o := oracle (world s) in
  exists location k',
    captureLocation timeoutMs s
    = (Returned location, with_world (advance k' (world s)) s) /\
    match ans_position (o k) with
    | Resolved l => location = Some (snapshot_of l) /\ k' = S k
    | Rejected _ =>
        k' = S (S k) /\
        match ans_lastKnown (o (S k)) with
        | Resolved (Some l) => location = Some (snapshot_of l)
        | Resolved None | Rejected _ => location = None
        end
    end.
Proof.
  cbv zeta. rewrite captureLocation_eq. unfold captured.
  destruct (ans_position _) as [l|e].
  - do 2 eexists. split; [reflexivity|]. now split.
  - destruct (ans_lastKnown _) as [[l|]|e2]; do 2 eexists;
      (split; [reflexivity|]); now split.
Qed.

Lemma submitResponse_eq alertId userId ty s :
  submitResponse alertId userId ty s =
  let k := cursor (world s) in
  let k1 := snd (captured (oracle (world s)) k) in
  let r := response_built alertId userId ty (world s) k in
  let s1 := mkSt (db s) (advance (3 + k1) (world s))
                 (trace s ++ [EvSql (InsertUserResponse r)])%list
                 (isSyncing s) (activeCallId s) (activeCallSid s)
                 (callStartTime s) (eventCallback s) (detached s) in
  if mem_string (ur_id r) (map ur_id (user_responses (db s)))
     || negb (alert_exists (db s) alertId)
  then (Threw (JsError "constraint failed"), s1)
  else
    match enqueue SyncType.user_response (response_payload r)
                  (with_db (with_user_responses (db s)
                              (user_responses (db s) ++ [r])%list) s1) with
    | (Returned _, s') => (Returned r, s')
    | (Threw e, s') => (Threw e, s')
    end.
Proof.
  unfold submitResponse. rewrite run_bind, run_try_catch, captureLocation_eq.
  unfold response_built.
  destruct (captured _ _) as [location k1]. cbn [snd].
  unfold generateId, persistResponse, next_id.
  mrun. cbn [exec_stmt option_map ur_id ur_alertId]. cbv zeta. st_norm.
  cbn [Nat.add].
  destruct (mem_string _ (map ur_id _)); [reflexivity|]. cbn [orb].
  destruct (alert_exists (db s) alertId); cbn [negb]; [|reflexivity].
  rewrite run_bind. st_norm.
  destruct (enqueue _ _ _) as [[id|e] s']; mrun; reflexivity.
Qed.

(** ** The reads of the response service *)

Lemma ascii_compare_refl a : Ascii.compare a a = Eq.
Proof. unfold Ascii.compare. apply N.compare_refl. Qed.

Lemma ascii_compare_lt_trans a b c :
  Ascii.compare a b = Lt -> Ascii.compare b c = Lt -> Ascii.compare a c = Lt.
Proof. unfold Ascii.compare. rewrite !N.compare_lt_iff. lia. Qed.

Lemma string_leb_trans s1 : forall s2 s3,
  String.leb s1 s2 = true -> String.leb s2 s3 = true -> String.leb s1 s3 = true.
Proof.
  unfold String.leb.
  induction s1 as [|a s1 IH]; intros [|b s2] [|c s3]; cbn [String.compare];
    try reflexivity; try discriminate.
  destruct (Ascii.compare a b) eqn:Eab; try discriminate;
    destruct (Ascii.compare b c) eqn:Ebc; try discriminate.
  - apply Ascii.compare_eq_iff in Eab, Ebc. subst. rewrite ascii_compare_refl.
    apply IH.
  - apply Ascii.compare_eq_iff in Eab. subst. now rewrite Ebc.
  - apply Ascii.compare_eq_iff in Ebc. subst. now rewrite Eab.
  - now rewrite (ascii_compare_lt_trans _ _ _ Eab Ebc).
Qed.

Lemma string_ltb_not_leb s1 s2 :
  String.ltb s1 s2 = true -> String.leb s2 s1 = false.
Proof.
  unfold String.ltb, String.leb. rewrite (String.compare_antisym s2 s1).
  now destruct (String.compare s1 s2).
Qed.

Lemma responded_desc_total x y :
  responded_desc x y = true \/ responded_desc y x = true.
Proof. unfold responded_desc. apply String.leb_total. Qed.

Lemma responded_desc_trans x y z :
  responded_desc x y = true -> responded_desc y z = true ->
  responded_desc x z = true.
Proof. unfold responded_desc. intros H1 H2. eapply string_leb_trans; eauto. Qed.

Lemma response_of_row_id row : response_of_row row = row.
Proof. now destruct row. Qed.

Lemma map_response_of_row rows : map response_of_row rows = rows.
Proof.
  induction rows as [|r rows IH]; cbn [map]; [reflexivity|].
  now rewrite response_of_row_id, IH.
Qed.

(** X16. [getUserResponses] returns the stored responses of that user, all of
    them and no one else's, the most recent first; it never throws and
    changes nothing. *)
Theorem getUserResponses_lists_the_users_history (userId : string) (s : St) :
  exists l,
    getUserResponses userId s = (Returned l, s) /\
    Permutation l (filter (for_user userId) (user_responses (db s))) /\
    (forall r, In r l <-> In r (user_responses (db s)) /\ ur_userId r = userId) /\
    StronglySorted
      (fun a b => String.leb (ur_respondedAt b) (ur_respondedAt a) = true) l.
Proof.
  unfold getUserResponses. rewrite bind_gets, run_ret, map_response_of_row.
  eexists. split; [reflexivity|]. unfold select_user_responses. split.
  - apply sort_by_perm.
  - split.
    + intros r. rewrite sort_by_In, filter_In. unfold for_user.
      now rewrite String.eqb_eq.
    + apply (sort_by_sorted responded_desc responded_desc_total
               responded_desc_trans).
Qed.

Lemma sort_by_hd_In {A} (le : A -> A -> bool) l x :
  hd_error (sort_by le l) = Some x -> In x l.
Proof.
  intros H. apply (sort_by_In le). destruct (sort_by le l); [discriminate|].
  injection H as ->. now left.
Qed.

Lemma sort_by_hd_none {A} (le : A -> A -> bool) l :
  hd_error (sort_by le l) = None -> l = [].
Proof.
  intros H. pose proof (sort_by_length le l) as E.
  destruct (sort_by le l); [|discriminate]. destruct l; [reflexivity|discriminate].
Qed.

Lemma sort_by_hd_first l x :
  hd_error (sort_by responded_desc l) = Some x ->
  forall y, In y l -> responded_desc x y = true.
Proof.
  intros H y Hy. apply (sort_by_In responded_desc) in Hy.
  pose proof (sort_by_sorted responded_desc responded_desc_total
                responded_desc_trans l) as Hs.
  destruct (sort_by responded_desc l) as [|h t]; [discriminate|].
  injection H as ->. inversion Hs as [|a b Hs' Hall]; subst.
  destruct Hy as [<-|Hy].
  - destruct (responded_desc_total x x); assumption.
  - rewrite Forall_forall in Hall. now apply Hall.
Qed.

(** X17. [getResponseForAlert] never throws and changes nothing. It returns
    [null] exactly when the store has no response of that user to that
    alert; otherwise it returns one of the stored responses of that user
    to that alert, and none of them is more recent. *)
Theorem getResponseForAlert_finds_the_latest (alertId userId : string) (s : St) :
  exists found,
    getResponseForAlert alertId userId s = (Returned found, s) /\
    match found with
    | None =>
        forall r, In r (user_responses (db s)) ->
                  ~ (ur_alertId r = alertId /\ ur_userId r = userId)
    | Some r =>
        In r (user_responses (db s)) /\
        ur_alertId r = alertId /\ ur_userId r = userId /\
        forall r', In r' (user_responses (db s)) ->
                   ur_alertId r' = alertId -> ur_userId r' = userId ->
                   String.leb (ur_respondedAt r') (ur_respondedAt r) = true
    end.
Proof.
  unfold getResponseForAlert. rewrite bind_gets. unfold select_response_for_alert.
  destruct (hd_error _) as [row|] eqn:E.
  - rewrite run_ret, response_of_row_id. eexists. split; [reflexivity|].
    pose proof (sort_by_hd_In _ _ _ E) as Hin. apply filter_In in Hin.
    destruct Hin as [Hin Hp]. unfold for_alert_and_user in Hp.
    apply andb_true_iff in Hp. rewrite !String.eqb_eq in Hp. destruct Hp as [Ha Hu].
    repeat (split; [assumption|]). intros r' Hr' Ha' Hu'.
    apply (sort_by_hd_first _ _ E). apply filter_In. split; [assumption|].
    unfold for_alert_and_user. now rewrite Ha', Hu', !String.eqb_refl.
  - rewrite run_ret. eexists. split; [reflexivity|].
    apply sort_by_hd_none in E. intros r Hr [Ha Hu].
    assert (Hf : In r (filter (for_alert_and_user alertId userId)
                              (user_responses (db s)))).
    { apply filter_In. split; [assumption|]. unfold for_alert_and_user.
      now rewrite Ha, Hu, !String.eqb_refl. }
    rewrite E in Hf. contradiction.
Qed.

Lemma select_response_for_alert_latest alertId userId (d : Db) earlier r :
  user_responses d = (earlier ++ [r])%list ->
  ur_alertId r = alertId -> ur_userId r = userId ->
  (forall old, In old earlier ->
     ur_alertId old = alertId -> ur_userId old = userId ->
     String.ltb (ur_respondedAt old) (ur_respondedAt r) = true) ->
  select_response_for_alert alertId userId d = Some r.
Proof.
  intros Hdb Ha Hu Hlater. unfold select_response_for_alert.
  assert (Hr : In r (filter (for_alert_and_user alertId userId) (user_responses d))).
  { apply filter_In. split; [rewrite Hdb; apply in_or_app; right; now left|].
    unfold for_alert_and_user. now rewrite Ha, Hu, !String.eqb_refl. }
  destruct (hd_error _) as [x|] eqn:E.
  - pose proof (sort_by_hd_In _ _ _ E) as Hx. apply filter_In in Hx.
    destruct Hx as [Hx Hp]. unfold for_alert_and_user in Hp.
    apply andb_true_iff in Hp. rewrite !String.eqb_eq in Hp. destruct Hp as [Hxa Hxu].
    rewrite Hdb in Hx. apply in_app_or in Hx. destruct Hx as [Hx|[<-|[]]];
      [|reflexivity].
    exfalso. specialize (Hlater x Hx Hxa Hxu). apply string_ltb_not_leb in Hlater.
    pose proof (sort_by_hd_first _ _ E r Hr) as Hfirst.
    unfold responded_desc in Hfirst. congruence.
  - apply sort_by_hd_none in E. rewrite E in Hr. contradiction.
Qed.

(** X18. A response that [submitResponse] returned is the one
    [getResponseForAlert] finds for its alert and user afterwards,
    provided its timestamp is later than that of every response the user
    gave to the alert before; and it is part of the user's history. *)
Theorem submitted_response_is_found (alertId userId : string)
  (ty : UserResponseType.t) (s : St) (r : UserResponse) :
  fst (submitResponse alertId userId ty s) = Returned r ->
  (forall old, In old (user_responses (db s)) ->
     ur_alertId old = alertId -> ur_userId old = userId ->
     String.ltb (ur_respondedAt old) (ur_respondedAt r) = true) ->
  let s' := snd (submitResponse alertId userId ty s) in
  getResponseForAlert alertId userId s' = (Returned (Some r), s') /\
  exists l, fst (getUserResponses userId s') = Returned l /\ In r l.
Proof.
  intros Hr Hlater s'.
  assert (Hdb : user_responses (db s') = (user_responses (db s) ++ [r])%list /\
                ur_alertId r = alertId /\ ur_userId r = userId).
  { subst s'. revert Hr. rewrite submitResponse_eq. cbv zeta.
    destruct (_ || _); [discriminate|]. rewrite enqueue_eq. cbv zeta. st_norm.
    destruct (mem_string _ _); [discriminate|]. cbn [fst snd].
    intros [= <-]. unfold after_enqueue. st_norm.
    unfold response_built. destruct (captured _ _). now repeat split. }
  destruct Hdb as (Hdb & Ha & Hu). split.
  - unfold getResponseForAlert. rewrite bind_gets.
    rewrite (select_response_for_alert_latest alertId userId (db s')
               (user_responses (db s)) r Hdb Ha Hu Hlater).
    now rewrite run_ret, response_of_row_id.
  - unfold getUserResponses. rewrite bind_gets, run_ret, map_response_of_row.
    eexists. split; [reflexivity|]. unfold select_user_responses.
    apply sort_by_In, filter_In. split.
    + rewrite Hdb. apply in_or_app. right. now left.
    + unfold for_user. now rewrite Hu, String.eqb_refl.
Qed.

(** X15. The response [submitResponse] returns carries what [captureLocation]
    gave at that moment: the coordinates and the accuracy of the
    position, or [null] for all three. It is the row added to
    [user_responses], and the one item added to the queue is a pending
    [user_response] whose payload is the serialized response. *)
Theorem response_carries_the_captured_location (alertId userId : string)
  (ty : UserResponseType.t) (s : St) (r : UserResponse)
  (location : option LocationSnapshot) :
  fst (captureLocation 8000 s) = Returned location ->
  fst (submitResponse alertId userId ty s) = Returned r ->
  let s' := snd (submitResponse alertId userId ty s) in
  ur_latitude r = option_map ls_latitude location /\
  ur_longitude r = option_map ls_longitude location /\
  ur_locationAccuracy r = option_map ls_accuracy location /\
  ur_alertId r = alertId /\ ur_userId r = userId /\ ur_response r = ty /\
  ur_syncedAt r = None /\
  user_responses (db s') = (user_responses (db s) ++ [r])%list /\
  exists row,
    sync_queue (db s') = (sync_queue (db s) ++ [row])%list /\
    sq_type row = SyncType.user_response /\
    sq_status row = SyncStatus.pending /\
    sq_payload row = JSON_stringify (JObject (response_payload r)).
Proof.
  rewrite captureLocation_eq, submitResponse_eq. cbv zeta.
  unfold response_built.
  destruct (captured _ _) as [loc k1]. cbn [fst snd]. intros [= <-].
  destruct (_ || _); [discriminate|]. rewrite enqueue_eq. cbv zeta. st_norm.
  destruct (mem_string _ _); [discriminate|]. cbn [fst snd]. intros [= <-].
  unfold after_enqueue. st_norm.
  repeat (split; [reflexivity|]). eexists. split; [reflexivity|].
  now repeat split.
Qed.

Section CallEndRecord.
Context {L : JsNumberLaws JN}.

Lemma call_end_payload_wf callId endTime dur :
  json_wf (JObject (call_end_payload callId endTime dur)).
Proof.
  cbn. split.
  - repeat constructor; cbn; intuition discriminate.
  - repeat split; destruct dur; exact I.
Qed.

(** X13. What the end of a call leaves in the store and what it queues for
    the backend agree: every row of the call is [disconnected] with the
    end time and the duration that the queued [call_log] item carries,
    and the item's payload reads back as exactly these three fields. *)
Theorem call_end_row_and_item_agree (callId : string) (endTime : JsDate)
  (dur : option Z) (s : St) :
  let qid := next_id "" (world s) (cursor (world s)) in
  ~ In qid (map sq_id (sync_queue (db s))) ->
  let s' := snd (run_task (THandleCallEnd callId endTime dur) s) in
  (forall c, In c (call_logs (db s')) -> cl_id c = callId ->
     cl_status c = CallStatus.disconnected /\
     cl_endedAt c = Some (toISOString endTime) /\
     cl_durationSeconds c = dur) /\
  exists row,
    sync_queue (db s') = (sync_queue (db s) ++ [row])%list /\
    sq_id row = qid /\ sq_type row = SyncType.call_log /\
    sq_status row = SyncStatus.pending /\
    JSON_parse (sq_payload row)
    = Some (JObject [("callId", JString callId);
                     ("endedAt", JString (toISOString endTime));
                     ("durationSeconds",
                      match dur with
                      | Some d => JNumber (number_of_Z d)
                      | None => JNull
                      end)]).
Proof.
  intros qid Hfresh s'. subst s'. rewrite run_handleCallEnd_task. cbv zeta.
  rewrite enqueue_eq. cbv zeta. st_norm.
  apply mem_string_not_In in Hfresh. fold qid. rewrite Hfresh. cbn [snd].
  unfold after_enqueue. st_norm. split.
  - intros c Hc Hid. unfold update_where in Hc. apply in_map_iff in Hc.
    destruct Hc as (c0 & E & _). destruct (call_has_id callId c0) eqn:Eh.
    + subst c. now repeat split.
    + subst c. unfold call_has_id in Eh. apply String.eqb_neq in Eh. contradiction.
  - eexists. split; [reflexivity|]. cbn [sq_id sq_type sq_status sq_payload].
    repeat (split; [reflexivity|]).
    apply JSON_parse_stringify. apply call_end_payload_wf.
Qed.

End CallEndRecord.

(** ** The application store *)

Lemma AppState_eta st :
  mkAppState (app_auth st) (app_alerts st) (app_activeAlert st) (app_responses st)
             (app_activeCallId st) (app_callStatus st) (app_network st)
             (app_pendingSyncCount st) = st.
Proof. now destruct st. Qed.

Lemma Alert_eta a :
  mkAlert (al_id a) (al_title a) (al_body a) (al_severity a) (al_status a)
          (al_category a) (al_issuedAt a) (al_expiresAt a)
          (al_requiresResponse a) (al_responseOptions a) (al_metadata a) = a.
Proof. now destruct a. Qed.

Lemma alert_known_iff alert alerts :
  existsb (fun a => String.eqb (al_id a) (al_id alert)) alerts = true
  <-> In (al_id alert) (map al_id alerts).
Proof.
  rewrite existsb_exists, in_map_iff. split; intros (a & H1 & H2).
  - exists a. apply String.eqb_eq in H2. now split.
  - exists a. split; [assumption|]. now apply String.eqb_eq.
Qed.

Lemma addAlert_cases alert st :
  (In (al_id alert) (map al_id (app_alerts st)) /\ addAlert alert st = st) \/
  (~ In (al_id alert) (map al_id (app_alerts st)) /\
   addAlert alert st = with_app_alerts (alert :: app_alerts st) st).
Proof.
  unfold addAlert. cbv zeta.
  destruct (existsb _ _) eqn:E.
  - left. split; [now apply alert_known_iff | reflexivity].
  - right. split; [|reflexivity]. intros H. apply alert_known_iff in H. congruence.
Qed.

(** X19. [addAlert] keeps one alert per id. An alert whose id the store
    already holds is dropped, the state staying as it is; a new one is put
    in front. No alert is lost, nothing else in the state changes, and
    adding the same alert again changes nothing. *)
Theorem addAlert_keeps_one_alert_per_id (alert : Alert) (st : AppState) :
  NoDup (map al_id (app_alerts st)) ->
  let st' := addAlert alert st in
  NoDup (map al_id (app_alerts st')) /\
  In (al_id alert) (map al_id (app_alerts st')) /\
  (forall a, In a (app_alerts st) -> In a (app_alerts st')) /\
  (In (al_id alert) (map al_id (app_alerts st)) -> st' = st) /\
  (~ In (al_id alert) (map al_id (app_alerts st)) ->
   app_alerts st' = alert :: app_alerts st) /\
  with_app_alerts (app_alerts st) st' = st /\
  addAlert alert st' = st'.
Proof.
  intros Hnd st'. subst st'.
  destruct (addAlert_cases alert st) as [[Hin ->]|[Hnin ->]].
  - repeat split; auto.
    + intros H. contradiction.
    + unfold with_app_alerts. apply AppState_eta.
    + destruct (addAlert_cases alert st) as [[_ E]|[H _]]; [exact E|contradiction].
  - cbn [app_alerts with_app_alerts map]. repeat split; auto.
    + now constructor.
    + now left.
    + intros a Ha. now right.
    + intros H. contradiction.
    + unfold with_app_alerts. cbn. apply AppState_eta.
    + destruct (addAlert_cases alert
                  (with_app_alerts (alert :: app_alerts st) st)) as [[_ E]|[H _]];
        [exact E|]. exfalso. apply H. cbn. now left.
Qed.

Lemma updateAlertStatus_absent alertId status alerts :
  ~ In alertId (map al_id alerts) ->
  map (fun a => if String.eqb (al_id a) alertId then with_al_status status a else a)
      alerts = alerts.
Proof.
  induction alerts as [|a l IH]; cbn [map]; intros H; [reflexivity|].
  destruct (String.eqb (al_id a) alertId) eqn:E.
  - apply String.eqb_eq in E. exfalso. apply H. now left.
  - rewrite IH; [reflexivity|]. intros Hin. apply H. now right.
Qed.

(** X20. [updateAlertStatus] changes the status of the alerts with that id and
    nothing else: the alerts keep their ids and their order, an alert with
    another id stays as it is, and so does everything of the alert but
    its status. For an id the store does not hold, the state is unchanged. *)
Theorem updateAlertStatus_changes_the_status_only (alertId : string)
  (status : AlertStatus.t) (st : AppState) :
  let st' := updateAlertStatus alertId status st in
  map al_id (app_alerts st') = map al_id (app_alerts st) /\
  (forall a', In a' (app_alerts st') ->
     exists a, In a (app_alerts st) /\
       ((al_id a = alertId /\ a' = with_al_status status a) \/
        (al_id a <> alertId /\ a' = a))) /\
  (forall a, In a (app_alerts st) ->
     In (if String.eqb (al_id a) alertId then with_al_status status a else a)
        (app_alerts st')) /\
  with_app_alerts (app_alerts st) st' = st /\
  (~ In alertId (map al_id (app_alerts st)) -> st' = st) /\
  updateAlertStatus alertId status st' = st'.
Proof.
  cbv zeta. unfold updateAlertStatus. cbn [app_alerts with_app_alerts].
  split; [|split; [|split; [|split; [|split]]]].
  - rewrite map_map. apply map_ext. intros a. now destruct (String.eqb _ _).
  - intros a' Ha'. apply in_map_iff in Ha'. destruct Ha' as (a & E & Ha).
    exists a. split; [assumption|]. destruct (String.eqb (al_id a) alertId) eqn:Eq.
    + left. apply String.eqb_eq in Eq. now split.
    + right. apply String.eqb_neq in Eq. now split.
  - intros a Ha. apply in_map_iff. now exists a.
  - unfold with_app_alerts. cbn. apply AppState_eta.
  - intros H. rewrite updateAlertStatus_absent by assumption.
    unfold with_app_alerts. apply AppState_eta.
  - unfold with_app_alerts. cbn. f_equal. rewrite map_map. apply map_ext.
    intros a. destruct (String.eqb (al_id a) alertId) eqn:Eq; cbn [al_id with_al_status].
    + now rewrite Eq.
    + now rewrite Eq.
Qed.

Lemma record_get_set_same {V} k (v : V) o : record_get k (record_set k v o) = Some v.
Proof.
  induction o as [|[k' v'] o IH]; cbn.
  - now rewrite String.eqb_refl.
  - destruct (String.eqb k' k) eqn:E; cbn; now rewrite E.
Qed.

Lemma record_get_set_other {V} k k2 (v : V) o :
  k2 <> k -> record_get k2 (record_set k v o) = record_get k2 o.
Proof.
  intros Hne. induction o as [|[k' v'] o IH]; cbn.
  - destruct (String.eqb k k2) eqn:E; [|reflexivity].
    apply String.eqb_eq in E. congruence.
  - destruct (String.eqb k' k) eqn:E; cbn.
    + apply String.eqb_eq in E. subst k'.
      destruct (String.eqb k k2) eqn:E2; [|reflexivity].
      apply String.eqb_eq in E2. congruence.
    + now rewrite IH.
Qed.

Lemma record_set_keys {V} k (v : V) o :
  map fst (record_set k v o)
  = if existsb (String.eqb k) (map fst o) then map fst o
    else (map fst o ++ [k])%list.
Proof.
  induction o as [|[k' v'] o IH]; cbn; [reflexivity|].
  rewrite (String.eqb_sym k k').
  destruct (String.eqb k' k) eqn:E; cbn; [reflexivity|].
  rewrite IH. now destruct (existsb _ _).
Qed.

(** X21. After [setResponse(alertId, response)] the store answers [response]
    for that alert and what it answered before for every other alert; the
    alerts answered stay distinct keys, and nothing else in the state
    changes. *)
Theorem setResponse_then_lookup (alertId : string) (response : UserResponse)
  (st : AppState) :
  let st' := setResponse alertId response st in
  record_get alertId (app_responses st') = Some response /\
  (forall other, other <> alertId ->
     record_get other (app_responses st') = record_get other (app_responses st)) /\
  (NoDup (map fst (app_responses st)) -> NoDup (map fst (app_responses st'))) /\
  with_app_responses (app_responses st) st' = st.
Proof.
  cbv zeta. unfold setResponse. cbn [app_responses with_app_responses].
  split; [apply record_get_set_same|]. split.
  - intros other Hne. now apply record_get_set_other.
  - split.
    + intros Hnd. rewrite record_set_keys.
      destruct (existsb _ _) eqn:E; [assumption|].
      apply NoDup_app; [assumption | repeat constructor; auto |].
      intros x Hx [Ex|[]]. subst x.
      assert (existsb (String.eqb alertId) (map fst (app_responses st)) = true).
      { apply existsb_exists. exists alertId.
        split; [assumption|apply String.eqb_refl]. }
      congruence.
    + unfold with_app_responses. cbn. apply AppState_eta.
Qed.

(** ** The alerts table only grows *)

Lemma keeps_alerts_same {A} (c : M A) :
  (forall s, alerts (db (snd (c s))) = alerts (db s)) -> keeps_alerts c.
Proof. intros H s id. unfold alert_exists. now rewrite H. Qed.

Lemma keeps_alerts_bind {A B} (c : M A) (k : A -> M B) :
  keeps_alerts c -> (forall a, keeps_alerts (k a)) -> keeps_alerts (bind c k).
Proof.
  intros Hc Hk s id Hs. unfold bind. specialize (Hc s id Hs).
  destruct (c s) as [[a|e] s']; cbn [snd] in *; [now apply Hk | assumption].
Qed.

Lemma keeps_alerts_try_catch {A} (c : M A) (h : JsThrown -> M A) :
  keeps_alerts c -> (forall e, keeps_alerts (h e)) -> keeps_alerts (try_catch c h).
Proof.
  intros Hc Hh s id Hs. unfold try_catch. specialize (Hc s id Hs).
  destruct (c s) as [[a|e] s']; cbn [snd] in *; [assumption | now apply Hh].
Qed.

Lemma keeps_alerts_runAsync stmt : keeps_alerts (runAsync stmt).
Proof.
  intros s id Hs. unfold runAsync.
  destruct stmt; m_unfold; cbn [exec_stmt]; st_norm; try assumption.
  - destruct (mem_string _ _); st_norm; assumption.
  - destruct (mem_string _ _); st_norm; [assumption|].
    destruct (negb _); st_norm; assumption.
  - destruct (mem_string _ _); st_norm; [assumption|].
    destruct (cl_alertId c) as [a|]; [destruct (alert_exists (db s) a)|]; st_norm;
      assumption.
  - destruct (alert_exists (db s) id0); st_norm; [assumption|].
    unfold alert_exists in *. cbn [alerts]. apply mem_string_In.
    apply in_or_app. left. now apply mem_string_In.
Qed.

Lemma keeps_alerts_pass : keeps_alerts processSyncQueue_pass.
Proof.
  apply keeps_alerts_same. intros s. rewrite processSyncQueue_pass_eq.
  now destruct (attempts _ _ _).
Qed.

Ltac ka_step :=
  lazymatch goal with
  | |- keeps_alerts (bind _ _) => apply keeps_alerts_bind; [|intros ?]
  | |- keeps_alerts (try_catch _ _) => apply keeps_alerts_try_catch; [|intros ?]
  | |- keeps_alerts (runAsync _) => apply keeps_alerts_runAsync
  | |- keeps_alerts processSyncQueue_pass => apply keeps_alerts_pass
  | |- keeps_alerts (ret _) => apply keeps_alerts_same; reflexivity
  | |- keeps_alerts (throw _) => apply keeps_alerts_same; reflexivity
  | |- keeps_alerts (gets _) => apply keeps_alerts_same; reflexivity
  | |- keeps_alerts ask => apply keeps_alerts_same; reflexivity
  | |- keeps_alerts (emit _) => apply keeps_alerts_same; reflexivity
  | |- keeps_alerts (park _) => apply keeps_alerts_same; reflexivity
  | |- keeps_alerts (modify _) => apply keeps_alerts_same; reflexivity
  | |- keeps_alerts (if ?b then _ else _) => destruct b
  | |- keeps_alerts (match ?x with _ => _ end) => destruct x
  end.

Ltac ka_auto := repeat ka_step; auto.

Lemma keeps_alerts_run_op o : keeps_alerts (run_op o).
Proof.
  destruct o; unfold run_op, unawaited, getPendingCount, onNetInfoChange,
    on_connected, on_disconnected, on_connectFailure, handleCallCancelled,
    handleCallKeepEndCall, run_next, run_task, unawaited, updateCallStatus_detached,
    updateCallStatus, endCall, makeHotlineCall, submitResponse, enqueue,
    processSyncQueue, processSyncQueue_detached, processSyncQueue_enter,
    handleCallEnd_detached, handleCallEnd_rest, handleCallEnd_head, enqueue,
    processSyncQueue_detached, processSyncQueue_enter, persistCallLog,
    persistResponse, captureLocation, generateId, fetchTwilioToken, fetch,
    NetInfo_fetch, JSON_parse_throwing;
    ka_auto; unfold updateCallStatus_detached; ka_auto.
Qed.

(** ** The client *)

Lemma truthy_string_nonempty id : truthy_string (Some id) = true <-> id <> "".
Proof. destruct id; cbn; split; congruence. Qed.

Lemma parseAlertFromNotification_cases notification s :
  parseAlertFromNotification notification s = (Returned None, s) \/
  exists alert s1,
    parseAlertFromNotification notification s = (Returned (Some alert), s1) /\
    db s1 = db s /\
    al_id alert <> "" /\ al_status alert = AlertStatus.active.
Proof.
  unfold parseAlertFromNotification.
  destruct (content_data notification) as [data|]; [|now left].
  destruct (data_id data) as [id|] eqn:Eid; [|now left].
  destruct (truthy_string (Some id)) eqn:Et; cbn [negb]; [|now left].
  apply truthy_string_nonempty in Et. right.
  destruct (data_issuedAt data) as [t|]; mrun; do 2 eexists;
    (split; [reflexivity|]); now repeat split.
Qed.

Lemma persistAlert_stores alert s :
  exists s1,
    persistAlert alert s = (Returned tt, s1) /\
    alert_exists (db s1) (al_id alert) = true /\
    (forall id, alert_exists (db s) id = true -> alert_exists (db s1) id = true).
Proof.
  unfold persistAlert, runAsync. m_unfold. cbn [exec_stmt]. st_norm.
  destruct (alert_exists (db s) (al_id alert)) eqn:E; st_norm; eexists;
    (split; [reflexivity|]); st_norm.
  - split; [assumption|]. auto.
  - unfold alert_exists in *. cbn [alerts]. split.
    + apply mem_string_In, in_or_app. right. now left.
    + intros id H. apply mem_string_In, in_or_app. left. now apply mem_string_In.
Qed.

Lemma onNotification_cases notification c :
  let c' := onNotification notification c in
  alertScreen c' = alertScreen c /\
  (forall id, alert_exists (db (services c)) id = true ->
              alert_exists (db (services c')) id = true) /\
  (store c' = store c \/
   exists alert,
     al_id alert <> "" /\ al_status alert = AlertStatus.active /\
     alert_exists (db (services c')) (al_id alert) = true /\
     store c' = addAlert alert (store c)).
Proof.
  cbv zeta. unfold onNotification. rewrite run_bind.
  destruct (parseAlertFromNotification_cases notification (services c))
    as [->|(alert & s1 & -> & Hdb & Hid & Hst)].
  - rewrite run_ret. cbn. auto.
  - rewrite run_bind.
    destruct (persistAlert_stores alert s1) as (s2 & -> & Hin & Hkeep).
    rewrite run_ret. cbn [services store alertScreen].
    split; [reflexivity|]. split.
    + intros id H. apply Hkeep. unfold alert_exists in *. now rewrite Hdb.
    + right. exists alert. now repeat split.
Qed.

Lemma handleSubmitResponse_cases id ty c :
  let c' := handleSubmitResponse id ty c in
  c' = c \/
  exists alertId user,
    id = Some alertId /\ alertId <> "" /\
    auth_user (app_auth (store c)) = Some user /\
    services c' = snd (submitResponse alertId (user_id user) ty (services c)) /\
    alertScreen c' = mkAlertScreen false (Some ty) /\
    match fst (submitResponse alertId (user_id user) ty (services c)) with
    | Returned response => store c' = setResponse alertId response (store c)
    | Threw _ => store c' = store c
    end.
Proof.
  cbv zeta. unfold handleSubmitResponse.
  destruct id as [alertId|]; [|now left].
  destruct (auth_user (app_auth (store c))) as [user|]; [|now left].
  destruct (truthy_string (Some alertId)) eqn:Et; cbn [negb]; [|now left].
  apply truthy_string_nonempty in Et. right. exists alertId, user.
  repeat (split; [reflexivity || assumption|]).
  destruct (submitResponse _ _ _ _) as [[response|e] s']; cbn; auto.
Qed.

Lemma keeps_alerts_submitResponse a u ty : keeps_alerts (submitResponse a u ty).
Proof.
  intros s id H.
  pose proof (keeps_alerts_run_op (OpSubmitResponse a u ty) s id H) as K.
  unfold run_op, unawaited, try_catch, bind, ret in K.
  now destruct (submitResponse a u ty s) as [[r|e] s'].
Qed.

Lemma client_reachable_ok c :
  client_reachable c ->
  shown_alerts_are_stored c /\
  (forall a, In a (app_alerts (store c)) -> al_id a <> "") /\
  NoDup (map al_id (app_alerts (store c))).
Proof.
  induction 1 as [w|c o Hr (Hstored & Hid & Hnd)].
  - split; [intros a []|]. split; [intros a []|constructor].
  - assert (Hsame : forall c' : Client,
              app_alerts (store c') = app_alerts (store c) ->
              (forall id, alert_exists (db (services c)) id = true ->
                          alert_exists (db (services c')) id = true) ->
              shown_alerts_are_stored c' /\
              (forall a, In a (app_alerts (store c')) -> al_id a <> "") /\
              NoDup (map al_id (app_alerts (store c')))).
    { intros c' E Hk. unfold shown_alerts_are_stored. rewrite E.
      split; [|now split]. intros a Ha. now apply Hk, Hstored. }
    destruct o; cbn [run_client_op].
    + apply Hsame; [reflexivity|]. cbn [services]. intros id.
      apply keeps_alerts_run_op.
    + destruct (onNotification_cases notification c) as (_ & Hk & [E|Hadd]).
      * apply Hsame; [now rewrite E | exact Hk].
      * destruct Hadd as (alert & Hne & _ & Hin & E).
        unfold shown_alerts_are_stored. rewrite E.
        destruct (addAlert_cases alert (store c)) as [[_ ->]|[Hnew ->]].
        -- split; [|now split]. intros a Ha. now apply Hk, Hstored.
        -- cbn [app_alerts with_app_alerts map]. split; [|split].
           ++ intros a [<-|Ha]; [assumption | now apply Hk, Hstored].
           ++ intros a [<-|Ha]; [assumption | now apply Hid].
           ++ now constructor.
    + apply Hsame; [reflexivity | auto].
    + apply Hsame; [reflexivity | auto].
    + apply Hsame; [reflexivity | auto].
    + destruct (handleSubmitResponse_cases id responseType c)
        as [->|(alertId & user & _ & _ & _ & Hs & _ & Hst)];
        [now repeat split|].
      apply Hsame.
      * destruct (fst (submitResponse _ _ _ _)); now rewrite Hst.
      * rewrite Hs. intros id0. apply keeps_alerts_submitResponse.
    + unfold shown_alerts_are_stored. cbn [services store].
      unfold updateAlertStatus. cbn [app_alerts with_app_alerts].
      assert (Hmap : forall a', In a' (map (fun a => if String.eqb (al_id a) alertId
                                    then with_al_status status a else a)
                                 (app_alerts (store c))) ->
                exists a, In a (app_alerts (store c)) /\ al_id a' = al_id a).
      { intros a' Ha'. apply in_map_iff in Ha'. destruct Ha' as (a & <- & Ha).
        exists a. split; [assumption|]. now destruct (String.eqb _ _). }
      split; [|split].
      * intros a' Ha'. destruct (Hmap a' Ha') as (a & Ha & ->). now apply Hstored.
      * intros a' Ha'. destruct (Hmap a' Ha') as (a & Ha & ->). now apply Hid.
      * rewrite map_map.
        erewrite map_ext; [exact Hnd|]. intros a. now destruct (String.eqb _ _).
Qed.


Lemma submitResponse_returned alertId userId ty s r :
  fst (submitResponse alertId userId ty s) = Returned r ->
  let s' := snd (submitResponse alertId userId ty s) in
  r = response_built alertId userId ty (world s) (cursor (world s)) /\
  ur_alertId r = alertId /\ ur_userId r = userId /\ ur_response r = ty /\
  alert_exists (db s) alertId = true /\
  user_responses (db s') = (user_responses (db s) ++ [r])%list /\
  exists row,
    sync_queue (db s') = (sync_queue (db s) ++ [row])%list /\
    sq_type row = SyncType.user_response /\
    sq_status row = SyncStatus.pending /\
    sq_payload row = JSON_stringify (JObject (response_payload r)).
Proof.
  rewrite submitResponse_eq. cbv zeta.
  destruct (mem_string _ _); [discriminate|]. cbn [orb].
  destruct (alert_exists (db s) alertId); cbn [negb]; [|discriminate].
  rewrite enqueue_eq. cbv zeta. st_norm.
  destruct (mem_string _ _); [discriminate|]. cbn [fst snd]. intros [= <-].
  unfold after_enqueue. st_norm. split; [reflexivity|].
  unfold response_built. destruct (captured _ _) as [loc k1].
  cbn [ur_alertId ur_userId ur_response].
  repeat (split; [reflexivity|]). eexists. split; [reflexivity|]. now repeat split.
Qed.

Lemma submitResponse_accepted alertId userId ty s :
  let k := cursor (world s) in
  let r := response_built alertId userId ty (world s) k in
  alert_exists (db s) alertId = true ->
  ~ In (ur_id r) (map ur_id (user_responses (db s))) ->
  ~ In (next_id "" (world s) (3 + snd (captured (oracle (world s)) k)))
       (map sq_id (sync_queue (db s))) ->
  fst (submitResponse alertId userId ty s) = Returned r.
Proof.
  cbv zeta. intros Hfk Hr Hq. rewrite submitResponse_eq. cbv zeta.
  apply mem_string_not_In in Hr, Hq. rewrite Hr, Hfk. cbn [orb negb].
  rewrite enqueue_eq. cbv zeta. st_norm.
  unfold next_id in Hq |- *. cbn [oracle Nat.add] in Hq |- *. now rewrite Hq.
Qed.

(** X23. In every state the client can reach, every alert the store shows is
    in the [alerts] table (the listener persists an alert before it hands
    it to the store, and no service removes an alert), has a non-empty id,
    and is the only shown alert with its id. *)
Theorem shown_alerts_are_persisted (c : Client) :
  client_reachable c ->
  (forall a, In a (app_alerts (store c)) ->
     alert_exists (db (services c)) (al_id a) = true /\ al_id a <> "") /\
  NoDup (map al_id (app_alerts (store c))).
Proof.
  intros Hr. destruct (client_reachable_ok c Hr) as (Hstored & Hid & Hnd).
  split; [|assumption]. intros a Ha. split; [now apply Hstored | now apply Hid].
Qed.

(** X24. Answering an alert the client shows: with a signed-in user and the
    two generated ids fresh, [handleSubmitResponse] for a shown alert
    saves the response in [user_responses], queues it for sync, puts it in
    the store under the alert's id and clears the spinner. The foreign
    key of [user_responses] cannot refuse it, the alert being stored. *)
Theorem response_to_a_shown_alert_is_saved (c : Client) (a : Alert)
  (user : User) (ty : UserResponseType.t) :
  client_reachable c ->
  In a (app_alerts (store c)) ->
  auth_user (app_auth (store c)) = Some user ->
  let s := services c in
  let k := cursor (world s) in
  let r := response_built (al_id a) (user_id user) ty (world s) k in
  ~ In (ur_id r) (map ur_id (user_responses (db s))) ->
  ~ In (next_id "" (world s) (3 + snd (captured (oracle (world s)) k)))
       (map sq_id (sync_queue (db s))) ->
  let c' := handleSubmitResponse (Some (al_id a)) ty c in
  record_get (al_id a) (app_responses (store c')) = Some r /\
  In r (user_responses (db (services c'))) /\
  (exists row,
     In row (sync_queue (db (services c'))) /\
     sq_type row = SyncType.user_response /\
     sq_payload row = JSON_stringify (JObject (response_payload r))) /\
  alertScreen c' = mkAlertScreen false (Some ty).
Proof.
  intros Hr Ha Hu. cbv zeta. intros Hfr Hfq.
  destruct (client_reachable_ok c Hr) as (Hstored & Hid & _).
  pose proof (submitResponse_accepted (al_id a) (user_id user) ty (services c)
                (Hstored a Ha) Hfr Hfq) as Hret.
  destruct (submitResponse_returned _ _ _ _ _ Hret)
    as (_ & _ & _ & _ & _ & Hur & row & Hq & Hty & _ & Hp).
  unfold handleSubmitResponse. rewrite Hu.
  assert (Et : truthy_string (Some (al_id a)) = true)
    by now apply truthy_string_nonempty, Hid.
  rewrite Et. cbn [negb].
  destruct (submitResponse _ _ _ _) as [[r0|e] s']; cbn [fst snd] in *;
    [|discriminate Hret].
  injection Hret as ->. cbn [store services alertScreen].
  split; [unfold setResponse; cbn [app_responses with_app_responses];
          apply record_get_set_same|].
  split; [rewrite Hur; apply in_or_app; right; now left|].
  split; [|reflexivity].
  exists row. split; [rewrite Hq; apply in_or_app; right; now left|]. now split.
Qed.

(** X25. What the alert screen puts in the store was saved first: after
    [handleSubmitResponse], a response the store holds for an alert was
    either there before or is the row just inserted in [user_responses]
    for that alert. The handler does nothing without a route id or a
    signed-in user; otherwise it ends with the spinner cleared, and when
    [submitResponse] throws the store is as it was. *)
Theorem screen_shows_only_saved_responses (id : option string)
  (ty : UserResponseType.t) (c : Client) :
  let c' := handleSubmitResponse id ty c in
  (forall k r, record_get k (app_responses (store c')) = Some r ->
     record_get k (app_responses (store c)) = Some r \/
     (id = Some k /\ In r (user_responses (db (services c'))) /\
      ur_alertId r = k /\ ur_response r = ty)) /\
  (c' = c \/ alertScreen c' = mkAlertScreen false (Some ty)) /\
  (id = None \/ id = Some "" \/ auth_user (app_auth (store c)) = None -> c' = c) /\
  (forall alertId user e,
     id = Some alertId -> auth_user (app_auth (store c)) = Some user ->
     fst (submitResponse alertId (user_id user) ty (services c)) = Threw e ->
     store c' = store c).
Proof.
  cbv zeta. split; [|split; [|split]].
  - intros k r Hget.
    destruct (handleSubmitResponse_cases id ty c)
      as [E|(alertId & user & -> & _ & _ & Hs & _ & Hst)]; [rewrite E in Hget; now left|].
    destruct (fst (submitResponse alertId (user_id user) ty (services c)))
      as [response|e] eqn:Eret; [|rewrite Hst in Hget; now left].
    rewrite Hst in Hget. unfold setResponse in Hget.
    cbn [app_responses with_app_responses] in Hget.
    destruct (string_dec k alertId) as [->|Hne].
    + rewrite record_get_set_same in Hget. injection Hget as <-. right.
      destruct (submitResponse_returned _ _ _ _ _ Eret)
        as (_ & Ha & _ & Hty & _ & Hur & _).
      rewrite Hs, Hur. repeat split; auto. apply in_or_app. right. now left.
    + rewrite record_get_set_other in Hget by assumption. now left.
  - destruct (handleSubmitResponse_cases id ty c)
      as [E|(alertId & user & _ & _ & _ & _ & Hscr & _)]; auto.
  - unfold handleSubmitResponse. intros [->|[->|E]]; [reflexivity| |].
    + now destruct (auth_user _).
    + rewrite E. now destruct id.
  - intros alertId user e -> Hu He. unfold handleSubmitResponse. rewrite Hu.
    destruct (negb _); [reflexivity|].
    destruct (submitResponse _ _ _ _) as [[r0|e0] s']; [discriminate He|reflexivity].
Qed.



(** ** The cache of alerts *)

Section AlertCache.
Context {L : JsNumberLaws JN}.

Lemma response_options_wf l : json_wf (json_of_response_options l).
Proof.
  unfold json_of_response_options. induction l as [|r l IH]; cbn; [exact I|].
  split; [exact I | exact IH].
Qed.

Lemma truthy_stringify v : truthy_string (Some (JSON_stringify v)) = true.
Proof. destruct (stringify_head v) as (c & r & -> & _). reflexivity. Qed.

Lemma JSON_parse_outcome_stringify v :
  json_wf v -> JSON_parse_outcome (JSON_stringify v) = Returned v.
Proof. intros H. unfold JSON_parse_outcome. now rewrite JSON_parse_stringify. Qed.

Lemma alert_of_row_alert_row alert now :
  alert_wf alert ->
  alert_of_row (alert_row alert now) = Returned (loaded_of_alert alert).
Proof.
  intros Hwf. unfold alert_of_row, alert_row, loaded_of_alert.
  cbn [row_response_options row_metadata row_id row_title row_body row_severity
       row_status row_category row_issued_at row_expires_at row_requires_response].
  rewrite truthy_stringify, JSON_parse_outcome_stringify
    by apply response_options_wf.
  unfold alert_wf in Hwf. destruct (al_metadata alert) as [m|].
  - rewrite truthy_stringify, JSON_parse_outcome_stringify by exact Hwf.
    cbn [option_map]. now destruct (al_requiresResponse alert).
  - cbn [option_map]. now destruct (al_requiresResponse alert).
Qed.

Lemma map_outcome_written rows :
  written_by_persistAlert rows ->
  exists l,
    map_outcome alert_of_row rows = Returned l /\
    Forall2 (fun row x => exists alert now,
               row = alert_row alert now /\ x = loaded_of_alert alert) rows l.
Proof.
  induction 1 as [|row rows (alert & now & Hwf & ->) _ (l & E & Hl)].
  - exists []. split; [reflexivity | constructor].
  - exists (loaded_of_alert alert :: l). cbn [map_outcome].
    rewrite alert_of_row_alert_row by exact Hwf. rewrite E.
    split; [reflexivity|]. constructor; [|exact Hl]. now exists alert, now.
Qed.

Lemma Forall_firstn {A} (P : A -> Prop) n (l : list A) :
  Forall P l -> Forall P (firstn n l).
Proof.
  intros H. apply Forall_forall. intros x Hx. apply In_firstn in Hx.
  rewrite Forall_forall in H. now apply H.
Qed.

Lemma StronglySorted_firstn {A} (R : A -> A -> Prop) n : forall l,
  StronglySorted R l -> StronglySorted R (firstn n l).
Proof.
  induction n as [|n IH]; intros l Hs; [constructor|].
  destruct l as [|x l]; [constructor|]. cbn [firstn].
  inversion Hs as [|a b Hs' Hall]; subst. constructor; [now apply IH|].
  now apply Forall_firstn.
Qed.

Lemma StronglySorted_Forall2 {A B} (R : A -> A -> Prop) (R' : B -> B -> Prop)
  (Q : A -> B -> Prop) :
  (forall a1 a2 b1 b2, Q a1 b1 -> Q a2 b2 -> R a1 a2 -> R' b1 b2) ->
  forall l l', Forall2 Q l l' -> StronglySorted R l -> StronglySorted R' l'.
Proof.
  intros HQ l l' H. induction H as [|a b l l' Hab Hl IH]; intros Hs; [constructor|].
  inversion Hs as [|x y Hs' Hall]; subst. constructor; [now apply IH|].
  clear IH Hs Hs'. induction Hl as [|a2 b2 l l' Hab2 Hl IH2]; [constructor|].
  inversion Hall; subst. constructor; [eapply HQ; eauto | now apply IH2].
Qed.

Lemma issued_desc_total x y : issued_desc x y = true \/ issued_desc y x = true.
Proof. unfold issued_desc. apply String.leb_total. Qed.

Lemma issued_desc_trans x y z :
  issued_desc x y = true -> issued_desc y z = true -> issued_desc x z = true.
Proof. unfold issued_desc. intros H1 H2. eapply string_leb_trans; eauto. Qed.

(** X27. Round trip through the cache: the row [persistAlert] writes for an
    alert reads back, through [loadCachedAlerts], as that alert, field for
    field; a table that holds this one row loads as this one alert.
    Metadata come back as the object they were, response options as the
    array they were, [requiresResponse] through its 1 or 0. *)
Theorem persisted_alert_loads_back (alert : Alert) (now : Z) :
  alert_wf alert ->
  alert_of_row (alert_row alert now) = Returned (loaded_of_alert alert) /\
  loadCachedAlerts (alerts_after_persistAlert alert now [])
  = Returned [loaded_of_alert alert].
Proof.
  intros Hwf. split; [now apply alert_of_row_alert_row|].
  unfold loadCachedAlerts, alerts_after_persistAlert, insert_or_replace_alert,
    select_cached_alerts.
  cbn [filter app sort_by insert_by firstn map_outcome].
  now rewrite alert_of_row_alert_row.
Qed.

Lemma Forall2_In_r {A B} (Q : A -> B -> Prop) l l' y :
  Forall2 Q l l' -> In y l' -> exists x, In x l /\ Q x y.
Proof.
  induction 1 as [|a b l l' Hab Hl IH]; intros Hy; [contradiction|].
  destruct Hy as [<-|Hy].
  - exists a. split; [now left | assumption].
  - destruct (IH Hy) as (x & Hx & HQ). exists x. split; [now right | assumption].
Qed.

Lemma map_outcome_In {A B} (f : A -> Outcome B) rows : forall l row,
  map_outcome f rows = Returned l -> In row rows ->
  exists x, In x l /\ f row = Returned x.
Proof.
  induction rows as [|r rows IH]; intros l row E Hin; [contradiction|].
  cbn [map_outcome] in E. destruct (f r) as [b|e] eqn:Er; [|discriminate E].
  destruct (map_outcome f rows) as [bs|e]; [|discriminate E].
  injection E as <-. destruct Hin as [<-|Hin].
  - exists b. split; [now left | exact Er].
  - destruct (IH bs row eq_refl Hin) as (x & Hx & Ex).
    exists x. split; [now right | exact Ex].
Qed.

(** X28. On a table written by [persistAlert], [loadCachedAlerts] never
    throws: it returns the 50 alerts with the latest [issued_at] (all of
    them when there are fewer), the latest first, each the alert that one
    of the rows was written from; a row that is not loaded was issued no
    later than any alert that is. *)
Theorem cached_alerts_load_newest_first (t : list AlertRow) :
  written_by_persistAlert t ->
  exists l,
    loadCachedAlerts t = Returned l /\
    List.length l = Nat.min 50 (List.length t) /\
    StronglySorted
      (fun a b => String.leb (la_issuedAt b) (la_issuedAt a) = true) l /\
    (forall x, In x l ->
       exists alert now, In (alert_row alert now) t /\ x = loaded_of_alert alert) /\
    (forall row, In row t ->
       (exists x, In x l /\ alert_of_row row = Returned x) \/
       (forall y, In y l ->
          String.leb (row_issued_at row) (la_issuedAt y) = true)).
Proof.
  intros Hw. unfold loadCachedAlerts, select_cached_alerts.
  set (sorted := sort_by issued_desc t).
  assert (Hs : StronglySorted (fun a b => issued_desc a b = true) sorted)
    by apply (sort_by_sorted issued_desc issued_desc_total issued_desc_trans).
  assert (Hws : written_by_persistAlert (firstn 50 sorted)).
  { apply Forall_firstn. unfold written_by_persistAlert in *.
    rewrite Forall_forall in *. intros row Hrow. apply Hw.
    now apply (sort_by_In issued_desc). }
  destruct (map_outcome_written _ Hws) as (l & E & Hl).
  exists l. split; [exact E|]. split; [|split; [|split]].
  - rewrite <- (Forall2_length Hl), length_firstn. unfold sorted.
    now rewrite sort_by_length.
  - eapply (StronglySorted_Forall2 (fun a b => issued_desc a b = true));
      [|exact Hl|now apply StronglySorted_firstn].
    intros a1 a2 b1 b2 (a & n1 & -> & ->) (a' & n2 & -> & ->) HR. exact HR.
  - intros x Hx. destruct (Forall2_In_r _ _ _ _ Hl Hx) as (row & Hrow & alert & now & -> & ->).
    exists alert, now. split; [|reflexivity].
    apply In_firstn in Hrow. unfold sorted in Hrow.
    exact (proj1 (sort_by_In issued_desc _ _) Hrow).
  - intros row Hrow. apply (proj2 (sort_by_In issued_desc _ _)) in Hrow.
    fold sorted in Hrow.
    rewrite <- (firstn_skipn 50 sorted) in Hrow, Hs.
    apply in_app_or in Hrow. destruct Hrow as [Hin|Hout].
    + left. now apply (map_outcome_In alert_of_row _ l row E).
    + right. intros y Hy.
      destruct (Forall2_In_r _ _ _ _ Hl Hy) as (ry & Hry & alert & now & -> & ->).
      pose proof (StronglySorted_app_le _ _ _ _ _ Hs Hry Hout) as HR.
      exact HR.
Qed.


(** X29. [persistAlert] keeps one row per alert id: the row it writes
    replaces the row of that id, if there was one, and no other row is
    touched. The keys of the table afterwards are those that the store's
    statement leaves in [alerts]. *)
Theorem persistAlert_keeps_one_row_per_id (alert : Alert) (now : Z)
  (t : list AlertRow) :
  NoDup (map row_id t) ->
  let t' := alerts_after_persistAlert alert now t in
  NoDup (map row_id t') /\
  In (alert_row alert now) t' /\
  (forall row, In row t' -> row_id row = al_id alert -> row = alert_row alert now) /\
  (forall row, row_id row <> al_id alert -> (In row t' <-> In row t)) /\
  (forall d : Db,
     (forall id, alert_exists d id = true <-> In id (map row_id t)) ->
     exists d',
       exec_stmt now (InsertOrReplaceAlert (al_id alert)) d = Some d' /\
       forall id, alert_exists d' id = true <-> In id (map row_id t')).
Proof.
  intros Hnd. cbv zeta. unfold alerts_after_persistAlert, insert_or_replace_alert.
  change (row_id (alert_row alert now)) with (al_id alert).
  set (others := filter (fun r => negb (String.eqb (row_id r) (al_id alert))) t).
  assert (Hothers : forall row, In row others <-> In row t /\ row_id row <> al_id alert).
  { intros row. unfold others. rewrite filter_In, negb_true_iff, String.eqb_neq.
    reflexivity. }
  assert (Hkeys : forall id, In id (map row_id (others ++ [alert_row alert now]))
                             <-> id = al_id alert \/ In id (map row_id t)).
  { intros id. rewrite map_app, in_app_iff. cbn [map In row_id alert_row].
    rewrite !in_map_iff. split.
    - intros [(row & <- & Hrow)|[<-|[]]]; [|now left].
      right. exists row. split; [reflexivity|]. now apply Hothers.
    - intros [->|(row & <- & Hrow)]; [right; now left|].
      destruct (string_dec (row_id row) (al_id alert)) as [E|Hne];
        [right; left; now rewrite E|].
      left. exists row. split; [reflexivity|]. now apply Hothers. }
  split; [|split; [|split; [|split]]].
  - rewrite map_app. apply NoDup_app.
    + unfold others. now apply NoDup_map_filter.
    + repeat constructor. intros [].
    + intros id Hin [<-|[]]. apply in_map_iff in Hin.
      destruct Hin as (row & E & Hrow). apply Hothers in Hrow. tauto.
  - apply in_or_app. right. now left.
  - intros row Hrow Hid. apply in_app_or in Hrow. destruct Hrow as [Hrow|[<-|[]]];
      [|reflexivity]. apply Hothers in Hrow. tauto.
  - intros row Hne. rewrite in_app_iff, Hothers. split.
    + intros [[H _]|[<-|[]]]; [assumption|]. now contradiction Hne.
    + intros H. left. now split.
  - intros d Hd. cbn [exec_stmt].
    destruct (alert_exists d (al_id alert)) eqn:E.
    + exists d. split; [reflexivity|]. intros id. rewrite Hkeys, Hd. split; [tauto|].
      intros [->|H]; [|exact H]. now apply Hd.
    + eexists. split; [reflexivity|]. intros id. rewrite Hkeys, <- Hd.
      unfold alert_exists. cbn [alerts]. rewrite !mem_string_In, in_app_iff.
      cbn [In]. split.
      * intros [H|[<-|[]]]; [now right | now left].
      * intros [->|H]; [right; now left | now left].
Qed.

End AlertCache.

End Properties.

(** ** The integers as numbers *)


Lemma digits_span d :
  fst (span_number (NilEmpty.string_of_uint d)) = NilEmpty.string_of_uint d.
Proof.
  induction d; cbn [NilEmpty.string_of_uint span_number]; try reflexivity;
    match goal with
    | |- context [is_number_char ?c] => change (is_number_char c) with true
    end; cbv iota; destruct (span_number _); cbn in *; now f_equal.
Qed.

Lemma digits_start d :
  d <> Decimal.Nil ->
  exists c r, NilEmpty.string_of_uint d = String c r /\ is_number_start c = true.
Proof. destruct d; intros H; try congruence; cbn; eauto. Qed.

Lemma Z_to_string_token z :
  exists c r, Z_to_string z = String c r /\
              is_number_start c = true /\
              fst (span_number (String c r)) = String c r.
Proof.
  unfold Z_to_string. destruct z as [|p|p]; cbn [Z.to_int NilZero.string_of_int].
  - exists "0"%char, ""%string. now repeat split.
  - pose proof (DecimalPos.Unsigned.to_uint_nonnil p) as Hn.
    destruct (digits_start _ Hn) as (c & r & E & Hs).
    exists c, r. unfold NilZero.string_of_uint.
    destruct (Pos.to_uint p) eqn:Ep; try congruence;
      (split; [exact E|]; split; [exact Hs|]; rewrite <- E; apply digits_span).
  - pose proof (DecimalPos.Unsigned.to_uint_nonnil p) as Hn.
    exists "-"%char, (NilZero.string_of_uint (Pos.to_uint p)).
    split; [reflexivity|]. split; [reflexivity|].
    unfold NilZero.string_of_uint.
    destruct (Pos.to_uint p) eqn:Ep; try congruence;
      cbn [span_number]; change (is_number_char "-") with true; cbv iota;
      match goal with |- context [span_number ?s] =>
        pose proof (digits_span (Pos.to_uint p)) as Hd; rewrite Ep in Hd;
        destruct (span_number s) end; cbn in *; now f_equal.
Qed.

Lemma Z_of_string_to_string z : Z_of_string (Z_to_string z) = Some z.
Proof.
  unfold Z_of_string, Z_to_string. rewrite NilZero.isi.
  - now rewrite DecimalZ.of_to, String.eqb_refl.
  - destruct z; cbn; try discriminate.
    intros [= H]. now apply (DecimalPos.Unsigned.to_uint_nonnil p).
  - destruct z; cbn; try discriminate.
    intros [= H]. now apply (DecimalPos.Unsigned.to_uint_nonnil p).
Qed.

Lemma Z_JsNumberLaws : JsNumberLaws Z_JsNumber.
Proof.
  split.
  - exact Z_of_string_to_string.
  - exact Z_to_string_token.
Qed.

(** ** Generated identifiers *)

Lemma digits_no_dash d : no_dash (NilEmpty.string_of_uint d).
Proof. induction d; cbn; auto; split; auto; discriminate. Qed.

Lemma Z_to_string_no_dash z : 0 <= z -> no_dash (Z_to_string z).
Proof.
  intros Hz. unfold Z_to_string.
  destruct z as [|p|p]; [cbn; split; [discriminate|exact I] | | lia].
  cbn [Z.to_int NilZero.string_of_int]. unfold NilZero.string_of_uint.
  destruct (Pos.to_uint p) eqn:E; try apply digits_no_dash.
  cbn. split; [discriminate|exact I].
Qed.

Lemma dash_splits a : forall b x y,
  no_dash a -> no_dash b ->
  (a ++ String "-" x)%string = (b ++ String "-" y)%string -> a = b.
Proof.
  induction a as [|c a IH]; intros [|d b] x y Ha Hb E; cbn in *.
  - reflexivity.
  - injection E as E _. destruct Hb as [Hd _]. now subst.
  - injection E as E _. destruct Ha as [Hc _]. now subst.
  - injection E as -> E. f_equal. eapply IH; eauto; tauto.
Qed.

Lemma Z_to_string_inj z1 z2 : Z_to_string z1 = Z_to_string z2 -> z1 = z2.
Proof.
  intros E. pose proof (Z_of_string_to_string z1) as H1.
  rewrite E, Z_of_string_to_string in H1. now injection H1.
Qed.

Lemma append_inv_head p : forall a b, (p ++ a)%string = (p ++ b)%string -> a = b.
Proof. induction p as [|c p IH]; cbn; intros a b E; [assumption|]. injection E. apply IH. Qed.

Section Identifiers.
Context {JN : JsNumber}.

(** X8. [generateId] always returns, and the identifiers it makes at two
    different readings of the clock are different, whatever the random
    parts are: a key of the store can only be refused for an identifier
    made within the same millisecond as an earlier one. *)
Theorem ids_of_distinct_instants_differ (prefix : string) (s1 s2 : St) :
  let t1 := getTime (ans_now (oracle (world s1) (cursor (world s1)))) in
  let t2 := getTime (ans_now (oracle (world s2) (cursor (world s2)))) in
  0 <= t1 -> 0 <= t2 -> t1 <> t2 ->
  exists id1 id2,
    fst (generateId prefix s1) = Returned id1 /\
    fst (generateId prefix s2) = Returned id2 /\
    id1 <> id2.
Proof.
  intros t1 t2 H1 H2 Hne. do 2 eexists. split; [reflexivity|]. split; [reflexivity|].
  cbn. fold t1 t2. intros E. apply append_inv_head in E.
  apply Hne, Z_to_string_inj.
  eapply dash_splits; [| |exact E]; now apply Z_to_string_no_dash.
Qed.

End Identifiers.

(** * The properties at work *)

Section Witnesses.
#[local] Existing Instance Z_JsNumber.
#[local] Existing Instance Z_JsNumberLaws.

Lemma nodupb_sound l : nodupb l = true -> NoDup l.
Proof.
  induction l as [|x l IH]; cbn; intros H; [constructor|].
  apply andb_true_iff in H. destruct H as [Hx Hl]. constructor; auto.
  apply negb_true_iff in Hx. now apply mem_string_not_In.
Qed.

Lemma pending_rows_ready n r :
  In r (pending_rows n) ->
  sq_status r = SyncStatus.pending /\ sq_retry_count r < MAX_RETRIES /\
  JSON_parse (sq_payload r) <> None.
Proof.
  unfold pending_rows. intros H. apply in_map_iff in H. destruct H as (i & <- & _).
  split; [reflexivity|]. split; [reflexivity|].
  vm_compute. discriminate.
Qed.

Lemma script_always_ok net k :
  exists resp, ans_http (script net http_ok k) = Resolved resp /\ resp_ok resp = true.
Proof. eexists. split; reflexivity. Qed.

Lemma no_position net http k : location_fails (world_of net http) k.
Proof. split; [eexists; reflexivity | right; reflexivity]. Qed.

(** The scenario of the specification: an item whose delivery always
    fails has, after five passes, retry count 5 and status [failed]; a
    sixth pass attempts nothing. *)
Lemma exhausted_after_five_passes :
  map (fun r => (sq_status r, sq_retry_count r)) (sync_queue (db five_failed_passes))
  = [(SyncStatus.failed, 5)] /\
  select_pending MAX_RETRIES (db five_failed_passes) = [] /\
  fst (processSyncQueue five_failed_passes) = Returned 0.
Proof. vm_compute. repeat split. Qed.

Lemma retry_bound_and_exhaustion_witness :
  reachable five_failed_passes /\
  Forall (fun r => sq_retry_count r <= MAX_RETRIES)
         (sync_queue (db five_failed_passes)).
Proof.
  assert (H : reachable five_failed_passes).
  { unfold five_failed_passes. apply reachable_run_ops. constructor. }
  split; [exact H|].
  exact (proj1 (retry_bound_and_exhaustion five_failed_passes H)).
Defined.

Lemma concurrent_drain_is_noop_witness :
  isSyncing drain_in_flight = true /\
  processSyncQueue drain_in_flight = (Returned 0, drain_in_flight) /\
  processSyncQueue_detached drain_in_flight = (Returned tt, drain_in_flight).
Proof.
  split; [reflexivity|].
  apply (concurrent_drain_is_noop drain_in_flight). reflexivity.
Defined.

Lemma offline_failure_aborts_pass_witness :
  isSyncing three_pending_offline = false /\
  NoDup (map sq_id (sync_queue (db three_pending_offline))) /\
  exists evs,
    trace (snd (processSyncQueue three_pending_offline)) = evs /\
    attempted evs = ["q1"] /\
    sync_queue (db (snd (processSyncQueue three_pending_offline)))
    = [set_failed "Network request failed" (pending_row 1);
       pending_row 2; pending_row 3].
Proof.
  assert (Hnd : NoDup (map sq_id (sync_queue (db three_pending_offline))))
    by (apply nodupb_sound; reflexivity).
  split; [reflexivity|]. split; [exact Hnd|].
  destruct (offline_failure_aborts_pass three_pending_offline eq_refl Hnd)
    as (evs & Htrace & _).
  exists evs. split; [exact Htrace|].
  assert (E : evs = trace (snd (processSyncQueue three_pending_offline)))
    by (symmetry; exact Htrace).
  rewrite E. split; vm_compute; reflexivity.
Defined.

Lemma connect_failure_marks_failed_only_witness :
  In the_call (map cl_id (call_logs (db call_connecting))) /\
  db (snd (on_connectFailure the_call call_connecting)) = db call_connecting /\
  map cl_status
      (call_logs (db (snd ((on_connectFailure the_call ;;; run_next) call_connecting))))
  = [CallStatus.failed] /\
  sync_queue (db (snd ((on_connectFailure the_call ;;; run_next) call_connecting)))
  = sync_queue (db call_connecting).
Proof.
  assert (H : In the_call (map cl_id (call_logs (db call_connecting))))
    by (vm_compute; now left).
  split; [exact H|].
  destruct (connect_failure_marks_failed_only the_call call_connecting H)
    as (_ & Hdb & _).
  split; [exact Hdb|].
  split; vm_compute; reflexivity.
Defined.

Lemma response_without_location_is_persisted_witness :
  location_fails (world (one_alert offline)) (cursor (world (one_alert offline))) /\
  exists r,
    fst (submitResponse "A1" "u1" UserResponseType.safe (one_alert offline))
    = Returned r /\
    ur_latitude r = None /\ ur_longitude r = None.
Proof.
  assert (H : location_fails (world (one_alert offline))
                             (cursor (world (one_alert offline))))
    by apply no_position.
  split; [exact H|].
  destruct (response_without_location_is_persisted "A1" "u1" UserResponseType.safe
              (one_alert offline) H) as (_ & Hok & _).
  destruct Hok as (Hr & Hlat & Hlon & _).
  - reflexivity.
  - vm_compute. tauto.
  - vm_compute. tauto.
  - eexists. split; [exact Hr|]. split; [exact Hlat | exact Hlon].
Defined.

(** C6, as stated, fails where the alert is not in the store: the
    FOREIGN KEY of [user_responses] refuses the row and [submitResponse]
    throws, with the location failing or not. *)
Lemma submit_for_unknown_alert_fails :
  ~ submit_always_persists "A404" "u1" UserResponseType.safe no_alert.
Proof.
  assert (E : fst (submitResponse "A404" "u1" UserResponseType.safe no_alert)
              = Threw (JsError "constraint failed")) by (vm_compute; reflexivity).
  intros H. destruct (H (no_position _ _ _)) as (r & Hr & _).
  rewrite E in Hr. discriminate Hr.
Qed.

Lemma prune_keeps_newest_hundred_witness :
  isSyncing hundred_and_one_pending = false /\
  NoDup (map sq_id (sync_queue (db hundred_and_one_pending))) /\
  (List.length
     (filter is_synced (sync_queue (db (snd (processSyncQueue hundred_and_one_pending)))))
   <= 100)%nat.
Proof.
  assert (Hnd : NoDup (map sq_id (sync_queue (db hundred_and_one_pending))))
    by (apply nodupb_sound; vm_compute; reflexivity).
  split; [reflexivity|]. split; [exact Hnd|].
  exact (proj1 (proj2 (prune_keeps_newest_hundred hundred_and_one_pending eq_refl Hnd))).
Defined.

Lemma enqueue_persists_and_triggers_witness :
  ~ In (next_id "" (world (one_alert connected_online)) 0)
       (map sq_id (sync_queue (db (one_alert connected_online)))) /\
  fst (enqueue SyncType.user_response sample_payload (one_alert connected_online))
  = Returned "1700000000000-k3f9a2b" /\
  isSyncing (snd (enqueue SyncType.user_response sample_payload
                          (one_alert connected_online))) = true /\
  detached (snd (enqueue SyncType.user_response sample_payload
                         (one_alert connected_online))) = [TProcessSyncQueue].
Proof.
  assert (Hfresh : ~ In (next_id "" (world (one_alert connected_online)) 0)
                        (map sq_id (sync_queue (db (one_alert connected_online)))))
    by (intros []).
  split; [exact Hfresh|].
  destruct (enqueue_persists_and_triggers SyncType.user_response sample_payload
              (one_alert connected_online)) as (Hok & _).
  destruct (Hok Hfresh) as (Hid & _ & Htrig & _).
  split; [exact Hid|]. exact (Htrig eq_refl eq_refl).
Defined.

Lemma drain_of_pending_items_witness :
  isSyncing three_pending_online = false /\
  fst (processSyncQueue three_pending_online) = Returned 3 /\
  fst (getPendingCount (snd (processSyncQueue three_pending_online))) = Returned 0 /\
  List.length (filter is_synced
                 (sync_queue (db (snd (processSyncQueue three_pending_online)))))
  = 3%nat.
Proof.
  split; [reflexivity|].
  apply (drain_of_pending_items 3 three_pending_online).
  - reflexivity.
  - apply nodupb_sound. reflexivity.
  - reflexivity.
  - apply pending_rows_ready.
  - intros k. apply script_always_ok.
Defined.

(** C9, as stated, fails from 101 items on: the pass returns 101 and
    empties the pending count, but the prune that ends it leaves 100
    synced rows, not 101. *)
Lemma drain_of_101_leaves_100_synced :
  ~ drain_leaves_exactly_N_synced 101 hundred_and_one_pending.
Proof.
  intros H.
  assert (Hnd : NoDup (map sq_id (sync_queue (db hundred_and_one_pending))))
    by (apply nodupb_sound; vm_compute; reflexivity).
  destruct (H eq_refl Hnd eq_refl (pending_rows_ready 101)
              (fun k => script_always_ok connected_online k)) as (_ & _ & Hlen).
  pose proof (drain_of_pending_items 101 hundred_and_one_pending eq_refl Hnd eq_refl
                (pending_rows_ready 101)
                (fun k => script_always_ok connected_online k)) as (_ & _ & Hmin).
  rewrite Hmin in Hlen. discriminate Hlen.
Qed.

Lemma sample_payload_wf : json_wf (JObject sample_payload).
Proof.
  cbn. repeat split; try exact I; apply nodupb_sound; reflexivity.
Qed.

Lemma queued_payload_is_delivered_verbatim_witness :
  json_wf (JObject sample_payload) /\
  exists r,
    In r (sync_queue (db (snd (enqueue SyncType.user_response sample_payload
                                       (one_alert offline))))) /\
    JSON_parse (sq_payload r) = Some (JObject sample_payload).
Proof.
  split; [exact sample_payload_wf|].
  destruct (queued_payload_is_delivered_verbatim SyncType.user_response
              sample_payload (one_alert offline) sample_payload_wf)
    as (r & Hin & _ & _ & _ & Hparse & _).
  - intros [].
  - exists r. split; [exact Hin | exact Hparse].
Defined.

(** The scenario of the specification: a response enqueued while
    offline stays [pending]; when connectivity comes back the drain
    delivers it, and nothing is pending any more. *)
Lemma response_enqueued_offline_syncs_later :
  map sq_status
      (sync_queue (db (snd (run_op (OpSubmitResponse "A1" "u1" UserResponseType.safe)
                                   (one_alert offline)))))
  = [SyncStatus.pending] /\
  map sq_status (sync_queue (db response_synced_later)) = [SyncStatus.synced] /\
  fst (getPendingCount response_synced_later) = Returned 0.
Proof. vm_compute. repeat split. Qed.

(** The same defect on the ordinary path: hanging up a connected call
    runs [handleCallEnd] twice, once from [endCall] and once from the
    "disconnected" event [endCall] provokes, and queues two [call_log]
    items for the one call. *)
Lemma hanging_up_enqueues_twice :
  map sq_type (sync_queue (db call_hung_up))
  = [SyncType.call_log; SyncType.call_log].
Proof. vm_compute. reflexivity. Qed.

(** C4. The code at the failing input: a call that the backend's
    "disconnected" event has already ended (its persisted status is
    [disconnected], one [call_log] item is queued) receives the event a
    second time. The handler runs again in full: the row's duration is
    overwritten with NULL and its end time with the new time, and a
    second [call_log] item is enqueued. The redundant event is not a
    no-op. *)
Theorem redundant_disconnected_event_is_handled_again :
  map (fun c => (cl_id c, cl_status c, cl_durationSeconds c))
      (call_logs (db call_ended_once))
  = [(the_call, CallStatus.disconnected, Some 3)] /\
  map (fun c => (cl_id c, cl_status c, cl_durationSeconds c))
      (call_logs (db call_ended_twice))
  = [(the_call, CallStatus.disconnected, None)] /\
  map sq_type (sync_queue (db call_ended_once)) = [SyncType.call_log] /\
  map sq_type (sync_queue (db call_ended_twice))
  = [SyncType.call_log; SyncType.call_log] /\
  ~ redundant_disconnect_is_noop the_call call_ended_once.
Proof.
  split; [vm_compute; reflexivity|].
  split; [vm_compute; reflexivity|].
  split; [vm_compute; reflexivity|].
  split; [vm_compute; reflexivity|].
  apply enqueues_again_so_not_noop.
  - vm_compute. reflexivity.
  - vm_compute. discriminate.
Qed.

(** ** The rest of the client at work *)

Lemma queue_with_stuck_row_ok : queue_ok (sync_queue (db queue_with_stuck_row)).
Proof.
  split; [apply nodupb_sound; reflexivity|].
  repeat constructor; cbn; unfold MAX_RETRIES; lia.
Qed.

Lemma syncing_row_is_never_picked_up_witness :
  sq_status stuck_row = SyncStatus.syncing /\
  In stuck_row
     (sync_queue (db (run_ops [OpProcessSyncQueue; OpProcessSyncQueue]
                              queue_with_stuck_row))) /\
  fst (getPendingCount (run_ops [OpProcessSyncQueue; OpProcessSyncQueue]
                                queue_with_stuck_row)) = Returned 0.
Proof.
  split; [reflexivity|].
  destruct (syncing_row_is_never_picked_up stuck_row
              [OpProcessSyncQueue; OpProcessSyncQueue] queue_with_stuck_row
              eq_refl queue_with_stuck_row_ok (or_introl eq_refl))
    as (Hin & _ & _).
  split; [exact Hin|]. vm_compute. reflexivity.
Defined.

Lemma pass_lowers_pending_by_delivered_witness :
  isSyncing three_pending_online = false /\
  exists before n,
    fst (getPendingCount three_pending_online) = Returned before /\
    fst (processSyncQueue three_pending_online) = Returned n /\
    0 <= n <= before /\
    fst (getPendingCount (snd (processSyncQueue three_pending_online)))
    = Returned (before - n).
Proof.
  split; [reflexivity|].
  apply (pass_lowers_pending_by_delivered three_pending_online eq_refl).
  apply nodupb_sound. reflexivity.
Defined.

Lemma two_enqueued_online_reachable : reachable two_enqueued_online.
Proof. unfold two_enqueued_online. apply reachable_run_ops. constructor. Qed.

Lemma at_most_one_drain_in_flight_witness :
  reachable two_enqueued_online /\
  List.length (sync_queue (db two_enqueued_online)) = 2%nat /\
  (parked_passes two_enqueued_online <= 1)%nat /\
  In TProcessSyncQueue (detached two_enqueued_online).
Proof.
  split; [exact two_enqueued_online_reachable|]. split; [reflexivity|].
  destruct (at_most_one_drain_in_flight two_enqueued_online
              two_enqueued_online_reachable) as (Hle & Hiff).
  split; [exact Hle|]. apply Hiff. reflexivity.
Defined.

Lemma guard_is_released_when_settled_witness :
  reachable two_enqueued_online /\
  isSyncing two_enqueued_online = true /\
  isSyncing (snd (settle (parked_work two_enqueued_online) two_enqueued_online))
  = false.
Proof.
  split; [exact two_enqueued_online_reachable|]. split; [reflexivity|].
  exact (proj1 (proj2 (guard_is_released_when_settled two_enqueued_online
                         two_enqueued_online_reachable))).
Defined.

Lemma background_task_reports_progress_witness :
  NoDup (map sq_id (sync_queue (db three_pending_online))) /\
  fst (backgroundSyncTask three_pending_online)
  = Returned BackgroundFetchResult.NewData /\
  fst (backgroundSyncTask drain_in_flight) = Returned BackgroundFetchResult.NoData /\
  exists r,
    fst (backgroundSyncTask three_pending_online) = Returned r /\
    r <> BackgroundFetchResult.Failed.
Proof.
  assert (Hnd : NoDup (map sq_id (sync_queue (db three_pending_online))))
    by (apply nodupb_sound; reflexivity).
  split; [exact Hnd|]. split; [vm_compute; reflexivity|].
  split; [vm_compute; reflexivity|].
  destruct (background_task_reports_progress three_pending_online Hnd)
    as (r & Hr & Hnf & _).
  exists r. split; [exact Hr | exact Hnf].
Defined.


Lemma ids_of_distinct_instants_differ_witness :
  exists id1 id2,
    fst (generateId "resp-" three_pending_online) = Returned id1 /\
    fst (generateId "resp-" (snd (generateId "resp-" three_pending_online)))
    = Returned id2 /\
    id1 <> id2.
Proof.
  apply (ids_of_distinct_instants_differ "resp-" three_pending_online
           (snd (generateId "resp-" three_pending_online)));
    vm_compute; congruence.
Defined.

Lemma dialer_fallback_without_sdk_witness :
  TwilioVoice (world without_sdk) = false /\
  fst (makeHotlineCall "+15550100" (Some "A1") without_sdk)
  = Returned "call-1700000000000-k3f9a2b" /\
  trace (snd (makeHotlineCall "+15550100" (Some "A1") without_sdk))
  = [EvSql (InsertCallLog
              (mkCallLog "call-1700000000000-k3f9a2b" (Some "A1") "" "+15550100"
                         "2023-11-14T22:13:20Z+2" None None None
                         CallStatus.connecting None));
     EvStatusChange CallStatus.connecting "call-1700000000000-k3f9a2b";
     EvOpenURL "tel:+15550100"].
Proof.
  split; [reflexivity|].
  destruct (dialer_fallback_without_sdk "+15550100" (Some "A1") without_sdk eq_refl)
    as (Hret & _ & Htrace & _).
  - intros [].
  - reflexivity.
  - split; [exact Hret | exact Htrace].
Defined.

Lemma placement_failure_is_reported_not_thrown_witness :
  TwilioVoice (world (one_alert offline)) = true /\
  fst (makeHotlineCall "+15550100" (Some "A1") (one_alert offline))
  = Returned "call-1700000000000-k3f9a2b" /\
  activeCallId (snd (makeHotlineCall "+15550100" (Some "A1") (one_alert offline)))
  = Some "call-1700000000000-k3f9a2b".
Proof.
  split; [reflexivity|].
  destruct (placement_failure_is_reported_not_thrown "+15550100" (Some "A1")
              (one_alert offline) eq_refl) as (Hret & _ & _ & Hid & _).
  - intros [].
  - reflexivity.
  - split; [exact Hret | exact Hid].
Defined.

Lemma endCall_after_completed_end_is_noop_witness :
  activeCallId call_connecting = Some the_call /\
  let ended :=
    snd (run_task (THandleCallEnd the_call (mkDate 1700000009000 "2023-11-14T22:13:29Z")
                                  (Some 9)) call_connecting) in
  activeCallId ended = None /\ endCall ended = (Returned tt, ended).
Proof.
  split; [reflexivity|]. cbv zeta.
  destruct (endCall_after_completed_end_is_noop the_call
              (mkDate 1700000009000 "2023-11-14T22:13:29Z") (Some 9) call_connecting)
    as (Hid & _ & _ & Hnoop).
  - intros [].
  - split; [exact Hid | exact Hnoop].
Defined.

Lemma call_end_row_and_item_agree_witness :
  exists row,
    sync_queue
      (db (snd (run_task (THandleCallEnd the_call
                            (mkDate 1700000009000 "2023-11-14T22:13:29Z") (Some 9))
                         call_connecting)))
    = [row] /\
    JSON_parse (sq_payload row)
    = Some (JObject [("callId", JString the_call);
                     ("endedAt", JString "2023-11-14T22:13:29Z");
                     ("durationSeconds", JNumber 9)]) /\
    map (fun c => (cl_status c, cl_endedAt c, cl_durationSeconds c))
        (call_logs
           (db (snd (run_task (THandleCallEnd the_call
                                 (mkDate 1700000009000 "2023-11-14T22:13:29Z")
                                 (Some 9))
                              call_connecting))))
    = [(CallStatus.disconnected, Some "2023-11-14T22:13:29Z", Some 9)].
Proof.
  destruct (call_end_row_and_item_agree the_call
              (mkDate 1700000009000 "2023-11-14T22:13:29Z") (Some 9) call_connecting)
    as (_ & row & Hq & _ & _ & _ & Hp).
  - intros [].
  - exists row. split; [exact Hq|]. split; [exact Hp|]. vm_compute. reflexivity.
Defined.

Lemma submitted_response_is_found_witness :
  let r := @mkUserResponse Z_JsNumber "resp-1700000002000-k3f9a2b" "A1" "u1"
             UserResponseType.safe None None None "2023-11-14T22:13:20Z+4" None in
  fst (getResponseForAlert "A1" "u1" one_response_stored)
  = Returned (Some earlier_response) /\
  fst (submitResponse "A1" "u1" UserResponseType.safe one_response_stored)
  = Returned r /\
  fst (getResponseForAlert "A1" "u1"
         (snd (submitResponse "A1" "u1" UserResponseType.safe one_response_stored)))
  = Returned (Some r).
Proof.
  cbv zeta. split; [vm_compute; reflexivity|].
  assert (Hr : fst (submitResponse "A1" "u1" UserResponseType.safe
                                   one_response_stored)
               = Returned (@mkUserResponse Z_JsNumber "resp-1700000002000-k3f9a2b"
                             "A1" "u1" UserResponseType.safe None None None
                             "2023-11-14T22:13:20Z+4" None))
    by (vm_compute; reflexivity).
  split; [exact Hr|].
  assert (Hlater : forall old,
            In old (user_responses (db one_response_stored)) ->
            ur_alertId old = "A1" -> ur_userId old = "u1" ->
            String.ltb (ur_respondedAt old) "2023-11-14T22:13:20Z+4" = true).
  { change (user_responses (db one_response_stored)) with [earlier_response].
    intros old [<-|[]] _ _. vm_compute. reflexivity. }
  exact (f_equal fst (proj1 (submitted_response_is_found "A1" "u1"
                              UserResponseType.safe one_response_stored _ Hr Hlater))).
Defined.

Lemma response_carries_the_captured_location_witness :
  let r := @mkUserResponse Z_JsNumber "resp-1700000001000-k3f9a2b" "A1" "u1"
             UserResponseType.need_assistance (Some 52) (Some 13) (Some (-1))
             "2023-11-14T22:13:20Z+3" None in
  fst (submitResponse "A1" "u1" UserResponseType.need_assistance one_alert_with_fix)
  = Returned r /\
  ur_locationAccuracy r = Some (-1) /\
  user_responses
    (db (snd (submitResponse "A1" "u1" UserResponseType.need_assistance
                             one_alert_with_fix)))
  = [r].
Proof.
  cbv zeta.
  assert (Hr : fst (submitResponse "A1" "u1" UserResponseType.need_assistance
                                   one_alert_with_fix)
               = Returned (@mkUserResponse Z_JsNumber "resp-1700000001000-k3f9a2b"
                             "A1" "u1" UserResponseType.need_assistance (Some 52)
                             (Some 13) (Some (-1)) "2023-11-14T22:13:20Z+3" None))
    by (vm_compute; reflexivity).
  split; [exact Hr|].
  destruct (response_carries_the_captured_location "A1" "u1"
              UserResponseType.need_assistance one_alert_with_fix _
              (Some (@mkLocationSnapshot Z_JsNumber 52 13 (-1) (Some 34)
                                          "2023-11-14T22:13:20Z+0"))
              eq_refl Hr)
    as (_ & _ & Hacc & _ & _ & _ & _ & Hdb & _).
  split; [exact Hacc | exact Hdb].
Defined.

Lemma addAlert_keeps_one_alert_per_id_witness :
  NoDup (map al_id (app_alerts (store client_with_alert))) /\
  addAlert sample_alert (store client_with_alert) = store client_with_alert /\
  app_alerts (addAlert (with_al_status AlertStatus.resolved sample_alert)
                       (store client_with_alert))
  = [sample_alert].
Proof.
  assert (Hnd : NoDup (map al_id (app_alerts (store client_with_alert))))
    by (apply nodupb_sound; reflexivity).
  split; [exact Hnd|].
  destruct (addAlert_keeps_one_alert_per_id sample_alert (store client_with_alert) Hnd)
    as (_ & _ & _ & Hsame & _).
  split; [apply Hsame; vm_compute; now left|]. vm_compute. reflexivity.
Defined.

Lemma client_reachable_run_ops ops : forall c,
  client_reachable c -> client_reachable (run_client_ops ops c).
Proof.
  induction ops as [|o ops IH]; intros c Hc; cbn; [assumption|].
  apply IH. now constructor.
Qed.

Lemma client_with_alert_reachable : client_reachable client_with_alert.
Proof. unfold client_with_alert. apply client_reachable_run_ops. constructor. Qed.

Lemma shown_alerts_are_persisted_witness :
  client_reachable client_with_alert /\
  app_alerts (store client_with_alert) = [sample_alert] /\
  alert_exists (db (services client_with_alert)) "A7" = true.
Proof.
  split; [exact client_with_alert_reachable|]. split; [reflexivity|].
  exact (proj1 (proj1 (shown_alerts_are_persisted client_with_alert
                         client_with_alert_reachable)
                      sample_alert (or_introl eq_refl))).
Defined.

Lemma response_to_a_shown_alert_is_saved_witness :
  client_reachable client_with_alert /\
  In sample_alert (app_alerts (store client_with_alert)) /\
  exists r,
    record_get "A7"
      (app_responses
         (store (handleSubmitResponse (Some "A7") UserResponseType.evacuating
                                      client_with_alert)))
    = Some r /\
    ur_userId r = "u1" /\ ur_response r = UserResponseType.evacuating /\
    In r (user_responses
            (db (services (handleSubmitResponse (Some "A7")
                             UserResponseType.evacuating client_with_alert)))).
Proof.
  split; [exact client_with_alert_reachable|].
  assert (Hin : In sample_alert (app_alerts (store client_with_alert)))
    by (left; reflexivity).
  split; [exact Hin|].
  destruct (response_to_a_shown_alert_is_saved client_with_alert sample_alert
              sample_user UserResponseType.evacuating client_with_alert_reachable
              Hin eq_refl) as (Hget & Hsaved & _).
  - intros [].
  - intros [].
  - eexists. split; [exact Hget|]. split; [reflexivity|]. split; [reflexivity|].
    exact Hsaved.
Defined.

(** ** The connected event and the alert cache *)

Lemma connected_event_marks_the_row_witness :
  detached call_connecting = [] /\
  map cl_status
      (call_logs (db (snd (run_next (snd (on_connected the_call "+15550100"
                                                       call_connecting))))))
  = [CallStatus.connected] /\
  callStartTime (snd (run_next (snd (on_connected the_call "+15550100"
                                                  call_connecting))))
  = callStartTime call_connecting.
Proof.
  split; [reflexivity|].
  destruct (connected_event_marks_the_row the_call "+15550100" call_connecting eq_refl)
    as (_ & _ & _ & Hlogs & _ & _ & _ & _ & Hstart & _).
  split; [rewrite Hlogs; vm_compute; reflexivity | exact Hstart].
Defined.

Lemma alert_with_metadata_wf : alert_wf alert_with_metadata.
Proof.
  cbn. repeat split; try exact I; apply nodupb_sound; reflexivity.
Qed.

Lemma sample_alert_wf : alert_wf sample_alert.
Proof. exact I. Qed.

Lemma persisted_alert_loads_back_witness :
  alert_wf alert_with_metadata /\
  loadCachedAlerts (alerts_after_persistAlert alert_with_metadata 1700000200 [])
  = Returned [loaded_of_alert alert_with_metadata] /\
  la_metadata (loaded_of_alert alert_with_metadata)
  = Some (JObject [("zone", JString "B"); ("level", JNumber 3);
                   ("gates", JArray [JString "north"])]).
Proof.
  split; [exact alert_with_metadata_wf|].
  split; [|reflexivity].
  exact (proj2 (persisted_alert_loads_back alert_with_metadata 1700000200
                  alert_with_metadata_wf)).
Defined.

Lemma two_alerts_cached_written : written_by_persistAlert two_alerts_cached.
Proof.
  unfold two_alerts_cached, alerts_after_persistAlert, insert_or_replace_alert.
  cbn [filter app alert_row row_id al_id String.eqb Ascii.eqb Bool.eqb negb
       alert_with_metadata sample_alert].
  repeat constructor.
  - exists alert_with_metadata, 1700000200. split; [exact alert_with_metadata_wf|reflexivity].
  - exists sample_alert, 1700000300. split; [exact sample_alert_wf|reflexivity].
Qed.

Lemma cached_alerts_load_newest_first_witness :
  written_by_persistAlert two_alerts_cached /\
  loadCachedAlerts two_alerts_cached
  = Returned [loaded_of_alert alert_with_metadata; loaded_of_alert sample_alert] /\
  exists l,
    loadCachedAlerts two_alerts_cached = Returned l /\
    List.length l = Nat.min 50 (List.length two_alerts_cached).
Proof.
  split; [exact two_alerts_cached_written|].
  split; [vm_compute; reflexivity|].
  destruct (cached_alerts_load_newest_first two_alerts_cached
              two_alerts_cached_written) as (l & Hl & Hlen & _).
  exists l. split; [exact Hl | exact Hlen].
Defined.

Lemma persistAlert_keeps_one_row_per_id_witness :
  NoDup (map row_id two_alerts_cached) /\
  map row_id (alerts_after_persistAlert alert_with_metadata 1700000400
                                        two_alerts_cached)
  = ["A7"; "A8"] /\
  In (alert_row alert_with_metadata 1700000400)
     (alerts_after_persistAlert alert_with_metadata 1700000400 two_alerts_cached).
Proof.
  assert (Hnd : NoDup (map row_id two_alerts_cached))
    by (apply nodupb_sound; vm_compute; reflexivity).
  split; [exact Hnd|]. split; [vm_compute; reflexivity|].
  exact (proj1 (proj2 (persistAlert_keeps_one_row_per_id alert_with_metadata
                         1700000400 two_alerts_cached Hnd))).
Defined.

End Witnesses.
